(** * Geometry matching of pymatgen's chemenv coordination-geometry finder

    Shallow embedding of
    [pymatgen/analysis/chemenv/coordination_environments/coordination_geometry_finder.py]
    and verification of its specification.

    Numbers.  A numpy [float64] is an IEEE 754 binary64 number.  [npfloat] is
    the [spec_float] of the Standard Library, and [fadd], [fsub], [fmul] and
    [fdiv] are its operations at precision 53 and maximal exponent 1024: they
    round to nearest (ties to even), overflow to an infinity, and know the two
    zeros, the two infinities and NaN.  numpy scalar and array arithmetic
    never raises: a division by zero yields an infinity or NaN (with a
    warning), whereas a division of two plain Python floats raises
    [ZeroDivisionError].  [np.sum] adds in numpy's pairwise order; a Python
    loop with [+=] and [np.mean] along the first axis add one term after the
    other.

    Exceptions.  Python code that can raise returns a [result]. *)

From Stdlib Require Import ZArith SpecFloat QArith Qcanon Permutation Sorted.
From stdpp Require Import gmap strings list numbers.

(** ** numpy floating-point scalars *)

Abbreviation npfloat := spec_float.
Abbreviation NaN := S754_nan.

Definition fadd : npfloat → npfloat → npfloat := SFadd 53 1024.
Definition fsub : npfloat → npfloat → npfloat := SFsub 53 1024.
Definition fmul : npfloat → npfloat → npfloat := SFmul 53 1024.
(** numpy division: [x / 0] is an infinity, [0 / 0] is NaN; nothing is
    raised. *)
Definition fdiv : npfloat → npfloat → npfloat := SFdiv 53 1024.
Definition fabs : npfloat → npfloat := SFabs.
(** IEEE comparisons: false as soon as one side is NaN. *)
Definition fleb : npfloat → npfloat → bool := SFleb.
Definition feqb : npfloat → npfloat → bool := SFeqb.

(** The literals [0.0], [1.0] and [100.0]. *)
Definition f64_zero : npfloat := S754_zero false.
Definition f64_one : npfloat := S754_finite false 4503599627370496 (-52).
Definition f64_hundred : npfloat := S754_finite false 7036874417766400 (-46).

(** The conversion of an integer, [np.float(n)]. *)
Definition f64_of_Z (z : Z) : npfloat := binary_normalize 53 1024 z 0 false.
Definition np_float (n : nat) : npfloat := f64_of_Z (Z.of_nat n).

Definition is_finite (x : npfloat) : bool :=
  match x with
  | S754_zero _ | S754_finite _ _ _ => true
  | S754_infinity _ | S754_nan => false
  end.

(** Defaults of [numpy.allclose]: the doubles nearest to 1e-05 and 1e-08. *)
Definition rtol : npfloat := Eval vm_compute in fdiv (f64_of_Z 1) (f64_of_Z 100000).
Definition atol : npfloat := Eval vm_compute in fdiv (f64_of_Z 1) (f64_of_Z 100000000).

(** [numpy.isclose]: [abs(a - b) <= atol + rtol * abs(b)] on finite numbers,
    [a == b] as soon as one of them is not finite. *)
Definition np_isclose (a b : npfloat) : bool :=
  if is_finite a && is_finite b
  then fleb (fabs (fsub a b)) (fadd atol (fmul rtol (fabs b)))
  else feqb a b.

(** The sum a Python loop accumulates with [+=] from [0.0]. *)
Definition running_sum (l : list npfloat) : npfloat := fold_left fadd l f64_zero.

(** [numpy.sum] of a one-dimensional array of doubles adds numpy's pairwise
    sum of the entries to the initial value [0.0].  The pairwise sum adds
    fewer than 8 entries one after the other, starting from [0.0].  Up to 128
    entries it keeps 8 running sums, each of every eighth entry, adds them as
    a balanced tree, and then adds the entries left over one after the other.
    A longer array is split in two, the first part of a length that is a
    multiple of 8. *)
Fixpoint strided_sums (r l : list npfloat) (blocks : nat) : list npfloat :=
  match blocks with
  | 0%nat => r
  | S blocks => strided_sums (zip_with fadd r (take 8 l)) (drop 8 l) blocks
  end.

Definition combine8 (r : list npfloat) : npfloat :=
  let r_ j := nth j r f64_zero in
  fadd (fadd (fadd (r_ 0%nat) (r_ 1%nat)) (fadd (r_ 2%nat) (r_ 3%nat)))
       (fadd (fadd (r_ 4%nat) (r_ 5%nat)) (fadd (r_ 6%nat) (r_ 7%nat))).

Definition block_sum (l : list npfloat) : npfloat :=
  let n := length l in
  let r := strided_sums (take 8 l) (drop 8 l) (n / 8 - 1) in
  fold_left fadd (drop (n - n mod 8) l) (combine8 r).

(** [fuel] bounds the depth of the splitting; the length of the list is
    enough. *)
Fixpoint pairwise_sum (fuel : nat) (l : list npfloat) : npfloat :=
  match fuel with
  | 0%nat => running_sum l
  | S fuel =>
      let n := length l in
      if decide (n < 8)%nat then running_sum l
      else if decide (n ≤ 128)%nat then block_sum l
      else
        let n2 := (n / 2 - (n / 2) mod 8)%nat in
        fadd (pairwise_sum fuel (take n2 l)) (pairwise_sum fuel (drop n2 l))
  end.

Definition np_sum (l : list npfloat) : npfloat :=
  fadd f64_zero (pairwise_sum (length l) l).

(** [a] is a sum of the entries of [l], in some order and bracketing. *)
Inductive sums_to : list npfloat → npfloat → Prop :=
  | sums_to_nil : sums_to [] f64_zero
  | sums_to_entry x : sums_to [x] x
  | sums_to_fadd l1 l2 a b :
      sums_to l1 a → sums_to l2 b → sums_to (l1 ++ l2) (fadd a b)
  | sums_to_perm l l' a : l ≡ₚ l' → sums_to l a → sums_to l' a.

(** ** Python exceptions *)

Inductive exn : Type :=
  | IndexError
  | ZeroDivisionError
  | ValueError
  | TypeError
  | AttributeError
  | UnboundLocalError
  | LinAlgError.

Inductive result (A : Type) : Type :=
  | Ok (a : A)
  | Raise (e : exn).
Arguments Ok {A} a.
Arguments Raise {A} e.

#[export] Instance result_ret : MRet result := @Ok.
#[export] Instance result_bind : MBind result :=
  λ A B f m, match m with Ok a => f a | Raise e => Raise e end.
#[export] Instance result_fmap : FMap result :=
  λ A B f m, match m with Ok a => Ok (f a) | Raise e => Raise e end.

(** [l[i]] for a non-negative index. *)
Definition py_index {A} (l : list A) (i : nat) : result A :=
  match l !! i with
  | Some x => Ok x
  | None => Raise IndexError
  end.

(** [for ip, x in enumerate(l): st = body(st, ip, x)], counting from [ip]. *)
Fixpoint for_enumerate {A St} (body : St → nat → A → result St)
    (ip : nat) (l : list A) (st : St) : result St :=
  match l with
  | [] => Ok st
  | x :: l' => st' ← body st ip x; for_enumerate body (S ip) l' st'
  end.

(** ** Points and 3x3 matrices (numpy arrays of shape (3,) and (3,3)) *)

Record Point : Type := mkPoint { px : npfloat; py : npfloat; pz : npfloat }.

Record Matrix : Type := mkMatrix { row0 : Point; row1 : Point; row2 : Point }.

Definition vadd (a b : Point) : Point :=
  mkPoint (fadd (px a) (px b)) (fadd (py a) (py b)) (fadd (pz a) (pz b)).
Definition vsub (a b : Point) : Point :=
  mkPoint (fsub (px a) (px b)) (fsub (py a) (py b)) (fsub (pz a) (pz b)).
Definition vmul (a b : Point) : Point :=
  mkPoint (fmul (px a) (px b)) (fmul (py a) (py b)) (fmul (pz a) (pz b)).
Definition vscale (s : npfloat) (a : Point) : Point :=
  mkPoint (fmul s (px a)) (fmul s (py a)) (fmul s (pz a)).
Definition vdiv (a : Point) (s : npfloat) : Point :=
  mkPoint (fdiv (px a) s) (fdiv (py a) s) (fdiv (pz a) s).
(** [np.sum] of an array of shape (3,). *)
Definition vsum (a : Point) : npfloat := np_sum [px a; py a; pz a].
Definition vdot (a b : Point) : npfloat := vsum (vmul a b).
Definition vzero : Point := mkPoint f64_zero f64_zero f64_zero.

Definition np_allclose (a b : Point) : bool :=
  np_isclose (px a) (px b) && np_isclose (py a) (py b) && np_isclose (pz a) (pz b).

Definition madd (m n : Matrix) : Matrix :=
  mkMatrix (vadd (row0 m) (row0 n)) (vadd (row1 m) (row1 n)) (vadd (row2 m) (row2 n)).
Definition mzero : Matrix := mkMatrix vzero vzero vzero.
Definition eye : Matrix :=
  mkMatrix (mkPoint f64_one f64_zero f64_zero)
           (mkPoint f64_zero f64_one f64_zero)
           (mkPoint f64_zero f64_zero f64_one).
Definition transpose (m : Matrix) : Matrix :=
  mkMatrix (mkPoint (px (row0 m)) (px (row1 m)) (px (row2 m)))
           (mkPoint (py (row0 m)) (py (row1 m)) (py (row2 m)))
           (mkPoint (pz (row0 m)) (pz (row1 m)) (pz (row2 m))).

(** ** Helpers of [chemenv.utils.coordination_geometry_utils] used by the
    alignment code *)

(** Modelled from the spec: [matrixTimesVector] of the utilities module is not
    in the repository snapshot; "rotates each distorted point by R" is the
    matrix-vector product. *)
Definition matrixTimesVector (m : Matrix) (v : Point) : Point :=
  mkPoint (vdot (row0 m) v) (vdot (row1 m) v) (vdot (row2 m) v).

(** Modelled from the spec: [matrixMultiplication] of the utilities module,
    the product of two 3x3 matrices ("R = V . Ut"). *)
Definition matrixMultiplication (a b : Matrix) : Matrix :=
  let bt := transpose b in
  mkMatrix (matrixTimesVector bt (row0 a))
           (matrixTimesVector bt (row1 a))
           (matrixTimesVector bt (row2 a)).

(** Modelled from the spec: [vectorsToMatrix] of the utilities module, the
    outer product "outer(distorted_i, reference_i)". *)
Definition vectorsToMatrix (aa bb : Point) : Matrix :=
  mkMatrix (vscale (px aa) bb) (vscale (py aa) bb) (vscale (pz aa) bb).

(** Modelled from the spec: [rotateCoords] of the utilities module, "rotates
    each distorted point by R"; it builds a new list. *)
Definition rotateCoords (coords : list Point) (R : Matrix) : list Point :=
  matrixTimesVector R <$> coords.

(** [numpy.linalg.svd] on a 3x3 array, returning [(U, S, Vt)] or raising
    [LinAlgError] ("SVD did not converge"), as it does on an array with a NaN
    or an infinite entry.  It is an external numerical routine: the
    development holds for every such function. *)
Class NumpyLinalg : Type := {
  svd : Matrix → result (Matrix * Point * Matrix);
  svd_raises : ∀ H e, svd H = Raise e → e = LinAlgError
}.

(** ** Alignment: [find_rotation], [find_scaling_factor], [symmetry_measure] *)

Section Alignment.
Context {linalg : NumpyLinalg}.

(** The first loop of [find_rotation]: [isexact] stays [True] unless some pair
    is not [allclose]; [points_perfect[ip]] can raise. *)
Fixpoint isexact_loop (ip : nat) (points_distorted points_perfect : list Point)
    : result bool :=
  match points_distorted with
  | [] => Ok true
  | pp :: rest =>
      q ← py_index points_perfect ip;
      if np_allclose pp q then isexact_loop (S ip) rest points_perfect else Ok false
  end.

Definition find_rotation (points_distorted points_perfect : list Point)
    : result Matrix :=
  isexact ← isexact_loop 0 points_distorted points_perfect;
  if isexact : bool then Ok eye
  else
    H ← for_enumerate
          (λ H ip pp, q ← py_index points_perfect ip; Ok (madd H (vectorsToMatrix pp q)))
          0 points_distorted mzero;
    '(U, _, Vt) ← svd H;
    Ok (matrixMultiplication (transpose Vt) (transpose U)).

Definition find_scaling_factor (points_distorted points_perfect : list Point)
    (rot : Matrix) : result (npfloat * list Point) :=
  let rotated_coords := rotateCoords points_distorted rot in
  terms ← for_enumerate
            (λ acc ii rc, q ← py_index points_perfect ii; Ok (acc ++ [vdot rc q]))
            0 rotated_coords [];
  let num := np_sum terms in
  let denom := np_sum ((λ rc, vdot rc rc) <$> rotated_coords) in
  Ok (fdiv num denom, rotated_coords).

(** Body of the loop of [symmetry_measure]; the state is
    [(rotated_coords, num, denom)] and [rotated_coords] is updated in place. *)
Definition symmetry_measure_body (scaling_factor : npfloat)
    (st : list Point * npfloat * npfloat) (ip : nat) (pp : Point)
    : result (list Point * npfloat * npfloat) :=
  let '(rotated_coords, num, denom) := st in
  rc ← py_index rotated_coords ip;
  let scaled := vscale scaling_factor rc in
  let rotated_coords := <[ip := scaled]> rotated_coords in
  let diff := vsub pp scaled in
  Ok (rotated_coords, fadd num (vsum (vmul diff diff)), fadd denom (vsum (vmul pp pp))).

Definition symmetry_measure (points_distorted points_perfect : list Point)
    : result npfloat :=
  if decide (length points_distorted = 1%nat) then Ok f64_zero
  else
    rot ← find_rotation points_distorted points_perfect;
    '(scaling_factor, rotated_coords) ←
      find_scaling_factor points_distorted points_perfect rot;
    '(_, num, denom) ←
      for_enumerate (symmetry_measure_body scaling_factor) 0 points_perfect
        (rotated_coords, f64_zero, f64_zero);
    match points_perfect with
    | [] =>
        (* the loop never ran: [num] and [denom] are still the Python floats
           [0.0], whose quotient raises *)
        Raise ZeroDivisionError
    | _ :: _ => Ok (fmul (fdiv num denom) f64_hundred)
    end.

End Alignment.

(** ** The continuous symmetry measure as the specification words it *)

Definition norm2 (p : Point) : npfloat := vdot p p.

Definition continuousSymmetryMeasure_formula
    (reference rotated : list Point) (scale : npfloat) : npfloat :=
  fmul f64_hundred
       (fdiv (running_sum
                (zip_with (λ r x, norm2 (vsub r (vscale scale x))) reference rotated))
             (running_sum (norm2 <$> reference))).

(** The value [symmetry_measure] returns for non-empty lists of equal length
    once [find_rotation] has returned [rot]: lines 218-230 in closed form. *)
Definition measure_after_rotation (points_distorted points_perfect : list Point)
    (rot : Matrix) : npfloat :=
  let rotated_coords := rotateCoords points_distorted rot in
  let scaling_factor :=
    fdiv (np_sum (zip_with vdot rotated_coords points_perfect))
         (np_sum ((λ rc, vdot rc rc) <$> rotated_coords)) in
  fmul (fdiv (running_sum (zip_with (λ r x, norm2 (vsub r (vscale scaling_factor x)))
                             points_perfect rotated_coords))
             (running_sum (norm2 <$> points_perfect)))
       f64_hundred.

(** ** [AbstractGeometry] *)

Inductive centering : Type :=
  | standard
  | central_site_centering
  | centroid.

(** [np.mean(points, axis=0)]: the mean of an empty list is [nan]. *)
Definition np_mean (points : list Point) : Point :=
  vdiv (fold_left vadd points vzero) (np_float (length points)).

Record AbstractGeometry : Type := mkAbstractGeometry {
  bare_centre : Point;
  bare_points_without_centre : list Point;
  bare_points_with_centre : list Point;
  centroid_without_centre : Point;
  centroid_with_centre : Point;
  _points_wcs_csc : list Point;
  _points_wocs_csc : list Point;
  _points_wcs_ctwcc : list Point;
  _points_wocs_ctwcc : list Point;
  _points_wcs_ctwocc : list Point;
  _points_wocs_ctwocc : list Point;
  centering_type : centering;
  include_central_site_in_centroid : bool;
  centre : Point;
  coords : list Point;  (* [self._coords] and [self.coords] are one list *)
  central_site : Point
}.

(** Lines 66-79 of the constructor: arithmetic between the points and
    [np.array(central_site)].  With [central_site=None] the array holds the
    object [None] and the first subtraction (or already the mean over the
    list that contains it) raises [TypeError]. *)
Definition array_of_central_site (central_site : option Point) : result Point :=
  match central_site with
  | Some c => Ok c
  | None => Raise TypeError
  end.

(** Lines 84-120: the choice of [self.centre]. *)
Definition centroid_centre (central_site : option Point) (bare_coords : list Point)
    (include_central_site_in_centroid : bool) : result Point :=
  let total := fold_left vadd bare_coords vzero in
  if include_central_site_in_centroid then
    match central_site with
    | None => Raise ValueError
    | Some c =>
        Ok (vdiv (vadd total c) (fadd (np_float (length bare_coords)) f64_one))
    end
  else Ok (vdiv total (np_float (length bare_coords))).

Definition central_site_centre (central_site : option Point)
    (include_central_site_in_centroid : bool) : result Point :=
  if include_central_site_in_centroid then Raise ValueError
  else match central_site with
       | None => Raise ValueError
       | Some c => Ok c
       end.

Definition choose_centre (central_site : option Point) (bare_coords : list Point)
    (centering_type : centering) (include_central_site_in_centroid : bool)
    : result Point :=
  match centering_type with
  | standard =>
      if decide (length bare_coords < 5)
      then central_site_centre central_site include_central_site_in_centroid
      else centroid_centre central_site bare_coords include_central_site_in_centroid
  | central_site_centering =>
      central_site_centre central_site include_central_site_in_centroid
  | centroid =>
      centroid_centre central_site bare_coords include_central_site_in_centroid
  end.

(** [AbstractGeometry.__init__]. *)
Definition AbstractGeometry_init (central_site : option Point) (bare_coords : list Point)
    (centering_type : centering) (include_central_site_in_centroid : bool)
    : result AbstractGeometry :=
  let bare_points_without_centre := bare_coords in
  bare_centre ← array_of_central_site central_site;
  let bare_points_with_centre := bare_centre :: bare_coords in
  let centroid_without_centre := np_mean bare_points_without_centre in
  let centroid_with_centre := np_mean bare_points_with_centre in
  let sub c := (λ pp, vsub pp c) in
  centre ← choose_centre central_site bare_coords centering_type
             include_central_site_in_centroid;
  Ok {| bare_centre := bare_centre;
        bare_points_without_centre := bare_points_without_centre;
        bare_points_with_centre := bare_points_with_centre;
        centroid_without_centre := centroid_without_centre;
        centroid_with_centre := centroid_with_centre;
        _points_wcs_csc := sub bare_centre <$> bare_points_with_centre;
        _points_wocs_csc := sub bare_centre <$> bare_points_without_centre;
        _points_wcs_ctwcc := sub centroid_with_centre <$> bare_points_with_centre;
        _points_wocs_ctwcc := sub centroid_with_centre <$> bare_points_without_centre;
        _points_wcs_ctwocc := sub centroid_without_centre <$> bare_points_with_centre;
        _points_wocs_ctwocc := sub centroid_without_centre <$> bare_points_without_centre;
        centering_type := centering_type;
        include_central_site_in_centroid := include_central_site_in_centroid;
        centre := centre;
        coords := sub centre <$> bare_coords;
        central_site := vsub bare_centre centre |}.

(** The view accessors.  Without a permutation the stored list is returned;
    with one, the points are picked by index (the central site stays first in
    the views that contain it). *)
Definition permuted_view (view : list Point) (permutation : option (list nat))
    : result (list Point) :=
  match permutation with
  | None => Ok view
  | Some perm => mapM (py_index view) perm
  end.

Definition permuted_view_with_centre (view : list Point) (permutation : option (list nat))
    : result (list Point) :=
  match permutation with
  | None => Ok view
  | Some perm => mapM (py_index view) (0 :: (S <$> perm))
  end.

Definition points_wcs_csc (g : AbstractGeometry) := permuted_view_with_centre (_points_wcs_csc g).
Definition points_wocs_csc (g : AbstractGeometry) := permuted_view (_points_wocs_csc g).
Definition points_wcs_ctwcc (g : AbstractGeometry) := permuted_view_with_centre (_points_wcs_ctwcc g).
Definition points_wocs_ctwcc (g : AbstractGeometry) := permuted_view (_points_wocs_ctwcc g).
Definition points_wcs_ctwocc (g : AbstractGeometry) := permuted_view_with_centre (_points_wcs_ctwocc g).
Definition points_wocs_ctwocc (g : AbstractGeometry) := permuted_view (_points_wocs_ctwocc g).

(** ** The catalogue of reference polyhedra ([coordination_geometries]) *)

(** Modelled from the spec: the two algorithm-type constants of
    [coordination_geometries], which is not in the repository snapshot; the
    spec names the variants ExplicitPermutations and SeparationPlane. *)
Definition EXPLICIT_PERMUTATIONS : string := "EXPLICIT_PERMUTATIONS".
Definition SEPARATION_PLANE : string := "SEPARATION_PLANE".

Abbreviation permutation_list := (list nat) (only parsing).
Abbreviation separation := (list nat * list nat * list nat)%type (only parsing).

(** A separation-plane algorithm descriptor. *)
Record SeparationPlane : Type := mkSeparationPlane {
  minimum_number_of_points : nat;
  maximum_number_of_points : nat;
  plane_points : list nat;
  point_groups : list nat * list nat;
  ordered_plane : bool;
  ordered_point_groups : bool * bool;
  sp_permutations : list permutation_list;
  safe_separation_permutations : bool → bool * bool → list permutation_list;
  argsorted_ref_separation_perm : list nat
}.

(** An algorithm object of a reference polyhedron: its [algorithm_type]
    attribute and the payload of its class. *)
Inductive Algorithm : Type :=
  | ExplicitPermutationsAlgorithm (permutations : list permutation_list) (str : string)
  | SeparationPlaneAlgorithm (sepplane : SeparationPlane)
  | OtherAlgorithm (algorithm_type : string).

Definition algorithm_type (algo : Algorithm) : string :=
  match algo with
  | ExplicitPermutationsAlgorithm _ _ => EXPLICIT_PERMUTATIONS
  | SeparationPlaneAlgorithm _ => SEPARATION_PLANE
  | OtherAlgorithm t => t
  end.

Record CoordinationGeometry : Type := mkCoordinationGeometry {
  mp_symbol : string;
  coordination_number : nat;
  points : list Point;
  get_central_site : option Point;
  algorithms : option (list Algorithm);
  equivalent_indices : option (list (list nat));
  ref_permutation : permutation_list → permutation_list
}.

(** ** External collaborators *)

(** The plane geometry of [chemenv.utils.coordination_geometry_utils]
    ([Plane], [collinear], [sort_separation], [separation_in_list]); the
    matcher only calls it. *)
Class GeometryUtils : Type := {
  Plane : Type;
  collinear : Point → Point → Point → Qc → bool;
  Plane_from_3points : Point → Point → Point → Plane;
  Plane_from_npoints : list Point → Plane;
  indices_separate : Plane → list Point → Qc → separation;
  project_and_to2dim_ordered_indices : Plane → list Point → list nat;
  sort_separation : separation → separation;
  separation_in_list : separation → list separation → bool
}.

(** [numpy.random.permutation(n)] with its generator state made explicit; it
    returns a permutation of [range(n)]. *)
Class NumpyRandom : Type := {
  rng : Type;
  random_permutation : nat → rng → permutation_list * rng;
  random_permutation_perm : ∀ n g, (random_permutation n g).1 ≡ₚ seq 0 n
}.

(** ** Python library functions *)

(** [itertools.combinations(l, r)], in the order Python yields them. *)
Fixpoint combinations {A} (r : nat) (l : list A) : list (list A) :=
  match r, l with
  | 0, _ => [[]]
  | S _, [] => []
  | S r', x :: l' => (cons x <$> combinations r' l') ++ combinations r l'
  end.

(** [itertools.permutations(l)], in the order Python yields them; [n] is the
    length of [l]. *)
Fixpoint itertools_permutations_aux {A} (n : nat) (l : list A) : list (list A) :=
  match n with
  | 0 => [[]]
  | S n' =>
      flat_map (λ i, match l !! i with
                     | Some x => cons x <$> itertools_permutations_aux n' (delete i l)
                     | None => []
                     end)
               (seq 0 (length l))
  end.
Definition itertools_permutations {A} (l : list A) : list (list A) :=
  itertools_permutations_aux (length l) l.

(** [range(a, b)]. *)
Definition py_range (a b : nat) : list nat := seq a (b - a).

(** [np.argmin]: the index of the first [nan] if there is one, else of the
    first minimum; [ValueError] on an empty sequence. *)
Definition argmin_better (x best : npfloat) : bool :=
  match best, x with
  | NaN, _ => false
  | _, NaN => true
  | _, _ => negb (fleb best x)
  end.

Fixpoint np_argmin_from (i : nat) (l : list npfloat) (ibest : nat) (best : npfloat) : nat :=
  match l with
  | [] => ibest
  | x :: l' =>
      if argmin_better x best then np_argmin_from (S i) l' i x
      else np_argmin_from (S i) l' ibest best
  end.

Definition np_argmin (l : list npfloat) : result nat :=
  match l with
  | [] => Raise ValueError
  | x :: l' => Ok (np_argmin_from 1 l' 0 x)
  end.

(** ** Index maps of a permutation *)

(** [for i_p, pp in enumerate(perm): p2l[i_p] = pp; l2p[pp] = i_p]; the pair
    is [(local2perfect_map, perfect2local_map)]. *)
Definition index_maps (perm : permutation_list) : gmap nat nat * gmap nat nat :=
  fold_left (λ '(l2p, p2l) '(i_p, pp), (<[pp := i_p]> l2p, <[i_p := pp]> p2l))
            (zip (seq 0 (length perm)) perm) (∅, ∅).

Definition local2perfect_of (perm : permutation_list) : gmap nat nat := (index_maps perm).1.
Definition perfect2local_of (perm : permutation_list) : gmap nat nat := (index_maps perm).2.

(** ** [LocalGeometryFinder] *)

Definition DIST_TOLERANCES : list Qc :=
  [Q2Qc (2 # 100); Q2Qc (5 # 100); Q2Qc (1 # 10); Q2Qc (2 # 10); Q2Qc (3 # 10)].

(** Default of the [NRANDOM] argument of the random fallback. *)
Definition NRANDOM : nat := 200.

(** The attributes of the finder the matching code reads;
    [get_implemented_geometries] stands for [self.cg.get_implemented_geometries]. *)
Record LocalGeometryFinder : Type := mkLocalGeometryFinder {
  get_implemented_geometries : nat → list CoordinationGeometry;
  permutations_safe_override : bool;
  plane_ordering_override : bool;
  plane_safe_permutations : bool;
  self_centering_type : centering;
  self_include_central_site_in_centroid : bool;
  local_geometry : AbstractGeometry
}.

(** The five lists every matching strategy returns:
    [(csms, permutations, algos, local2perfect_maps, perfect2local_maps)]. *)
Abbreviation cgsm :=
  (list npfloat * list permutation_list * list string
   * list (gmap nat nat) * list (gmap nat nat))%type (only parsing).

Definition cgsm_empty : cgsm := ([], [], [], [], []).

Definition cgsm_extend (a b : cgsm) : cgsm :=
  let '(c1, p1, a1, l1, q1) := a in
  let '(c2, p2, a2, l2, q2) := b in
  (c1 ++ c2, p1 ++ p2, a1 ++ a2, l1 ++ l2, q1 ++ q2).

(** [for x in l: st = body(st, x)]. *)
Fixpoint for_each {A St} (body : St → A → result St) (l : list A) (st : St) : result St :=
  match l with
  | [] => Ok st
  | x :: l' => st' ← body st x; for_each body l' st'
  end.

(** The tested-permutations argument: [None] is Python's [False], [Some s] a
    set. *)
Abbreviation tested_set := (option (gset permutation_list)) (only parsing).

Section Finder.
Context {linalg : NumpyLinalg} {utils : GeometryUtils} {random : NumpyRandom}.

(** *** [coordination_geometry_symmetry_measures_standard] *)

Definition coordination_geometry_symmetry_measures_standard
    (self : LocalGeometryFinder) (coordination_geometry : CoordinationGeometry)
    (permutations : list permutation_list) (str_algo : string)
    (points_perfect : list Point) : result cgsm :=
  for_each
    (λ '(csms, perms, algos, l2ps, p2ls) perm,
       points_distorted ← points_wocs_ctwocc (local_geometry self) (Some perm);
       csm ← symmetry_measure points_distorted points_perfect;
       Ok (csms ++ [csm], perms ++ [perm], algos ++ [str_algo],
           l2ps ++ [local2perfect_of perm], p2ls ++ [perfect2local_of perm]))
    permutations cgsm_empty.

(** *** [coordination_geometry_symmetry_measures_safe_override] *)

(** One iteration; the call of [self.symmetry_measure_newpmg], a method the
    class does not define, raises [AttributeError]. *)
Definition safe_override_iteration (self : LocalGeometryFinder)
    (coordination_geometry : CoordinationGeometry)
    (st : list npfloat * list permutation_list) (perm : permutation_list)
    : result (list npfloat * list permutation_list) :=
  bare_coords ← mapM (py_index (points coordination_geometry)) perm;
  perfect_geometry ← AbstractGeometry_init (get_central_site coordination_geometry)
                        bare_coords (self_centering_type self)
                        (self_include_central_site_in_centroid self);
  Raise AttributeError.

Definition coordination_geometry_symmetry_measures_safe_override
    (self : LocalGeometryFinder) (coordination_geometry : CoordinationGeometry)
    : result (list npfloat * list permutation_list * string) :=
  '(csms, perms) ←
    for_each (safe_override_iteration self coordination_geometry)
      (itertools_permutations (seq 0 (coordination_number coordination_geometry)))
      ([], []);
  Ok (csms, perms, "SAFE").

(** *** [coordination_geometry_symmetry_measures_fallback_random] *)

Fixpoint fallback_random_loop (self : LocalGeometryFinder)
    (coordination_geometry : CoordinationGeometry) (points_perfect : list Point)
    (n : nat) (g : rng) (acc : cgsm) : result (cgsm * rng) :=
  match n with
  | 0 => Ok (acc, g)
  | S n' =>
      let '(perm, g') := random_permutation (coordination_number coordination_geometry) g in
      points_distorted ← points_wocs_ctwocc (local_geometry self) (Some perm);
      csm ← symmetry_measure points_distorted points_perfect;
      fallback_random_loop self coordination_geometry points_perfect n' g'
        (cgsm_extend acc ([csm], [perm], ["APPROXIMATE_FALLBACK"],
                          [local2perfect_of perm], [perfect2local_of perm]))
  end.

Definition coordination_geometry_symmetry_measures_fallback_random
    (self : LocalGeometryFinder) (coordination_geometry : CoordinationGeometry)
    (NRANDOM : nat) (points_perfect : list Point) (g : rng) : result (cgsm * rng) :=
  fallback_random_loop self coordination_geometry points_perfect NRANDOM g cgsm_empty.

(** *** [_cg_csm_separation_plane] *)

(** Lines 926-939: [None] is [continue]; otherwise the separation, possibly
    turned over, that is appended to [plane_separations]. *)
Definition accept_separation (sepplane : SeparationPlane)
    (plane_separations : list separation) (sep : separation) : option separation :=
  let '(s0, s1, s2) := sep in
  if separation_in_list sep plane_separations then None
  else if decide (length s1 ≠ length (plane_points sepplane)) then None
  else if decide (length s0 = length (point_groups sepplane).1) then Some sep
  else if decide (length s0 = length (point_groups sepplane).2) then Some (s2, s1, s0)
  else None.

(** [[pp for ip, pp in enumerate(coords) if ip in group]]. *)
Definition points_with_index_in (coords : list Point) (group : list nat) : list Point :=
  snd <$> filter (λ ipp, ipp.1 ∈ group) (zip (seq 0 (length coords)) coords).

Definition ordered_group (local_plane : Plane) (coords : list Point)
    (group : list nat) (ordered : bool) : result (list nat) :=
  if ordered then
    mapM (py_index group)
      (project_and_to2dim_ordered_indices local_plane (points_with_index_in coords group))
  else Ok group.

(** Lines 941-965: [separation_perm]. *)
Definition separation_permutation (sepplane : SeparationPlane) (local_plane : Plane)
    (coords : list Point) (this_separation : separation) : result (list nat) :=
  let '(s0, s1, s2) := this_separation in
  if ordered_plane sepplane then
    let inp := points_with_index_in coords s1 in
    sep0 ← ordered_group local_plane coords s0 (ordered_point_groups sepplane).1;
    sep2 ← ordered_group local_plane coords s2 (ordered_point_groups sepplane).2;
    mid ← mapM (py_index s1) (project_and_to2dim_ordered_indices local_plane inp);
    Ok (sep0 ++ mid ++ sep2)
  else Ok (s0 ++ s1 ++ s2).

(** Lines 975-976: the candidate permutation [pp] of one [sep_perm]. *)
Definition candidate_permutation (separation_perm argref_separation : list nat)
    (sep_perm : permutation_list) : result permutation_list :=
  perm1 ← mapM (py_index separation_perm) sep_perm;
  mapM (py_index perm1) argref_separation.

(** Lines 978-982: [None] is [continue]; otherwise the tested set after the
    possible insertion. *)
Definition check_tested (coordination_geometry : CoordinationGeometry)
    (tested_permutations : tested_set) (pp : permutation_list) : option tested_set :=
  match tested_permutations, equivalent_indices coordination_geometry with
  | Some tested, Some _ =>
      let tuple_ref_perm := ref_permutation coordination_geometry pp in
      if decide (tuple_ref_perm ∈ tested) then None
      else Some (Some ({[tuple_ref_perm]} ∪ tested))
  | _, _ => Some tested_permutations
  end.

(** Body of the loop over [sep_perms] (lines 974-992); the state is
    [(permutations, permutations_symmetry_measures, tested_permutations)]. *)
Definition score_sep_perm (self : LocalGeometryFinder)
    (coordination_geometry : CoordinationGeometry) (sepplane : SeparationPlane)
    (points_perfect : list Point) (separation_perm : list nat)
    (st : list permutation_list * list npfloat * tested_set) (sep_perm : permutation_list)
    : result (list permutation_list * list npfloat * tested_set) :=
  let '(permutations, permutations_symmetry_measures, tested_permutations) := st in
  pp ← candidate_permutation separation_perm (argsorted_ref_separation_perm sepplane) sep_perm;
  match check_tested coordination_geometry tested_permutations pp with
  | None => Ok st
  | Some tested_permutations =>
      points_distorted ← points_wocs_ctwocc (local_geometry self) (Some pp);
      csm ← symmetry_measure points_distorted points_perfect;
      Ok (permutations ++ [pp], permutations_symmetry_measures ++ [csm], tested_permutations)
  end.

Definition sep_perms_of (self : LocalGeometryFinder) (sepplane : SeparationPlane)
    : list permutation_list :=
  if plane_safe_permutations self
  then safe_separation_permutations sepplane (ordered_plane sepplane)
         (ordered_point_groups sepplane)
  else sp_permutations sepplane.

(** The loop over the distance tolerances (lines 916-994) and the return
    statements that follow it; the result triple is [None] for Python's
    [(None, None, None)]. *)
Fixpoint tolerance_loop (self : LocalGeometryFinder)
    (coordination_geometry : CoordinationGeometry) (sepplane : SeparationPlane)
    (local_plane : Plane) (plane_separations : list separation)
    (dist_tolerances : list Qc) (tested_permutations : tested_set)
    (points_perfect : list Point)
    : result (option (list npfloat * list permutation_list * list string)
              * list separation * tested_set) :=
  match dist_tolerances with
  | [] => Ok (None, plane_separations, tested_permutations)
  | dist_tolerance :: dist_tolerances =>
      let separation :=
        sort_separation
          (indices_separate local_plane (coords (local_geometry self)) dist_tolerance) in
      match accept_separation sepplane plane_separations separation with
      | None =>
          tolerance_loop self coordination_geometry sepplane local_plane
            plane_separations dist_tolerances tested_permutations points_perfect
      | Some this_separation =>
          let plane_separations := plane_separations ++ [this_separation] in
          separation_perm ← separation_permutation sepplane local_plane
                              (coords (local_geometry self)) this_separation;
          '(permutations, permutations_symmetry_measures, tested_permutations) ←
            for_each (score_sep_perm self coordination_geometry sepplane
                        points_perfect separation_perm)
              (sep_perms_of self sepplane) ([], [], tested_permutations);
          (* plane_found: the loop over the tolerances is left *)
          if decide (0 < length permutations_symmetry_measures) then
            Ok (Some (permutations_symmetry_measures, permutations,
                      replicate (length permutations) SEPARATION_PLANE),
                plane_separations, tested_permutations)
          else
            Ok (Some (permutations_symmetry_measures, permutations, []),
                plane_separations, tested_permutations)
      end
  end.

(** With no tolerance at all the lists tested after the loop were never
    bound. *)
Definition _cg_csm_separation_plane (self : LocalGeometryFinder)
    (coordination_geometry : CoordinationGeometry) (sepplane : SeparationPlane)
    (local_plane : Plane) (plane_separations : list separation)
    (dist_tolerances : list Qc) (tested_permutations : tested_set)
    (points_perfect : list Point)
    : result (option (list npfloat * list permutation_list * list string)
              * list separation * tested_set) :=
  match dist_tolerances with
  | [] => Raise UnboundLocalError
  | _ :: _ =>
      tolerance_loop self coordination_geometry sepplane local_plane
        plane_separations dist_tolerances tested_permutations points_perfect
  end.

(** *** [coordination_geometry_symmetry_measures_separation_plane] *)

(** The local variables of the search. *)
Record SearchState : Type := mkSearchState {
  found : cgsm;
  plane_separations_of : list separation;
  nplanes : nat;
  tested_permutations_of : tested_set
}.

(** Lines 863-876: the trial plane of a combination; [None] is [continue]. *)
Definition plane_of_combination (self : LocalGeometryFinder) (npoints : nat)
    (points_combination : list Point) : result (option Plane) :=
  let central := central_site (local_geometry self) in
  if decide (npoints = 2) then
    p0 ← py_index points_combination 0;
    p1 ← py_index points_combination 1;
    if collinear p0 p1 central (Q2Qc (25 # 100)) then Ok None
    else Ok (Some (Plane_from_3points p0 p1 central))
  else if decide (npoints = 3) then
    p0 ← py_index points_combination 0;
    p1 ← py_index points_combination 1;
    p2 ← py_index points_combination 2;
    if collinear p0 p1 p2 (Q2Qc (25 # 100)) then Ok None
    else Ok (Some (Plane_from_3points p0 p1 p2))
  else if decide (3 < npoints) then Ok (Some (Plane_from_npoints points_combination))
  else Raise ValueError.

(** Lines 885-901: what the search does with the result of one plane. *)
Definition record_plane (st : SearchState)
    (r : option (list npfloat * list permutation_list * list string)
         * list separation * tested_set) : SearchState :=
  let '(cgsm, plane_separations, tested_permutations) := r in
  match cgsm with
  | Some (csm, perm, algo) =>
      {| found := cgsm_extend (found st)
                    (csm, perm, algo, local2perfect_of <$> perm, perfect2local_of <$> perm);
         plane_separations_of := plane_separations;
         nplanes := S (nplanes st);
         tested_permutations_of := tested_permutations |}
  | None =>
      {| found := found st;
         plane_separations_of := plane_separations;
         nplanes := nplanes st;
         tested_permutations_of := tested_permutations |}
  end.

Definition search_combination (self : LocalGeometryFinder)
    (coordination_geometry : CoordinationGeometry) (sepplane : SeparationPlane)
    (points_perfect : list Point) (npoints : nat)
    (st : SearchState) (points_combination : list Point) : result SearchState :=
  plane ← plane_of_combination self npoints points_combination;
  match plane with
  | None => Ok st
  | Some plane =>
      r ← _cg_csm_separation_plane self coordination_geometry sepplane plane
            (plane_separations_of st) DIST_TOLERANCES (tested_permutations_of st)
            points_perfect;
      Ok (record_plane st r)
  end.

(** The values [npoints] takes: [range(minimum, min(maximum, 4) + 1)]. *)
Definition npoints_range (sepplane : SeparationPlane) : list nat :=
  py_range (minimum_number_of_points sepplane)
           (Nat.min (maximum_number_of_points sepplane) 4 + 1).

(** The loop over [npoints] (lines 860-903). *)
Fixpoint npoints_loop (self : LocalGeometryFinder)
    (coordination_geometry : CoordinationGeometry) (sepplane : SeparationPlane)
    (points_perfect : list Point) (npoints_values : list nat) (st : SearchState)
    : result SearchState :=
  match npoints_values with
  | [] => Ok st
  | npoints :: npoints_values =>
      st ← for_each (search_combination self coordination_geometry sepplane
                       points_perfect npoints)
             (combinations npoints (coords (local_geometry self))) st;
      if decide (0 < nplanes st) then Ok st
      else npoints_loop self coordination_geometry sepplane points_perfect
             npoints_values st
  end.

Definition initial_search_state (tested_permutations : tested_set) : SearchState :=
  {| found := cgsm_empty; plane_separations_of := []; nplanes := 0;
     tested_permutations_of := tested_permutations |}.

(** The matcher calls the search with [testing=False]; that is the case
    modelled. *)
Definition coordination_geometry_symmetry_measures_separation_plane
    (self : LocalGeometryFinder) (coordination_geometry : CoordinationGeometry)
    (separation_plane_algo : SeparationPlane) (tested_permutations : tested_set)
    (points_perfect : list Point) (g : rng) : result (cgsm * tested_set * rng) :=
  st ← npoints_loop self coordination_geometry separation_plane_algo points_perfect
         (npoints_range separation_plane_algo) (initial_search_state tested_permutations);
  if decide (nplanes st = 0) then
    '(r, g') ← coordination_geometry_symmetry_measures_fallback_random self
                 coordination_geometry NRANDOM points_perfect g;
    Ok (r, tested_permutations_of st, g')
  else Ok (found st, tested_permutations_of st, g).

(** *** [coordination_geometry_symmetry_measures] *)

(** What the dispatcher returns: the five lists, or the triple of the safe
    override. *)
Inductive cgsm_value : Type :=
  | FiveLists (r : cgsm)
  | SafeTriple (r : list npfloat * list permutation_list * string).

(** [if tested_permutations: tested_permutations = set()]: a non-empty set
    (like [True]) is replaced by a fresh empty one. *)
Definition reset_tested (tested_permutations : tested_set) : tested_set :=
  match tested_permutations with
  | None => None
  | Some tested => if decide (tested = ∅) then Some tested else Some ∅
  end.

(** The loop over [coordination_geometry.algorithms] (lines 760-776). *)
Fixpoint algorithms_loop (self : LocalGeometryFinder)
    (coordination_geometry : CoordinationGeometry) (points_perfect : list Point)
    (algos : list Algorithm) (acc : cgsm) (tested_permutations : tested_set) (g : rng)
    : result (cgsm * rng) :=
  match algos with
  | [] => Ok (acc, g)
  | algo :: algos =>
      if decide (algorithm_type algo = EXPLICIT_PERMUTATIONS) then
        match algo with
        | ExplicitPermutationsAlgorithm permutations str_algo =>
            r ← coordination_geometry_symmetry_measures_standard self
                  coordination_geometry permutations str_algo points_perfect;
            Ok (r, g)
        | _ => Raise AttributeError
        end
      else if decide (algorithm_type algo = SEPARATION_PLANE) then
        match algo with
        | SeparationPlaneAlgorithm sepplane =>
            '(r, tested_permutations, g) ←
              coordination_geometry_symmetry_measures_separation_plane self
                coordination_geometry sepplane tested_permutations points_perfect g;
            algorithms_loop self coordination_geometry points_perfect algos
              (cgsm_extend acc r) tested_permutations g
        | _ => Raise AttributeError
        end
      else
        algorithms_loop self coordination_geometry points_perfect algos acc
          tested_permutations g
  end.

Definition coordination_geometry_symmetry_measures (self : LocalGeometryFinder)
    (coordination_geometry : CoordinationGeometry) (tested_permutations : tested_set)
    (points_perfect : list Point) (g : rng) : result (cgsm_value * rng) :=
  let tested_permutations := reset_tested tested_permutations in
  if permutations_safe_override self then
    r ← coordination_geometry_symmetry_measures_safe_override self coordination_geometry;
    Ok (SafeTriple r, g)
  else
    match algorithms coordination_geometry with
    | None => Raise TypeError
    | Some algos =>
        '(r, g) ← algorithms_loop self coordination_geometry points_perfect algos
                    cgsm_empty tested_permutations g;
        Ok (FiveLists r, g)
    end.

(** *** [get_coordination_symmetry_measures] ([only_minimum=True]) *)

Inductive algo_field : Type :=
  | AlgoTag (algo : string)
  | AlgoTags (algos : list string).

Record OtherCsms : Type := mkOtherCsms {
  csm_wocs_ctwocc : npfloat;
  csm_wocs_ctwcc : npfloat;
  csm_wocs_csc : npfloat;
  csm_wcs_ctwocc : npfloat;
  csm_wcs_ctwcc : npfloat;
  csm_wcs_csc : npfloat
}.

Record ResultEntry : Type := mkResultEntry {
  csm : npfloat;
  indices : permutation_list;
  algo : algo_field;
  local2perfect_map : gmap nat nat;
  perfect2local_map : gmap nat nat;
  other_csms : option OtherCsms
}.

(** Lines 703-733: the measure in the other referencing conventions. *)
Definition all_other_csms (self : LocalGeometryFinder) (perfect_geometry : AbstractGeometry)
    (permutation : permutation_list) (csm_min : npfloat) : result OtherCsms :=
  let lg := local_geometry self in
  let measure (view : AbstractGeometry → option permutation_list → result (list Point)) :=
    pdist ← view lg (Some permutation);
    pperf ← view perfect_geometry None;
    symmetry_measure pdist pperf in
  c1 ← measure points_wocs_ctwcc;
  c2 ← measure points_wocs_csc;
  c3 ← measure points_wcs_ctwocc;
  c4 ← measure points_wcs_ctwcc;
  c5 ← measure points_wcs_csc;
  Ok {| csm_wocs_ctwocc := csm_min; csm_wocs_ctwcc := c1; csm_wocs_csc := c2;
        csm_wcs_ctwocc := c3; csm_wcs_ctwcc := c4; csm_wcs_csc := c5 |}.

(** Body of the loop over the test geometries (lines 684-733). *)
Definition match_geometry (self : LocalGeometryFinder) (all_csms : bool)
    (st : gmap string ResultEntry * rng) (geometry : CoordinationGeometry)
    : result (gmap string ResultEntry * rng) :=
  let '(result_dict, g) := st in
  perfect_geometry ← AbstractGeometry_init (get_central_site geometry) (points geometry)
                        (self_centering_type self)
                        (self_include_central_site_in_centroid self);
  points_perfect ← points_wocs_ctwocc perfect_geometry None;
  '(cgsm, g) ← coordination_geometry_symmetry_measures self geometry None points_perfect g;
  match cgsm with
  | SafeTriple _ => Raise ValueError
  | FiveLists (result, permutations, algos, local2perfect_maps, perfect2local_maps) =>
      if decide (0 < length result) then
        imin ← np_argmin result;
        algo ← match algorithms geometry with
               | Some _ => AlgoTag <$> py_index algos imin
               | None => Ok (AlgoTags algos)
               end;
        csm ← py_index result imin;
        permutation ← py_index permutations imin;
        l2p ← py_index local2perfect_maps imin;
        p2l ← py_index perfect2local_maps imin;
        others ← (if all_csms
                  then Some <$> all_other_csms self perfect_geometry permutation csm
                  else Ok None);
        Ok (<[mp_symbol geometry :=
                {| csm := csm; indices := permutation; algo := algo;
                   local2perfect_map := l2p; perfect2local_map := p2l;
                   other_csms := others |}]> result_dict, g)
      else Ok (result_dict, g)
  end.

Definition get_coordination_symmetry_measures (self : LocalGeometryFinder)
    (all_csms : bool) (g : rng) : result (gmap string ResultEntry * rng) :=
  for_each (match_geometry self all_csms)
    (get_implemented_geometries self (length (coords (local_geometry self))))
    (∅, g).

End Finder.

(** ** Kinds of floating-point numbers and of points *)

(** A binary64 number: a [spec_float] in canonical form. *)
Definition float64 (x : npfloat) : Prop := valid_binary 53 1024 x = true.

Definition is_zero (x : npfloat) : Prop := ∃ s, x = S754_zero s.

(** NaN, or a number whose sign bit is clear: [+0.0], a positive number or
    [+inf]. *)
Definition not_negative (x : npfloat) : Prop :=
  match x with
  | S754_nan => True
  | S754_zero s | S754_infinity s | S754_finite s _ _ => s = false
  end.

Definition zero_or_nan (x : npfloat) : Prop := is_zero x ∨ x = NaN.

(** The same number up to the sign of a zero ([-0.0 == 0.0]). *)
Definition same_number (a b : npfloat) : Prop := a = b ∨ (is_zero a ∧ is_zero b).

Definition same_point (a b : Point) : Prop :=
  same_number (px a) (px b) ∧ same_number (py a) (py b) ∧ same_number (pz a) (pz b).

(** A point whose coordinates are finite binary64 numbers. *)
Definition finite_number (x : npfloat) : Prop := float64 x ∧ is_finite x = true.

Definition finite_point (p : Point) : Prop :=
  finite_number (px p) ∧ finite_number (py p) ∧ finite_number (pz p).

(** A point at the origin: each coordinate is [0.0] or [-0.0]. *)
Definition at_origin (p : Point) : Prop :=
  is_zero (px p) ∧ is_zero (py p) ∧ is_zero (pz p).

(** A finite number that is not zero. *)
Definition finite_nonzero (x : npfloat) : Prop := ∃ s m e, x = S754_finite s m e.

(** The sum of the squared norms of the points, as [np.sum] and as a loop
    with [+=] compute it, is a finite number other than zero. *)
Definition nondegenerate (X : list Point) : Prop :=
  finite_nonzero (np_sum (norm2 <$> X)) ∧ finite_nonzero (running_sum (norm2 <$> X)).

(** A key whose lexicographic order is the order of the comparison. *)
Definition fkey (x : npfloat) : Z * Z * Z :=
  match x with
  | S754_nan => (0, 0, 0)
  | S754_infinity true => (-2, 0, 0)
  | S754_infinity false => (2, 0, 0)
  | S754_zero _ => (0, 0, 0)
  | S754_finite true m e => (-1, - e, - Zpos m)
  | S754_finite false m e => (1, e, Zpos m)
  end%Z.

Definition key_le (a b : Z * Z * Z) : Prop :=
  (a.1.1 < b.1.1 ∨ (a.1.1 = b.1.1 ∧ (a.1.2 < b.1.2 ∨ (a.1.2 = b.1.2 ∧ a.2 ≤ b.2))))%Z.

Definition point_is_finite (p : Point) : bool :=
  is_finite (px p) && is_finite (py p) && is_finite (pz p).

Definition matrix_is_finite (m : Matrix) : bool :=
  point_is_finite (row0 m) && point_is_finite (row1 m) && point_is_finite (row2 m).

(** A stand-in for [numpy.linalg.svd] in the examples: it raises
    [LinAlgError] on a matrix with a NaN or an infinite entry and returns
    [(I, 0, I)], the decomposition of the zero matrix, on every other
    input. *)
Definition zero_matrix_svd_of (H : Matrix) : result (Matrix * Point * Matrix) :=
  if matrix_is_finite H then Ok (eye, vzero, eye) else Raise LinAlgError.

Definition zero_matrix_svd : NumpyLinalg.
Proof.
  refine {| svd := zero_matrix_svd_of |}.
  intros H e. unfold zero_matrix_svd_of.
  destruct (matrix_is_finite H); [done|by intros [= <-]].
Defined.

(** The rotation step returns for the two point lists. *)
Definition rotation_found {linalg : NumpyLinalg} (points_distorted points_perfect : list Point)
    : Prop :=
  ∃ rot, find_rotation points_distorted points_perfect = Ok rot.

(** Components of the five lists. *)
Definition cgsm_csms (r : cgsm) : list npfloat := r.1.1.1.1.
Definition cgsm_permutations (r : cgsm) : list permutation_list := r.1.1.1.2.
Definition cgsm_algos (r : cgsm) : list string := r.1.1.2.
Definition cgsm_local2perfect_maps (r : cgsm) : list (gmap nat nat) := r.1.2.
Definition cgsm_perfect2local_maps (r : cgsm) : list (gmap nat nat) := r.2.

#[export] Instance Point_inhabited : Inhabited Point := populate vzero.

(** ** Concrete data for the examples *)

#[export] Instance npfloat_eq_dec : EqDecision npfloat.
Proof. solve_decision. Defined.
#[export] Instance Point_eq_dec : EqDecision Point.
Proof. solve_decision. Defined.

Definition f64_minus_one : npfloat := S754_finite true 4503599627370496 (-52).
(** The double [2.0 ** 700]; its square overflows. *)
Definition f64_two_to_700 : npfloat := S754_finite false 4503599627370496 648.
Definition e1 : Point := mkPoint f64_one f64_zero f64_zero.
Definition e2 : Point := mkPoint f64_zero f64_one f64_zero.
Definition me1 : Point := mkPoint f64_minus_one f64_zero f64_zero.

(** A stand-in for the plane geometry: two coinciding points are collinear
    with any third one, and every point lies on every plane. *)
Definition coincidence_utils : GeometryUtils := {|
  Plane := unit;
  collinear p0 p1 p2 _ := bool_decide (p0 = p1 ∨ p1 = p2 ∨ p0 = p2);
  Plane_from_3points _ _ _ := tt;
  Plane_from_npoints _ := tt;
  indices_separate _ coords _ := ([], seq 0 (length coords), []);
  project_and_to2dim_ordered_indices _ pts := seq 0 (length pts);
  sort_separation s := s;
  separation_in_list s l := bool_decide (s ∈ l)
|}.

(** A deterministic random source: the identity and the reversal in turn. *)
Definition alternate_permutation (n g : nat) : list nat * nat :=
  (if Nat.even g then seq 0 n else reverse (seq 0 n), S g).

Lemma alternate_permutation_perm (n g : nat) : (alternate_permutation n g).1 ≡ₚ seq 0 n.
Proof. simpl. destruct (Nat.even g); [done|apply reverse_Permutation]. Qed.

Definition alternating_random : NumpyRandom := {|
  rng := nat;
  random_permutation := alternate_permutation;
  random_permutation_perm := alternate_permutation_perm
|}.

Definition default_geometry : AbstractGeometry :=
  mkAbstractGeometry vzero [] [] vzero vzero [] [] [] [] [] [] standard false vzero [] vzero.

Definition geometry_or_default (r : result AbstractGeometry) : AbstractGeometry :=
  match r with
  | Ok g => g
  | Raise _ => default_geometry
  end.

(** Neighbours of a site at the origin, centred on the centroid that
    includes the central site. *)
Definition site_geometry (neighbours : list Point) : AbstractGeometry :=
  geometry_or_default
    (AbstractGeometry_init (Some vzero) neighbours centroid true).

Definition finder_of (lg : AbstractGeometry) (safe : bool) : LocalGeometryFinder := {|
  get_implemented_geometries := λ _, [];
  permutations_safe_override := safe;
  plane_ordering_override := true;
  plane_safe_permutations := false;
  self_centering_type := centroid;
  self_include_central_site_in_centroid := true;
  local_geometry := lg
|}.

(** A separation plane through both points of a two-point polyhedron. *)
Definition plane_through_two : SeparationPlane := {|
  minimum_number_of_points := 2;
  maximum_number_of_points := 4;
  plane_points := [0; 1];
  point_groups := ([], []);
  ordered_plane := false;
  ordered_point_groups := (false, false);
  sp_permutations := [[0; 1]];
  safe_separation_permutations := λ _ _, [[0; 1]];
  argsorted_ref_separation_perm := [0; 1]
|}.

(** A descriptor whose trial planes need at least three points. *)
Definition plane_through_three : SeparationPlane := {|
  minimum_number_of_points := 3;
  maximum_number_of_points := 4;
  plane_points := [0; 1];
  point_groups := ([], []);
  ordered_plane := false;
  ordered_point_groups := (false, false);
  sp_permutations := [[0; 1]];
  safe_separation_permutations := λ _ _, [[0; 1]];
  argsorted_ref_separation_perm := [0; 1]
|}.


Definition two_point_polyhedron (algos : list Algorithm) : CoordinationGeometry := {|
  mp_symbol := "L:2";
  coordination_number := 2;
  points := [e1; me1];
  get_central_site := Some vzero;
  algorithms := Some algos;
  equivalent_indices := Some [[0; 1]];
  ref_permutation := λ pp, pp
|}.




(** [result[np.argmin(result)]], the measure the matcher keeps. *)
Definition min_csm (l : list npfloat) : result npfloat :=
  imin ← np_argmin l; py_index l imin.

(** ** Predicates used in the statements about the matcher *)

(** The index maps returned with a list of permutations are the ones built
    from those permutations. *)
Definition maps_consistent (r : cgsm) : Prop :=
  let '(_, perms, _, l2ps, p2ls) := r in
  l2ps = local2perfect_of <$> perms ∧ p2ls = perfect2local_of <$> perms.



(** [csm] is the measure the code computes for the permutation [perm] of the
    local points against [points_perfect]. *)
Definition scored {linalg : NumpyLinalg} (self : LocalGeometryFinder)
    (points_perfect : list Point) (perm : permutation_list) (csm : npfloat) : Prop :=
  ∃ points_distorted,
    points_wocs_ctwocc (local_geometry self) (Some perm) = Ok points_distorted ∧
    symmetry_measure points_distorted points_perfect = Ok csm.

Definition entries_scored {linalg : NumpyLinalg} (self : LocalGeometryFinder)
    (points_perfect : list Point) (r : cgsm) : Prop :=
  Forall2 (scored self points_perfect) (cgsm_permutations r) (cgsm_csms r).

(** An algorithm the dispatcher does not recognize. *)
Definition unrecognized (algo : Algorithm) : Prop :=
  algorithm_type algo ≠ EXPLICIT_PERMUTATIONS ∧ algorithm_type algo ≠ SEPARATION_PLANE.





(** What the index maps need of the plane geometry and of the catalogue. *)




(** ** Further notions: view accessors, result shapes, site selection *)

(** The accessors of the views without the central site, each with the list
    it reads. *)
Definition neighbour_accessors
    : list ((AbstractGeometry → option (list nat) → result (list Point))
            * (AbstractGeometry → list Point)) :=
  [(points_wocs_csc, _points_wocs_csc); (points_wocs_ctwcc, _points_wocs_ctwcc);
   (points_wocs_ctwocc, _points_wocs_ctwocc)].

(** The accessors of the views with the central site, each with the accessor
    of the same view without it. *)
Definition central_site_accessors
    : list ((AbstractGeometry → option (list nat) → result (list Point))
            * (AbstractGeometry → option (list nat) → result (list Point))) :=
  [(points_wcs_csc, points_wocs_csc); (points_wcs_ctwcc, points_wocs_ctwcc);
   (points_wcs_ctwocc, points_wocs_ctwocc)].

(** The five lists of a result have one entry per permutation tried. *)
Definition well_shaped (r : cgsm) : Prop :=
  length (cgsm_permutations r) = length (cgsm_csms r) ∧
  length (cgsm_algos r) = length (cgsm_csms r) ∧
  length (cgsm_local2perfect_maps r) = length (cgsm_csms r) ∧
  length (cgsm_perfect2local_maps r) = length (cgsm_csms r).

(** The canonical forms, under the symmetry of the polyhedron, of the
    permutations of a result. *)
Definition canonical_forms (cg : CoordinationGeometry) (r : cgsm) : list (list nat) :=
  ref_permutation cg <$> cgsm_permutations r.

(** An entry of the result mapping is coherent with the matching that
    produced it: its maps are the index maps of its permutation, it belongs
    to one of the polyhedra tested, and its measure is the measure of the
    local points, taken in the order of its permutation, against the
    reference points of that polyhedron. *)
Definition entry_coherent {linalg : NumpyLinalg} (self : LocalGeometryFinder)
    (geometries : list CoordinationGeometry) (symbol : string) (e : ResultEntry) : Prop :=
  local2perfect_map e = local2perfect_of (indices e) ∧
  perfect2local_map e = perfect2local_of (indices e) ∧
  (∀ o, other_csms e = Some o → csm_wocs_ctwocc o = csm e) ∧
  ∃ geometry perfect_geometry,
    geometry ∈ geometries ∧ mp_symbol geometry = symbol ∧
    AbstractGeometry_init (get_central_site geometry) (points geometry)
      (self_centering_type self) (self_include_central_site_in_centroid self)
    = Ok perfect_geometry ∧
    scored self (_points_wocs_ctwocc perfect_geometry) (indices e) (csm e).

Section FinderAll.
Context {linalg : NumpyLinalg} {utils : GeometryUtils} {random : NumpyRandom}.

(** Body of the loop over the test geometries with [only_minimum=False]
    (lines 684-691 and 735-738): the five lists are stored as they are. *)
Definition match_geometry_all (self : LocalGeometryFinder)
    (st : gmap string cgsm * rng) (geometry : CoordinationGeometry)
    : result (gmap string cgsm * rng) :=
  let '(result_dict, g) := st in
  perfect_geometry ← AbstractGeometry_init (get_central_site geometry) (points geometry)
                        (self_centering_type self)
                        (self_include_central_site_in_centroid self);
  points_perfect ← points_wocs_ctwocc perfect_geometry None;
  '(cgsm, g) ← coordination_geometry_symmetry_measures self geometry None points_perfect g;
  match cgsm with
  | SafeTriple _ => Raise ValueError
  | FiveLists r => Ok (<[mp_symbol geometry := r]> result_dict, g)
  end.

(** [get_coordination_symmetry_measures(only_minimum=False)]. *)
Definition get_coordination_symmetry_measures_all (self : LocalGeometryFinder)
    (g : rng) : result (gmap string cgsm * rng) :=
  for_each (match_geometry_all self)
    (get_implemented_geometries self (length (coords (local_geometry self))))
    (∅, g).

End FinderAll.

(** ** Selection of the sites to match
    ([compute_structure_environments_detailed_voronoi], lines 462-481) *)

(** [self.valences]: the string ['undefined'] or one number per site. *)
Inductive Valences : Type :=
  | valences_undefined
  | valences_of (vals : list Qc).

(** [[x for x in l if cond(x)]] for a condition that can raise. *)
Fixpoint filter_comprehension {A} (cond : A → result bool) (l : list A) : result (list A) :=
  match l with
  | [] => Ok []
  | x :: l' =>
      b ← cond x;
      rest ← filter_comprehension cond l';
      Ok (if b : bool then x :: rest else rest)
  end.

(** [any([at in [sp.symbol for sp in self.structure[isite].species_and_occu]
          for at in atoms])]; [species_symbols] gives, for each site of the
    structure, the symbols of its species.  The site is looked up once per
    atom, hence not at all for an empty list of atoms. *)
Definition any_atom_at (species_symbols : list (list string)) (atoms : list string)
    (isite : nat) : result bool :=
  match atoms with
  | [] => Ok false
  | _ :: _ =>
      symbols ← py_index species_symbols isite;
      Ok (existsb (λ at' : string, bool_decide (at' ∈ symbols)) atoms)
  end.

(** Lines 462-481: [sites_indices] from [indices], [excluded_atoms] being the
    value the variable has at line 462. *)
Definition select_sites (indices : list nat) (valences : Valences)
    (species_symbols : list (list string)) (only_cations : bool)
    (only_atoms excluded_atoms : option (list string)) (only_indices : option (list nat))
    : result (list nat) :=
  sites_indices ←
    match only_cations, valences with
    | true, valences_of vals =>
        filter_comprehension
          (λ isite, v ← py_index vals isite; Ok (bool_decide (0 ≤ v)%Qc)) indices
    | _, _ => Ok indices
    end;
  sites_indices ←
    match only_atoms with
    | Some atoms => filter_comprehension (any_atom_at species_symbols atoms) sites_indices
    | None => Ok sites_indices
    end;
  sites_indices ←
    match excluded_atoms with
    | Some ((_ :: _) as atoms) =>
        filter_comprehension
          (λ isite, negb <$> any_atom_at species_symbols atoms isite) sites_indices
    | _ => Ok sites_indices
    end;
  match only_indices with
  | Some only => Ok (filter (λ isite, isite ∈ only) indices)
  | None => Ok sites_indices
  end.

(** The conditions a site passes to be selected. *)
Definition is_cation (valences : Valences) (isite : nat) : Prop :=
  ∀ vals, valences = valences_of vals → ∃ v, vals !! isite = Some v ∧ (0 ≤ v)%Qc.

Definition has_one_of (species_symbols : list (list string)) (atoms : list string)
    (isite : nat) : Prop :=
  ∃ symbols at', species_symbols !! isite = Some symbols ∧ at' ∈ atoms ∧ at' ∈ symbols.

(** ** The unequivalent sites of a symmetrized structure
    ([compute_structure_environments_detailed_voronoi], lines 413-439) *)

(** [l[i] = v] for a non-negative index. *)
Definition py_setitem {A} (l : list A) (i : nat) (v : A) : result (list A) :=
  if decide (i < length l) then Ok (<[i := v]> l) else Raise IndexError.

(** The variables of the loops of lines 417-434; the lists that are
    initialised with [-1] hold integers. *)
Record SitesMapState : Type := mkSitesMapState {
  indices_found : list nat;            (* [indices] *)
  ind_eqsites_found : list nat;
  struct_sites_to_irreducible_site_list_map : list Z;
  sites_map : list Z;
  eqsite_found : list Z;
  myieqsite : option Z                 (* unbound before its first assignment *)
}.

Section SitesMap.
Context {Site : Type} `{EqDecision Site}.

(** Body of the loop over [enumerate(equivalent_sites)] (lines 425-433). *)
Definition eqsites_body (isite : nat) (site : Site) (st : SitesMapState)
    (ieqsites : nat) (eqsites : list Site) : result SitesMapState :=
  if decide (site ∈ eqsites) then
    irreducible ← py_setitem (struct_sites_to_irreducible_site_list_map st) isite
                    (Z.of_nat ieqsites);
    if decide (ieqsites ∈ ind_eqsites_found st) then
      my ← py_index (eqsite_found st) ieqsites;
      Ok {| indices_found := indices_found st;
            ind_eqsites_found := ind_eqsites_found st;
            struct_sites_to_irreducible_site_list_map := irreducible;
            sites_map := sites_map st;
            eqsite_found := eqsite_found st;
            myieqsite := Some my |}
    else
      found ← py_setitem (eqsite_found st) ieqsites (Z.of_nat isite);
      Ok {| indices_found := indices_found st ++ [isite];
            ind_eqsites_found := ind_eqsites_found st ++ [ieqsites];
            struct_sites_to_irreducible_site_list_map := irreducible;
            sites_map := sites_map st;
            eqsite_found := found;
            myieqsite := Some (Z.of_nat isite) |}
  else Ok st.

(** Body of the loop over [enumerate(self.structure)] (lines 423-434). *)
Definition site_body (equivalent_sites : list (list Site)) (st : SitesMapState)
    (isite : nat) (site : Site) : result SitesMapState :=
  st ← for_enumerate (eqsites_body isite site) 0 equivalent_sites st;
  match myieqsite st with
  | None => Raise UnboundLocalError
  | Some my =>
      sm ← py_setitem (sites_map st) isite my;
      Ok {| indices_found := indices_found st;
            ind_eqsites_found := ind_eqsites_found st;
            struct_sites_to_irreducible_site_list_map :=
              struct_sites_to_irreducible_site_list_map st;
            sites_map := sm;
            eqsite_found := eqsite_found st;
            myieqsite := myieqsite st |}
  end.

(** Lines 414-439.  [symmetrized] says whether [structure_refinement] is
    'symmetrized'; [equivalent_sites] is
    [self.symmetrized_structure.equivalent_sites], read in that case only.
    The result is [(indices, self.equivalent_sites,
    self.struct_sites_to_irreducible_site_list_map, self.sites_map)]. *)
Definition unequivalent_sites (symmetrized : bool) (structure : list Site)
    (equivalent_sites : list (list Site))
    : result (list nat * list (list Site) * list Z * list Z) :=
  if symmetrized && bool_decide (0 < length equivalent_sites) then
    st ← for_enumerate (site_body equivalent_sites) 0 structure
           {| indices_found := [];
              ind_eqsites_found := [];
              struct_sites_to_irreducible_site_list_map :=
                replicate (length structure) (-1)%Z;
              sites_map := replicate (length structure) (-1)%Z;
              eqsite_found := replicate (length equivalent_sites) (-1)%Z;
              myieqsite := None |};
    Ok (indices_found st, equivalent_sites,
        struct_sites_to_irreducible_site_list_map st, sites_map st)
  else
    Ok (seq 0 (length structure), (λ site, [site]) <$> structure,
        Z.of_nat <$> seq 0 (length structure), Z.of_nat <$> seq 0 (length structure)).

(** The equivalence classes partition the sites of the structure: [class]
    names, for each site, the one list of [equivalent_sites] it is in. *)
Definition partitioned (structure : list Site) (equivalent_sites : list (list Site))
    (class : Site → nat) : Prop :=
  ∀ site, site ∈ structure →
    class site < length equivalent_sites ∧
    ∀ k eqsites, equivalent_sites !! k = Some eqsites → (site ∈ eqsites ↔ k = class site).

(** Site number [j] is the first site of the structure in the class [c]. *)
Definition first_of_class (structure : list Site) (class : Site → nat) (c j : nat) : Prop :=
  (∃ site, structure !! j = Some site ∧ class site = c) ∧
  ∀ j' site', j' < j → structure !! j' = Some site' → class site' ≠ c.

(** The state after the first [k] sites. *)
Definition sites_map_invariant (structure : list Site) (equivalent_sites : list (list Site))
    (class : Site → nat) (k : nat) (st : SitesMapState) : Prop :=
  length (struct_sites_to_irreducible_site_list_map st) = length structure ∧
  length (sites_map st) = length structure ∧
  length (eqsite_found st) = length equivalent_sites ∧
  (∀ c, c ∈ ind_eqsites_found st ↔
        ∃ j site, j < k ∧ structure !! j = Some site ∧ class site = c) ∧
  (∀ c, c ∈ ind_eqsites_found st →
        ∃ j, eqsite_found st !! c = Some (Z.of_nat j) ∧ j < k ∧
             first_of_class structure class c j) ∧
  (∀ i site, i < k → structure !! i = Some site →
     struct_sites_to_irreducible_site_list_map st !! i = Some (Z.of_nat (class site)) ∧
     ∃ j, sites_map st !! i = Some (Z.of_nat j) ∧ j ≤ i ∧
          first_of_class structure class (class site) j) ∧
  (∀ i, i ∈ indices_found st ↔
        i < k ∧ ∃ site, structure !! i = Some site ∧
                        first_of_class structure class (class site) i) ∧
  StronglySorted lt (indices_found st) ∧
  (0 < k → is_Some (myieqsite st)).

End SitesMap.

(** ** The index setups of the test helpers *)

(** [setup_ordered_indices_local_geometry]; the result is
    [(self.icentral_site, self.indices)]. *)
Definition setup_ordered_indices_local_geometry (coordination : nat) : nat * list nat :=
  (0, py_range 1 (coordination + 1)).

(** [setup_explicit_indices_local_geometry]. *)
Definition setup_explicit_indices_local_geometry (explicit_indices : list nat)
    : nat * list nat :=
  (0, (λ ii, ii + 1) <$> explicit_indices).

(** ** Further example data *)

(** A descriptor that asks for trial planes through a single point. *)
Definition plane_through_one : SeparationPlane := {|
  minimum_number_of_points := 1;
  maximum_number_of_points := 4;
  plane_points := [0; 1];
  point_groups := ([], []);
  ordered_plane := false;
  ordered_point_groups := (false, false);
  sp_permutations := [[0; 1]];
  safe_separation_permutations := λ _ _, [[0; 1]];
  argsorted_ref_separation_perm := [0; 1]
|}.

(** A polyhedron whose [algorithms] attribute is [None]. *)
Definition polyhedron_without_algorithms : CoordinationGeometry := {|
  mp_symbol := "L:2";
  coordination_number := 2;
  points := [e1; me1];
  get_central_site := Some vzero;
  algorithms := None;
  equivalent_indices := None;
  ref_permutation := λ pp, pp
|}.

(** A polyhedron with a single point. *)
Definition one_point_polyhedron : CoordinationGeometry := {|
  mp_symbol := "S:1";
  coordination_number := 1;
  points := [e1];
  get_central_site := Some vzero;
  algorithms := Some [];
  equivalent_indices := None;
  ref_permutation := λ pp, pp
|}.

(** A polyhedron with three points. *)
Definition three_point_polyhedron : CoordinationGeometry := {|
  mp_symbol := "TL:3";
  coordination_number := 3;
  points := [e1; me1; e2];
  get_central_site := Some vzero;
  algorithms := Some [];
  equivalent_indices := None;
  ref_permutation := λ pp, pp
|}.

(** The two orders of two points, as an explicit-permutations algorithm. *)
Definition both_orders : Algorithm :=
  ExplicitPermutationsAlgorithm [[0; 1]; [1; 0]] "explicit".

(** The identity order alone. *)
Definition identity_order : Algorithm :=
  ExplicitPermutationsAlgorithm [[0; 1]] "explicit".

(** A finder without the exhaustive override whose catalogue holds the given
    polyhedra. *)
Definition finder_with (lg : AbstractGeometry) (geometries : list CoordinationGeometry)
    : LocalGeometryFinder := {|
  get_implemented_geometries := λ _, geometries;
  permutations_safe_override := false;
  plane_ordering_override := true;
  plane_safe_permutations := false;
  self_centering_type := centroid;
  self_include_central_site_in_centroid := true;
  local_geometry := lg
|}.

(** Three sites, the first and the last equivalent. *)
Definition three_sites : list nat := [10; 20; 30].
Definition two_classes : list (list nat) := [[10; 30]; [20]].
Definition class_of_site (site : nat) : nat := if decide (site = 20) then 1 else 0.

(** * Properties of the alignment code *)

Lemma py_index_middle {A} (l1 l2 : list A) (x : A) :
  py_index (l1 ++ x :: l2) (length l1) = Ok x.
Proof. unfold py_index. by rewrite list_lookup_middle. Qed.

Lemma py_index_drop {A} (l : list A) (k : nat) (x : A) (l' : list A) :
  drop k l = x :: l' → py_index l k = Ok x ∧ drop (S k) l = l'.
Proof.
  intros Hd. unfold py_index.
  assert (Hx : l !! k = Some x).
  { rewrite <- (Nat.add_0_r k), <- lookup_drop, Hd. reflexivity. }
  rewrite Hx. split; [done|].
  apply drop_S in Hx. rewrite Hd in Hx. by inversion Hx.
Qed.

(** ** Signs *)

Lemma binary_round_aux_sign (s : bool) (m e : Z) (l : location) :
  match binary_round_aux 53 1024 s m e l with
  | S754_nan => True
  | S754_zero s' | S754_infinity s' | S754_finite s' _ _ => s' = s
  end.
Proof.
  unfold binary_round_aux.
  destruct (shr_fexp 53 1024 m e l) as [mrs e1].
  destruct (shr_fexp 53 1024 _ e1 loc_Exact) as [mrs2 e2].
  destruct (shr_m mrs2); [done| |done]. by destruct (Z.leb _ _).
Qed.

Lemma binary_round_sign (s : bool) (m : positive) (e : Z) :
  match binary_round 53 1024 s m e with
  | S754_nan => True
  | S754_zero s' | S754_infinity s' | S754_finite s' _ _ => s' = s
  end.
Proof.
  unfold binary_round. destruct (shl_align _ _ _) as [mz ez]. apply binary_round_aux_sign.
Qed.

Lemma not_negative_fmul_self (x : npfloat) : not_negative (fmul x x).
Proof.
  destruct x as [[]|[]| |s m e]; simpl; try done.
  pose proof (binary_round_aux_sign (xorb s s) (Zpos (m * m)) (e + e) loc_Exact) as H.
  rewrite xorb_nilpotent in H. unfold fmul, SFmul. by rewrite xorb_nilpotent.
Qed.

Lemma not_negative_fmul (x y : npfloat) :
  not_negative x → not_negative y → not_negative (fmul x y).
Proof.
  destruct x as [s|s| |s m e], y as [t|t| |t n f]; simpl; try done; try (by intros -> ->).
  intros -> ->.
  apply (binary_round_aux_sign false (Zpos (m * n)) (e + f) loc_Exact).
Qed.

Lemma not_negative_fadd (x y : npfloat) :
  not_negative x → not_negative y → not_negative (fadd x y).
Proof.
  destruct x as [s|s| |s m e], y as [t|t| |t n f]; simpl; try done; try (by intros -> ->).
  intros -> ->. unfold fadd, SFadd, binary_normalize. simpl.
  apply binary_round_sign.
Qed.

Lemma not_negative_fdiv (x y : npfloat) :
  not_negative x → not_negative y → not_negative (fdiv x y).
Proof.
  destruct x as [s|s| |s m e], y as [t|t| |t n f]; simpl; try done; try (by intros -> ->).
  intros -> ->. unfold fdiv, SFdiv.
  destruct (SFdiv_core_binary _ _ _ _ _ _) as [[mz ez] lz].
  apply binary_round_aux_sign.
Qed.

Lemma not_negative_fleb (x : npfloat) :
  not_negative x → x = NaN ∨ fleb f64_zero x = true.
Proof. destruct x as [s|s| |s m e]; simpl; try (by left); intros ->; by right. Qed.

Lemma not_negative_fold (l : list npfloat) (a : npfloat) :
  not_negative a → Forall not_negative l → not_negative (fold_left fadd l a).
Proof.
  intros Ha Hl. revert a Ha. induction Hl as [|x l Hx Hl IH]; intros a Ha; simpl; [done|].
  by apply IH, not_negative_fadd.
Qed.

(** ** Rounding never makes a NaN of a number *)

Lemma shr_1_nonneg (mrs : shr_record) : (0 ≤ shr_m mrs)%Z → (0 ≤ shr_m (shr_1 mrs))%Z.
Proof. destruct mrs as [[|[p|p|]|p] r s]; simpl; lia. Qed.

Lemma iter_pos_shr_1_nonneg (n : positive) (mrs : shr_record) :
  (0 ≤ shr_m mrs)%Z → (0 ≤ shr_m (SpecFloat.iter_pos shr_1 n mrs))%Z.
Proof.
  revert mrs. induction n as [n IH|n IH|]; intros mrs Hm; simpl.
  - by apply IH, IH, shr_1_nonneg.
  - by apply IH, IH.
  - by apply shr_1_nonneg.
Qed.

Lemma shr_fexp_nonneg (m e : Z) (l : location) :
  (0 ≤ m)%Z → (0 ≤ shr_m (shr_fexp 53 1024 m e l).1)%Z.
Proof.
  intros Hm. unfold shr_fexp, shr.
  assert (H0 : (0 ≤ shr_m (shr_record_of_loc m l))%Z) by (by destruct l as [|[]]).
  destruct (fexp 53 1024 (Zdigits2 m + e) - e)%Z; simpl; try done.
  by apply iter_pos_shr_1_nonneg.
Qed.

Lemma round_nearest_even_nonneg (m : Z) (l : location) :
  (0 ≤ m)%Z → (0 ≤ round_nearest_even m l)%Z.
Proof. destruct l as [|[]]; simpl; try done; [destruct (Z.even m)|]; lia. Qed.

Lemma binary_round_aux_not_nan (s : bool) (m e : Z) (l : location) :
  (0 ≤ m)%Z → binary_round_aux 53 1024 s m e l ≠ NaN.
Proof.
  intros Hm. unfold binary_round_aux.
  pose proof (shr_fexp_nonneg m e l Hm) as H1.
  destruct (shr_fexp 53 1024 m e l) as [mrs e1]. simpl in H1.
  pose proof (shr_fexp_nonneg _ e1 loc_Exact
                (round_nearest_even_nonneg _ (loc_of_shr_record mrs) H1)) as H2.
  destruct (shr_fexp 53 1024 _ e1 loc_Exact) as [mrs2 e2]. simpl in H2.
  destruct (shr_m mrs2); [done| |lia]. by destruct (Z.leb _ _).
Qed.

Lemma binary_round_not_nan (s : bool) (m : positive) (e : Z) :
  binary_round 53 1024 s m e ≠ NaN.
Proof.
  unfold binary_round. destruct (shl_align _ _ _) as [mz ez].
  by apply binary_round_aux_not_nan.
Qed.

(** ** Propagation of NaN and of zero *)

Lemma fadd_nan_r (x : npfloat) : fadd x NaN = NaN.
Proof. by destruct x. Qed.

Lemma fsub_nan_r (x : npfloat) : fsub x NaN = NaN.
Proof. by destruct x. Qed.

Lemma fmul_nan_l (y : npfloat) : fmul NaN y = NaN.
Proof. done. Qed.

Lemma fadd_nan_l (y : npfloat) : fadd NaN y = NaN.
Proof. done. Qed.

Lemma fmul_nan_r (x : npfloat) : fmul x NaN = NaN.
Proof. by destruct x. Qed.

Lemma fold_fadd_nan (l : list npfloat) : fold_left fadd l NaN = NaN.
Proof. induction l as [|x l IH]; simpl; [done|by rewrite IH]. Qed.

Lemma fmul_comm (x y : npfloat) : fmul x y = fmul y x.
Proof.
  destruct x as [s|s| |s m e], y as [t|t| |t n f]; simpl; try done;
    try (by rewrite xorb_comm).
  unfold fmul, SFmul. by rewrite xorb_comm, Pos.mul_comm, Z.add_comm.
Qed.

Lemma zero_or_nan_fmul_l (x y : npfloat) : zero_or_nan x → zero_or_nan (fmul x y).
Proof.
  intros [[s ->]| ->]; [|by right].
  destruct y as [t|t| |t n f]; simpl; [left; by eexists|by right|by right|left; by eexists].
Qed.

Lemma zero_or_nan_fmul_r (x y : npfloat) : zero_or_nan y → zero_or_nan (fmul x y).
Proof. rewrite fmul_comm. apply zero_or_nan_fmul_l. Qed.

Lemma zero_or_nan_fadd (x y : npfloat) :
  zero_or_nan x → zero_or_nan y → zero_or_nan (fadd x y).
Proof.
  intros [[s ->]| ->] [[t ->]| ->]; try by right.
  left. destruct s, t; by eexists.
Qed.

Lemma zero_or_nan_fsub (x y : npfloat) :
  zero_or_nan x → zero_or_nan y → zero_or_nan (fsub x y).
Proof.
  intros [[s ->]| ->] [[t ->]| ->]; try by right.
  left. destruct s, t; by eexists.
Qed.

Lemma zero_or_nan_fdiv_l (x y : npfloat) : zero_or_nan x → zero_or_nan (fdiv x y).
Proof.
  intros [[s ->]| ->]; [|by right].
  destruct y as [t|t| |t n f]; simpl; [by right|left; by eexists|by right|left; by eexists].
Qed.

Lemma fdiv_zero_or_nan (x y : npfloat) :
  zero_or_nan x → zero_or_nan y → fdiv x y = NaN.
Proof. by intros [[s ->]| ->] [[t ->]| ->]. Qed.

Lemma zero_or_nan_fold (l : list npfloat) (a : npfloat) :
  zero_or_nan a → Forall zero_or_nan l → zero_or_nan (fold_left fadd l a).
Proof.
  intros Ha Hl. revert a Ha. induction Hl as [|x l Hx Hl IH]; intros a Ha; simpl; [done|].
  by apply IH, zero_or_nan_fadd.
Qed.

(** ** Sums *)

Lemma sums_to_closed (P : npfloat → Prop) (l : list npfloat) (a : npfloat) :
  P f64_zero → (∀ x y, P x → P y → P (fadd x y)) → Forall P l → sums_to l a → P a.
Proof.
  intros H0 Hadd Hl Hs. induction Hs as [|x|l1 l2 a b _ IH1 _ IH2|l l' a Hp _ IH].
  - done.
  - by inversion Hl.
  - apply Forall_app in Hl as [? ?]. auto.
  - apply IH. by rewrite Hp.
Qed.

Lemma sums_to_nan (l : list npfloat) (a : npfloat) : sums_to l a → NaN ∈ l → a = NaN.
Proof.
  induction 1 as [|x|l1 l2 a b _ IH1 _ IH2|l l' a Hp _ IH]; intros Hin.
  - by apply elem_of_nil in Hin.
  - by apply list_elem_of_singleton in Hin.
  - apply elem_of_app in Hin as [Hin|Hin].
    + by rewrite IH1.
    + rewrite IH2 by done. apply fadd_nan_r.
  - apply IH. by rewrite Hp.
Qed.

Lemma sums_to_fold (rest l : list npfloat) (a : npfloat) :
  sums_to l a → sums_to (l ++ rest) (fold_left fadd rest a).
Proof.
  revert l a. induction rest as [|x rest IH]; intros l a Hs; simpl.
  - by rewrite app_nil_r.
  - rewrite cons_middle, app_assoc. apply IH. apply sums_to_fadd; [done|constructor].
Qed.

Lemma running_sum_sums_to (l : list npfloat) : sums_to l (running_sum l).
Proof. apply (sums_to_fold l [] f64_zero). constructor. Qed.

Lemma strided_step_sums_to (cols : list (list npfloat)) (r chunk : list npfloat) :
  Forall2 sums_to cols r → length chunk = length r →
  Forall2 sums_to (zip_with (λ c x, c ++ [x]) cols chunk) (zip_with fadd r chunk) ∧
  concat (zip_with (λ c x, c ++ [x]) cols chunk) ≡ₚ concat cols ++ chunk.
Proof.
  intros Hc. revert chunk.
  induction Hc as [|c a cols r Hca _ IH]; intros [|x chunk] Hl; simpl in *; try lia.
  - split; [constructor|done].
  - destruct (IH chunk) as [IH1 IH2]; [lia|]. split.
    + constructor; [|done]. apply sums_to_fadd; [done|constructor].
    + rewrite IH2, <- !app_assoc. f_equiv. simpl.
      rewrite (Permutation_middle (concat cols) chunk x). done.
Qed.

Lemma take_add_drop {A} (n m : nat) (l : list A) :
  take (n + m) l = take n l ++ take m (drop n l).
Proof.
  revert l. induction n as [|n IH]; intros [|x l]; simpl; try done.
  - by rewrite take_nil.
  - by rewrite IH.
Qed.

Lemma strided_sums_sums_to (blocks : nat) (r rest : list npfloat)
    (cols : list (list npfloat)) :
  Forall2 sums_to cols r → length r = 8 → 8 * blocks ≤ length rest →
  ∃ cols', Forall2 sums_to cols' (strided_sums r rest blocks) ∧
           length (strided_sums r rest blocks) = 8 ∧
           concat cols' ≡ₚ concat cols ++ take (8 * blocks) rest.
Proof.
  revert r rest cols. induction blocks as [|blocks IH]; intros r rest cols Hc Hr Hl.
  - exists cols. split; [done|]. split; [done|]. by rewrite take_0, app_nil_r.
  - cbn [strided_sums].
    destruct (strided_step_sums_to cols r (take 8 rest) Hc) as [H1 H2].
    { rewrite length_take. lia. }
    destruct (IH _ (drop 8 rest) _ H1) as (cols' & H3 & H5 & H4).
    { rewrite length_zip_with, length_take. lia. }
    { rewrite length_drop. lia. }
    exists cols'. split; [done|]. split; [done|].
    rewrite H4, H2, <- app_assoc.
    replace (8 * S blocks) with (8 + 8 * blocks) by lia.
    by rewrite take_add_drop.
Qed.

Lemma combine8_sums_to (cols : list (list npfloat)) (r : list npfloat) :
  Forall2 sums_to cols r → length r = 8 → sums_to (concat cols) (combine8 r).
Proof.
  intros Hc Hr.
  do 8 (destruct Hc as [|? ? ? ? ? Hc]; [simpl in Hr; lia|]).
  destruct Hc; [|simpl in Hr; lia].
  unfold combine8. cbn [nth concat].
  eapply sums_to_perm; [|repeat apply sums_to_fadd; eassumption].
  by rewrite app_nil_r, <- !app_assoc.
Qed.

Lemma concat_singletons {A} (k : list A) : concat ((λ x, [x]) <$> k) = k.
Proof. induction k as [|x k IH]; [done|]. rewrite fmap_cons. cbn [concat app]. by rewrite IH. Qed.

Lemma block_sum_sums_to (l : list npfloat) : 8 ≤ length l → sums_to l (block_sum l).
Proof.
  intros Hl. unfold block_sum. set (n := length l).
  pose proof (Nat.div_mod_eq n 8) as Hn.
  assert (1 ≤ n / 8) by (apply Nat.div_le_lower_bound; lia).
  destruct (strided_sums_sums_to (n / 8 - 1) (take 8 l) (drop 8 l)
              ((λ x, [x]) <$> take 8 l)) as (cols & Hc & Hlen & Hp).
  { apply Forall2_fmap_l, Forall_Forall2_diag, list.Forall_forall. intros x _. constructor. }
  { rewrite length_take. lia. }
  { rewrite length_drop. fold n. lia. }
  eapply sums_to_perm; [|apply sums_to_fold, (combine8_sums_to cols); done].
  rewrite Hp, concat_singletons, <- take_add_drop.
  replace (8 + 8 * (n / 8 - 1)) with (n - n mod 8) by lia.
  by rewrite take_drop.
Qed.

Lemma pairwise_sum_sums_to (fuel : nat) (l : list npfloat) :
  sums_to l (pairwise_sum fuel l).
Proof.
  revert l. induction fuel as [|fuel IH]; intros l; cbn [pairwise_sum].
  - apply running_sum_sums_to.
  - destruct (decide (length l < 8)); [apply running_sum_sums_to|].
    destruct (decide (length l ≤ 128)); [apply block_sum_sums_to; lia|].
    set (n2 := length l / 2 - (length l / 2) mod 8).
    rewrite <- (take_drop n2 l) at 1. by apply sums_to_fadd.
Qed.

Lemma np_sum_sums_to (l : list npfloat) : sums_to l (np_sum l).
Proof.
  unfold np_sum. apply (sums_to_fadd [] l); [constructor|apply pairwise_sum_sums_to].
Qed.

(** Every entry takes part in a sum: one NaN makes the sum NaN. *)
Lemma np_sum_nan (l : list npfloat) : NaN ∈ l → np_sum l = NaN.
Proof. apply sums_to_nan, np_sum_sums_to. Qed.

Lemma running_sum_nan (l : list npfloat) : NaN ∈ l → running_sum l = NaN.
Proof. apply sums_to_nan, running_sum_sums_to. Qed.

Lemma not_negative_np_sum (l : list npfloat) :
  Forall not_negative l → not_negative (np_sum l).
Proof.
  intros Hl. eapply (sums_to_closed not_negative); [done| |done|apply np_sum_sums_to].
  apply not_negative_fadd.
Qed.

Lemma zero_or_nan_np_sum (l : list npfloat) :
  Forall zero_or_nan l → zero_or_nan (np_sum l).
Proof.
  intros Hl. eapply (sums_to_closed zero_or_nan); [|  |done|apply np_sum_sums_to].
  - left. by eexists.
  - apply zero_or_nan_fadd.
Qed.

Lemma not_negative_running_sum (l : list npfloat) :
  Forall not_negative l → not_negative (running_sum l).
Proof. by apply not_negative_fold. Qed.

Lemma zero_or_nan_running_sum (l : list npfloat) :
  Forall zero_or_nan l → zero_or_nan (running_sum l).
Proof. apply zero_or_nan_fold. left. by eexists. Qed.

Lemma not_negative_norm2 (p : Point) : not_negative (norm2 p).
Proof.
  unfold norm2, vdot, vsum, vmul. apply not_negative_np_sum.
  repeat (apply Forall_cons_2 || apply Forall_nil_2); apply not_negative_fmul_self.
Qed.

Lemma zero_or_nan_vdot_l (a b : Point) :
  zero_or_nan (px a) → zero_or_nan (py a) → zero_or_nan (pz a) →
  zero_or_nan (vdot a b).
Proof.
  intros Hx Hy Hz. unfold vdot, vsum, vmul. apply zero_or_nan_np_sum.
  repeat (apply Forall_cons_2 || apply Forall_nil_2); by apply zero_or_nan_fmul_l.
Qed.

Lemma zero_or_nan_vdot_r (a b : Point) :
  zero_or_nan (px b) → zero_or_nan (py b) → zero_or_nan (pz b) →
  zero_or_nan (vdot a b).
Proof.
  intros Hx Hy Hz. unfold vdot, vsum, vmul. apply zero_or_nan_np_sum.
  repeat (apply Forall_cons_2 || apply Forall_nil_2); by apply zero_or_nan_fmul_r.
Qed.

Lemma zero_or_nan_zip_with (f : Point → Point → npfloat) (l1 l2 : list Point) :
  (∀ a b, a ∈ l1 → b ∈ l2 → zero_or_nan (f a b)) →
  Forall zero_or_nan (zip_with f l1 l2).
Proof.
  intros Hf. apply list.Forall_forall. intros x Hx.
  apply elem_of_lookup_zip_with in Hx as (i & a & b & -> & Ha & Hb).
  apply Hf; by eapply list_elem_of_lookup_2.
Qed.

Lemma at_origin_zero_or_nan (p : Point) :
  at_origin p → zero_or_nan (px p) ∧ zero_or_nan (py p) ∧ zero_or_nan (pz p).
Proof. intros (? & ? & ?). repeat split; by left. Qed.

(** ** The order of the numbers that are not NaN *)

Lemma fleb_refl (x : npfloat) : x ≠ NaN → fleb x x = true.
Proof.
  unfold fleb, SFleb.
  destruct x as [[]|[]| |[] m e]; simpl; try done; intros _;
    rewrite Z.compare_refl; change (Pos.compare_cont Eq m m) with (Pos.compare m m);
    by rewrite Pos.compare_refl.
Qed.

Lemma fleb_key (x y : npfloat) :
  x ≠ NaN → y ≠ NaN → fleb x y = true ↔ key_le (fkey x) (fkey y).
Proof.
  unfold fleb, SFleb, key_le.
  destruct x as [[]|[]| |[] m e], y as [[]|[]| |[] n f]; simpl; try done; intros _ _;
    try (split; [intros _; lia|done]); try (split; [done|lia]);
    change (Pos.compare_cont Eq ?a ?b) with (Pos.compare a b);
    destruct (Z.compare_spec e f); destruct (Pos.compare_spec m n); simpl;
    split; try done; try lia.
Qed.

Lemma fleb_not_nan (x y : npfloat) : fleb x y = true → x ≠ NaN ∧ y ≠ NaN.
Proof. destruct x, y; simpl; try done. Qed.

Lemma fleb_trans (x y z : npfloat) : fleb x y = true → fleb y z = true → fleb x z = true.
Proof.
  intros Hxy Hyz.
  destruct (fleb_not_nan _ _ Hxy) as [Hx Hy]. destruct (fleb_not_nan _ _ Hyz) as [_ Hz].
  rewrite fleb_key in Hxy, Hyz |- * by done. unfold key_le in *. lia.
Qed.

Lemma fleb_total (x y : npfloat) :
  x ≠ NaN → y ≠ NaN → fleb x y = false → fleb y x = true.
Proof.
  intros Hx Hy Hf. apply fleb_key; [done..|].
  assert (Hn : ¬ key_le (fkey x) (fkey y)).
  { intros Hk. apply fleb_key in Hk; [|done..]. congruence. }
  unfold key_le in *. lia.
Qed.

(** ** Operations that are exact *)

Lemma fsub_self (s : bool) (m : positive) (e : Z) :
  fsub (S754_finite s m e) (S754_finite s m e) = S754_zero false.
Proof. unfold fsub, SFsub. by rewrite Z.sub_diag. Qed.

Lemma fdiv_self (s : bool) (m : positive) (e : Z) :
  fdiv (S754_finite s m e) (S754_finite s m e) = f64_one.
Proof.
  unfold fdiv, SFdiv, SFdiv_core_binary. rewrite xorb_nilpotent.
  rewrite !Z.sub_diag.
  change (Z.min (fexp 53 1024 0) 0) with (-53)%Z.
  change (0 - -53)%Z with 53%Z. cbv beta iota zeta.
  assert (Hd : Z.div_eucl (Z.shiftl (Z.pos m) 53) (Z.pos m) = (2 ^ 53, 0)%Z).
  { rewrite Z.shiftl_mul_pow2 by lia.
    pose proof (Z.div_eucl_eq (Z.pos m * 2 ^ 53) (Z.pos m)) as Heq.
    pose proof (Z.mod_pos_bound (Z.pos m * 2 ^ 53) (Z.pos m)) as Hb.
    unfold Z.modulo in Hb.
    destruct (Z.div_eucl _ _) as [q r]. simpl in Hb.
    specialize (Heq ltac:(lia)). specialize (Hb ltac:(lia)).
    assert (q = 2 ^ 53)%Z by nia. assert (r = 0)%Z by nia. by subst. }
  rewrite Hd.
  assert (Hl : new_location (Z.pos m) 0 = loc_Exact).
  { unfold new_location. by destruct (Z.even _). }
  rewrite Hl. reflexivity.
Qed.

(** [1.0 * x] is [x]. *)
Lemma fmul_one_l (x : npfloat) : float64 x → fmul f64_one x = x.
Proof.
  destruct x as [s|s| |s m e]; try done. unfold float64, valid_binary, bounded.
  intros [Hcan Hb]%andb_prop. unfold canonical_mantissa in Hcan.
  apply Z.eqb_eq in Hcan.
  unfold fmul, SFmul, f64_one. rewrite xorb_false_l.
  lazy [Pos.mul]. unfold binary_round_aux, shr_fexp. cbn [Zdigits2 digits2_pos].
  match goal with
  | |- context [fexp 53 1024 (?a + (-52 + e))%Z] =>
      replace (a + (-52 + e))%Z with (Z.pos (digits2_pos m) + e)%Z
        by (rewrite !Pos2Z.inj_succ; lia)
  end.
  rewrite Hcan. replace (e - (-52 + e))%Z with 52%Z by lia.
  cbn [shr shr_record_of_loc].
  match goal with
  | |- context [SpecFloat.iter_pos shr_1 52 ?r] =>
      replace (SpecFloat.iter_pos shr_1 52 r)
        with {| shr_m := Z.pos m; shr_r := false; shr_s := false |} by reflexivity
  end.
  cbn [shr_m loc_of_shr_record round_nearest_even Zdigits2].
  replace (-52 + e + 52)%Z with e by lia. rewrite Hcan, Z.sub_diag.
  cbn [shr shr_m]. by rewrite Hb.
Qed.

(** ** Numbers that differ by the sign of a zero at most *)

Lemma same_number_refl (a : npfloat) : same_number a a.
Proof. by left. Qed.

Lemma same_number_finite_nonzero (a b : npfloat) :
  same_number a b → finite_nonzero b → a = b.
Proof. intros [->|[_ [s ->]]] (t & m & e & Hb); done. Qed.

Lemma same_number_fadd (a a' b b' : npfloat) :
  same_number a a' → same_number b b' → same_number (fadd a b) (fadd a' b').
Proof.
  intros [->|[[s ->] [s' ->]]] [->|[[t ->] [t' ->]]]; [by left| | |].
  - destruct a' as [[]|[]| |[] m e], t, t'; simpl; try (by left);
      right; split; by eexists.
  - destruct b' as [[]|[]| |[] m e], s, s'; simpl; try (by left);
      right; split; by eexists.
  - destruct s, s', t, t'; simpl; right; split; by eexists.
Qed.

Lemma same_number_fmul (a a' b b' : npfloat) :
  same_number a a' → same_number b b' → same_number (fmul a b) (fmul a' b').
Proof.
  intros [->|[[s ->] [s' ->]]] [->|[[t ->] [t' ->]]]; [by left| | |].
  - destruct a' as [[]|[]| |[] m e]; simpl; try (by left); right; split; by eexists.
  - destruct b' as [[]|[]| |[] m e]; simpl; try (by left); right; split; by eexists.
  - simpl. right; split; by eexists.
Qed.

Lemma same_number_fold (l l' : list npfloat) (a a' : npfloat) :
  same_number a a' → Forall2 same_number l l' →
  same_number (fold_left fadd l a) (fold_left fadd l' a').
Proof.
  intros Ha Hl. revert a a' Ha.
  induction Hl as [|x x' l l' Hx Hl IH]; intros a a' Ha; simpl; [done|].
  by apply IH, same_number_fadd.
Qed.

Lemma same_number_running_sum (l l' : list npfloat) :
  Forall2 same_number l l' → same_number (running_sum l) (running_sum l').
Proof. apply same_number_fold, same_number_refl. Qed.

Lemma same_number_zip_fadd (r r' c c' : list npfloat) :
  Forall2 same_number r r' → Forall2 same_number c c' →
  Forall2 same_number (zip_with fadd r c) (zip_with fadd r' c').
Proof.
  intros Hr. revert c c'. induction Hr as [|x x' r r' Hx _ IH]; intros c c' Hc; [constructor|].
  destruct Hc as [|y y' c c' Hy Hc]; simpl; [constructor|].
  constructor; [by apply same_number_fadd|by apply IH].
Qed.

Lemma same_number_strided_sums (blocks : nat) (r r' l l' : list npfloat) :
  Forall2 same_number r r' → Forall2 same_number l l' →
  Forall2 same_number (strided_sums r l blocks) (strided_sums r' l' blocks).
Proof.
  revert r r' l l'. induction blocks as [|blocks IH]; intros r r' l l' Hr Hl; simpl; [done|].
  apply IH; [|by apply Forall2_drop].
  apply same_number_zip_fadd; [done|by apply Forall2_take].
Qed.

Lemma same_number_nth (j : nat) (r r' : list npfloat) :
  Forall2 same_number r r' → same_number (nth j r f64_zero) (nth j r' f64_zero).
Proof.
  intros Hr. revert j. induction Hr as [|x x' r r' Hx _ IH]; intros [|j]; simpl;
    try done; by left.
Qed.

Lemma same_number_block_sum (l l' : list npfloat) :
  Forall2 same_number l l' → same_number (block_sum l) (block_sum l').
Proof.
  intros Hl. unfold block_sum. rewrite <- (Forall2_length Hl).
  apply same_number_fold; [|by apply Forall2_drop].
  assert (Hr : Forall2 same_number
                 (strided_sums (take 8 l) (drop 8 l) (length l / 8 - 1))
                 (strided_sums (take 8 l') (drop 8 l') (length l / 8 - 1))).
  { apply same_number_strided_sums; [by apply Forall2_take|by apply Forall2_drop]. }
  unfold combine8. auto 10 using same_number_fadd, same_number_nth.
Qed.

Lemma same_number_pairwise_sum (fuel : nat) (l l' : list npfloat) :
  Forall2 same_number l l' →
  same_number (pairwise_sum fuel l) (pairwise_sum fuel l').
Proof.
  revert l l'. induction fuel as [|fuel IH]; intros l l' Hl; cbn [pairwise_sum].
  - by apply same_number_running_sum.
  - rewrite <- (Forall2_length Hl).
    destruct (decide (length l < 8)); [by apply same_number_running_sum|].
    destruct (decide (length l ≤ 128)); [by apply same_number_block_sum|].
    apply same_number_fadd; apply IH; [by apply Forall2_take|by apply Forall2_drop].
Qed.

Lemma same_number_np_sum (l l' : list npfloat) :
  Forall2 same_number l l' → same_number (np_sum l) (np_sum l').
Proof.
  intros Hl. unfold np_sum. rewrite <- (Forall2_length Hl).
  apply same_number_fadd; [by left|by apply same_number_pairwise_sum].
Qed.

Lemma same_number_vdot (a a' b b' : Point) :
  same_point a a' → same_point b b' → same_number (vdot a b) (vdot a' b').
Proof.
  intros (? & ? & ?) (? & ? & ?). unfold vdot, vsum, vmul. apply same_number_np_sum.
  repeat (apply Forall2_cons_2 || apply Forall2_nil_2); by apply same_number_fmul.
Qed.

(** [b - a] is a zero when [a] is the finite number [b]. *)
Lemma fsub_same_number (a b : npfloat) :
  same_number a b → is_finite b = true → is_zero (fsub b a).
Proof.
  intros [->|[[s ->] [t ->]]] Hb.
  - destruct b as [[]|[]| |s m e]; try done; try (by eexists).
    rewrite fsub_self. by eexists.
  - destruct s, t; by eexists.
Qed.

Lemma fmul_zeros (a b : npfloat) : is_zero a → is_zero b → fmul a b = f64_zero ∨ fmul a b = S754_zero true.
Proof. intros [s ->] [t ->]. destruct s, t; simpl; auto. Qed.

Lemma fmul_zero_self (a : npfloat) : is_zero a → fmul a a = f64_zero.
Proof. intros [[] ->]; done. Qed.

(** ** [numpy.isclose] of a finite number and itself *)

Lemma np_isclose_self (x : npfloat) : is_finite x = true → np_isclose x x = true.
Proof.
  intros Hx. unfold np_isclose. rewrite Hx. cbn [andb].
  destruct x as [s| | |s m e]; try done.
  - by destruct s.
  - rewrite fsub_self.
    change (fabs (S754_zero false)) with f64_zero.
    change (fabs (S754_finite s m e)) with (S754_finite false m e).
    assert (Hr : fmul rtol (S754_finite false m e) ≠ NaN ∧
                 not_negative (fmul rtol (S754_finite false m e))).
    { split; [|by apply not_negative_fmul].
      unfold fmul, SFmul, rtol. by apply binary_round_aux_not_nan. }
    destruct Hr as [Hn Hs].
    destruct (fmul rtol (S754_finite false m e)) as [t|t| |t n f]; simpl in Hs; subst.
    + reflexivity.
    + reflexivity.
    + done.
    + assert (Ha : fadd atol (S754_finite false n f) ≠ NaN ∧
                   not_negative (fadd atol (S754_finite false n f))).
      { split; [|by apply not_negative_fadd].
        unfold fadd, SFadd, atol, binary_normalize. simpl. apply binary_round_not_nan. }
      destruct Ha as [Hn' Hs'].
      by destruct (not_negative_fleb _ Hs').
Qed.

Lemma np_allclose_self (p : Point) : point_is_finite p = true → np_allclose p p = true.
Proof.
  unfold point_is_finite, np_allclose.
  intros [[Hx Hy]%andb_prop Hz]%andb_prop.
  by rewrite !np_isclose_self.
Qed.

Lemma finite_point_is_finite (p : Point) : finite_point p → point_is_finite p = true.
Proof.
  intros ((_ & Hx) & (_ & Hy) & (_ & Hz)). unfold point_is_finite. by rewrite Hx, Hy, Hz.
Qed.

(** ** The identity rotation *)

(** [1.0 * x + 0.0 * y + 0.0 * z] and the like. *)
Lemma identity_row (x y z : npfloat) :
  finite_number x → is_finite y = true → is_finite z = true →
  same_number (np_sum [fmul f64_one x; fmul f64_zero y; fmul f64_zero z]) x ∧
  same_number (np_sum [fmul f64_zero y; fmul f64_one x; fmul f64_zero z]) x ∧
  same_number (np_sum [fmul f64_zero y; fmul f64_zero z; fmul f64_one x]) x.
Proof.
  intros [Hv Hx] Hy Hz. rewrite (fmul_one_l x Hv).
  assert (H0 : ∀ w, is_finite w = true → is_zero (fmul f64_zero w)).
  { intros [s|s| |s m e]; try done; intros _; by eexists. }
  destruct (H0 y Hy) as [sy ->]. destruct (H0 z Hz) as [sz ->].
  unfold np_sum. cbn [length pairwise_sum]. rewrite !decide_True by (simpl; lia).
  unfold running_sum. cbn [fold_left].
  destruct x as [[]|[]| |s m e]; try done; destruct sy, sz; simpl;
    repeat split; try (by left); right; split; by eexists.
Qed.

Lemma same_number_finite (a b : npfloat) :
  same_number a b → finite_number b → finite_number a.
Proof. intros [->|[[s ->] _]] Hb; [done|]. by split. Qed.

Lemma matrixTimesVector_eye (p : Point) :
  finite_point p →
  same_point (matrixTimesVector eye p) p ∧ finite_point (matrixTimesVector eye p).
Proof.
  intros (Hx & Hy & Hz).
  assert (Hs : same_point (matrixTimesVector eye p) p).
  { unfold same_point, matrixTimesVector, eye, vdot, vsum, vmul. simpl.
    split; [|split].
    - apply (identity_row (px p) (py p) (pz p)); [done|apply Hy|apply Hz].
    - apply (identity_row (py p) (px p) (pz p)); [done|apply Hx|apply Hz].
    - apply (identity_row (pz p) (px p) (py p)); [done|apply Hx|apply Hy]. }
  split; [done|]. destruct Hs as (Sx & Sy & Sz).
  repeat split; eapply same_number_finite; try done; apply Hx || apply Hy || apply Hz.
Qed.

Section AlignmentFacts.
Context {linalg : NumpyLinalg}.

(** The loops that index one list by the position in the other never raise
    when the indexed list is long enough; [rest] is the part of the indexed
    list still ahead. *)
Lemma isexact_loop_ok (d p rest : list Point) (k : nat) :
  drop k p = rest → length d ≤ length rest →
  ∃ b, isexact_loop k d p = Ok b.
Proof.
  revert k rest. induction d as [|x d IH]; intros k rest Hd Hl; simpl.
  - by eexists.
  - destruct rest as [|q rest]; [simpl in Hl; lia|].
    destruct (py_index_drop _ _ _ _ Hd) as [-> Hd']. simpl.
    destruct (np_allclose x q); [|by eexists].
    apply (IH (S k) rest); [done|]. simpl in Hl. lia.
Qed.

Lemma outer_product_loop_ok (d p rest : list Point) (k : nat) (H0 : Matrix) :
  drop k p = rest → length d ≤ length rest →
  ∃ H, for_enumerate
         (λ H ip pp, q ← py_index p ip; Ok (madd H (vectorsToMatrix pp q)))
         k d H0 = Ok H.
Proof.
  revert k rest H0. induction d as [|x d IH]; intros k rest H0 Hd Hl; simpl.
  - by eexists.
  - destruct rest as [|q rest]; [simpl in Hl; lia|].
    destruct (py_index_drop _ _ _ _ Hd) as [-> Hd']. simpl.
    apply (IH (S k) rest); [done|]. simpl in Hl. lia.
Qed.

(** With a reference that is long enough, [find_rotation] returns a matrix
    unless its SVD step raises. *)
Lemma find_rotation_cases (d p : list Point) :
  length d ≤ length p →
  rotation_found d p ∨ find_rotation d p = Raise LinAlgError.
Proof.
  intros Hl. unfold rotation_found, find_rotation.
  destruct (isexact_loop_ok d p p 0) as [b ->]; [done|done|]. simpl.
  destruct b; [left; by eexists|].
  destruct (outer_product_loop_ok d p p 0 mzero) as [H ->]; [done|done|]. simpl.
  destruct (svd H) as [[[U S] Vt]|e] eqn:Hsvd; simpl; [left; by eexists|].
  right. by rewrite (svd_raises H e Hsvd).
Qed.

Lemma scaling_terms_loop (rotated p rest : list Point) (k : nat) (acc : list npfloat) :
  drop k p = rest → length rotated ≤ length rest →
  for_enumerate (λ acc ii rc, q ← py_index p ii; Ok (acc ++ [vdot rc q]))
    k rotated acc = Ok (acc ++ zip_with vdot rotated rest).
Proof.
  revert k rest acc. induction rotated as [|rc rotated IH]; intros k rest acc Hd Hl; simpl.
  - by rewrite app_nil_r.
  - destruct rest as [|q rest]; [simpl in Hl; lia|].
    destruct (py_index_drop _ _ _ _ Hd) as [-> Hd']. simpl.
    rewrite (IH (S k) rest); [|done|simpl in Hl; lia].
    by rewrite <- app_assoc.
Qed.

Lemma find_scaling_factor_ok (d p : list Point) (R : Matrix) :
  length d ≤ length p →
  find_scaling_factor d p R =
    Ok (fdiv (np_sum (zip_with vdot (rotateCoords d R) p))
             (np_sum ((λ rc, vdot rc rc) <$> rotateCoords d R)),
        rotateCoords d R).
Proof.
  intros Hl. unfold find_scaling_factor.
  rewrite (scaling_terms_loop _ p p 0 []); [done|done|].
  unfold rotateCoords. by rewrite length_fmap.
Qed.

(** The loop of [symmetry_measure]: [done] are the entries of
    [rotated_coords] already rescaled in place, [todo] those still ahead. *)
Lemma symmetry_measure_loop (s : npfloat) (p done todo : list Point) (num denom : npfloat) :
  length p ≤ length todo →
  ∃ rc',
    for_enumerate (symmetry_measure_body s) (length done) p (done ++ todo, num, denom)
    = Ok (rc',
          fold_left fadd (zip_with (λ r x, norm2 (vsub r (vscale s x))) p todo) num,
          fold_left fadd (norm2 <$> p) denom).
Proof.
  revert done todo num denom.
  induction p as [|r p IH]; intros done todo num denom Hl; simpl.
  - by eexists.
  - destruct todo as [|x todo]; [simpl in Hl; lia|].
    rewrite py_index_middle. simpl.
    rewrite insert_app_r_alt, Nat.sub_diag by done. simpl.
    replace (done ++ vscale s x :: todo) with ((done ++ [vscale s x]) ++ todo)
      by (by rewrite <- app_assoc).
    replace (S (length done)) with (length (done ++ [vscale s x]))
      by (rewrite length_app; simpl; lia).
    apply IH. simpl in Hl. lia.
Qed.

Lemma symmetry_measure_single (d p : list Point) :
  length d = 1 → symmetry_measure d p = Ok f64_zero.
Proof. intros Hl. unfold symmetry_measure. by rewrite decide_True. Qed.

(** On an empty reference the final quotient is taken between Python floats. *)
Lemma symmetry_measure_empty : symmetry_measure [] [] = Raise ZeroDivisionError.
Proof. reflexivity. Qed.

(** For non-empty lists of equal length the measure is the closed form
    applied to the rotation, and an exception of [find_rotation] is passed
    on. *)
Lemma symmetry_measure_unfold (d p : list Point) :
  length d = length p → 1 < length d →
  symmetry_measure d p = R ← find_rotation d p; Ok (measure_after_rotation d p R).
Proof.
  intros Hl H1. unfold symmetry_measure. rewrite decide_False by lia.
  destruct (find_rotation d p) as [R|e]; simpl; [|done].
  rewrite find_scaling_factor_ok by lia. simpl.
  set (s := fdiv _ _).
  destruct (symmetry_measure_loop s p [] (rotateCoords d R) f64_zero f64_zero)
    as [rc' Hloop].
  { unfold rotateCoords. rewrite length_fmap. lia. }
  simpl in Hloop. rewrite Hloop. simpl.
  destruct p as [|q p]; [simpl in Hl; lia|]. reflexivity.
Qed.

(** Whether the measure is returned depends on the rotation step alone. *)
Lemma symmetry_measure_ok (d p : list Point) :
  length d = length p → d ≠ [] → (1 < length d → rotation_found d p) →
  ∃ x, symmetry_measure d p = Ok x.
Proof.
  intros Hl Hne Hrot. destruct (decide (length d = 1)) as [H1|H1].
  { exists f64_zero. by apply symmetry_measure_single. }
  assert (1 < length d) as Hn by (destruct d; [done|simpl in *; lia]).
  destruct (Hrot Hn) as [R HR]. rewrite symmetry_measure_unfold, HR by done. by eexists.
Qed.


(** C1 (amended): for point lists of equal length [symmetry_measure] returns
    0 when there is exactly one point; with two points or more it is
    [find_rotation] followed by [find_scaling_factor] followed by the
    formula: 100 times the sum of the squared norms of
    (reference_i - scale * rotated_i) divided by the sum of the squared norms
    of reference_i; so it returns that value whenever [find_rotation]
    returns, and passes the exception on when the SVD step raises.  On two
    empty lists it raises [ZeroDivisionError]. *)
Theorem C1_symmetry_measure_formula (distorted reference : list Point) :
  length distorted = length reference →
  (length distorted = 1 → symmetry_measure distorted reference = Ok f64_zero) ∧
  (1 < length distorted →
     symmetry_measure distorted reference
     = R ← find_rotation distorted reference;
       '(scale, rotated) ← find_scaling_factor distorted reference R;
       Ok (continuousSymmetryMeasure_formula reference rotated scale)) ∧
  (1 < length distorted →
     ∀ R, find_rotation distorted reference = Ok R →
       ∃ scale rotated,
         find_scaling_factor distorted reference R = Ok (scale, rotated) ∧
         symmetry_measure distorted reference
         = Ok (continuousSymmetryMeasure_formula reference rotated scale)) ∧
  (1 < length distorted →
     rotation_found distorted reference ∨
     symmetry_measure distorted reference = Raise LinAlgError) ∧
  (length distorted = 0 →
     symmetry_measure distorted reference = Raise ZeroDivisionError).
Proof.
  intros Hl.
  assert (Heq : 1 < length distorted →
            symmetry_measure distorted reference
            = R ← find_rotation distorted reference;
              '(scale, rotated) ← find_scaling_factor distorted reference R;
              Ok (continuousSymmetryMeasure_formula reference rotated scale)).
  { intros H1. rewrite symmetry_measure_unfold by done.
    destruct (find_rotation distorted reference) as [R|e]; simpl; [|done].
    rewrite find_scaling_factor_ok by lia. simpl.
    unfold measure_after_rotation, continuousSymmetryMeasure_formula.
    by rewrite fmul_comm. }
  split; [apply symmetry_measure_single|]. split; [done|]. split; [|split].
  - intros H1 R HR. rewrite (Heq H1), HR. simpl.
    rewrite find_scaling_factor_ok by lia. simpl. by eexists _, _.
  - intros H1. destruct (find_rotation_cases distorted reference) as [?|Hraise]; [lia|by left|].
    right. by rewrite (Heq H1), Hraise.
  - intros H0. destruct distorted; [|done]. destruct reference; [|done].
    apply symmetry_measure_empty.
Qed.

(** *** A measure is never negative *)

Lemma symmetry_measure_body_signs (s : npfloat) (p : list Point) (k : nat)
    (rc rc' : list Point) (num denom num' denom' : npfloat) :
  for_enumerate (symmetry_measure_body s) k p (rc, num, denom) = Ok (rc', num', denom') →
  not_negative num → not_negative denom →
  not_negative num' ∧ not_negative denom'.
Proof.
  revert k rc num denom. induction p as [|r p IH]; intros k rc num denom; simpl.
  - by intros [= <- <- <-].
  - destruct (py_index rc k) as [x|]; simpl; [|done].
    intros Hloop Hn Hd. eapply IH; [exact Hloop| |].
    + apply not_negative_fadd; [done|]. apply (not_negative_norm2 (vsub r (vscale s x))).
    + apply not_negative_fadd; [done|]. apply (not_negative_norm2 r).
Qed.

Lemma symmetry_measure_not_negative (d p : list Point) (x : npfloat) :
  symmetry_measure d p = Ok x → not_negative x.
Proof.
  unfold symmetry_measure. destruct (decide (length d = 1)); [by intros [= <-]|].
  destruct (find_rotation d p) as [R|]; simpl; [|done].
  destruct (find_scaling_factor d p R) as [[s rc]|]; simpl; [|done].
  destruct (for_enumerate _ _ _ _) as [[[rc' num] denom]|] eqn:Hloop; simpl; [|done].
  apply symmetry_measure_body_signs in Hloop as [Hn Hd]; [|done..].
  destruct p; [done|]. intros [= <-].
  apply not_negative_fmul; [by apply not_negative_fdiv|done].
Qed.

(** *** A list of finite points against itself *)

Lemma isexact_loop_self (X seen : list Point) :
  Forall finite_point X →
  isexact_loop (length seen) X (seen ++ X) = Ok true.
Proof.
  revert seen. induction X as [|x X IH]; intros seen HX; simpl; [done|].
  inversion HX as [|? ? Hx HX']; subst.
  rewrite py_index_middle. simpl.
  rewrite np_allclose_self by (by apply finite_point_is_finite).
  replace (seen ++ x :: X) with ((seen ++ [x]) ++ X) by (by rewrite <- app_assoc).
  replace (S (length seen)) with (length (seen ++ [x])) by (rewrite length_app; simpl; lia).
  by apply IH.
Qed.

(** For a list of finite points and itself the SVD step is not reached. *)
Lemma find_rotation_self (X : list Point) :
  Forall finite_point X → find_rotation X X = Ok eye.
Proof.
  intros HX. unfold find_rotation.
  pose proof (isexact_loop_self X [] HX) as Hexact. simpl in Hexact.
  by rewrite Hexact.
Qed.

Lemma rotateCoords_eye (X : list Point) :
  Forall finite_point X →
  Forall2 same_point (rotateCoords X eye) X ∧ Forall finite_point (rotateCoords X eye).
Proof.
  unfold rotateCoords. induction 1 as [|x X Hx HX [IH1 IH2]]; simpl.
  - split; constructor.
  - destruct (matrixTimesVector_eye x Hx) as [Hs Hf]. split; by constructor.
Qed.

Lemma norm2_at_origin (p : Point) : at_origin p → norm2 p = f64_zero.
Proof.
  intros (Hx & Hy & Hz). unfold norm2, vdot, vsum, vmul. cbn [px py pz].
  by rewrite !fmul_zero_self.
Qed.

Lemma running_sum_zeros (l : list npfloat) :
  Forall (λ x, x = f64_zero) l → running_sum l = f64_zero.
Proof. unfold running_sum. induction 1 as [|x l -> Hl IH]; simpl; [done|exact IH]. Qed.

Lemma measure_after_rotation_self (X : list Point) :
  Forall finite_point X → nondegenerate X →
  measure_after_rotation X X eye = f64_zero.
Proof.
  intros HX [HS HS']. unfold measure_after_rotation.
  destruct (rotateCoords_eye X HX) as [Hsame Hfin].
  set (X' := rotateCoords X eye) in *.
  assert (Hnum : np_sum (zip_with vdot X' X) = np_sum (norm2 <$> X)).
  { apply same_number_finite_nonzero; [|done]. apply same_number_np_sum.
    clear -Hsame. induction Hsame as [|x' x X' X Hx _ IH]; simpl; constructor; [|done].
    apply same_number_vdot; [done|]. repeat split; apply same_number_refl. }
  assert (Hden : np_sum ((λ rc, vdot rc rc) <$> X') = np_sum (norm2 <$> X)).
  { apply same_number_finite_nonzero; [|done]. apply same_number_np_sum.
    clear -Hsame. induction Hsame as [|x' x X' X Hx _ IH]; simpl; constructor; [|done].
    by apply same_number_vdot. }
  rewrite Hnum, Hden.
  pose proof (not_negative_running_sum (norm2 <$> X)) as Hsign.
  destruct HS as (s0 & m0 & e0 & ->). destruct HS' as (s & m & e & HS).
  rewrite HS in *. rewrite fdiv_self.
  assert (Hzero : running_sum (zip_with (λ r x, norm2 (vsub r (vscale f64_one x))) X X')
                  = f64_zero).
  { apply running_sum_zeros. clear -Hsame Hfin HX.
    induction Hsame as [|x' x X' X Hx Hs IH]; simpl; [constructor|].
    inversion Hfin as [|? ? Hx' Hfin']; subst. inversion HX as [|? ? Hxf HX']; subst.
    constructor; [|by apply IH].
    apply norm2_at_origin.
    destruct Hx as (Sx & Sy & Sz). destruct Hx' as ((Vx & _) & (Vy & _) & (Vz & _)).
    destruct Hxf as ((_ & Fx) & (_ & Fy) & (_ & Fz)).
    unfold at_origin, vsub, vscale. cbn [px py pz].
    rewrite !fmul_one_l by done.
    repeat split; by apply fsub_same_number. }
  rewrite Hzero.
  assert (s = false) as ->.
  { apply Hsign. apply list.Forall_forall. intros y Hy.
    apply list_elem_of_fmap in Hy as (q & -> & _). apply not_negative_norm2. }
  reflexivity.
Qed.

Lemma symmetry_measure_self (X : list Point) :
  Forall finite_point X → nondegenerate X →
  symmetry_measure X X = Ok f64_zero.
Proof.
  intros HX HS. destruct (decide (length X = 1)) as [H1|H1].
  { by apply symmetry_measure_single. }
  destruct X as [|x X]; [by destruct HS as [_ (? & ? & ? & ?)]|].
  rewrite symmetry_measure_unfold; [|done|simpl in *; lia].
  rewrite find_rotation_self by done. simpl.
  by rewrite measure_after_rotation_self.
Qed.

(** *** Degenerate inputs *)

(** A reference with all points at the origin: whatever the distorted points
    and the rotation, the quotient is 0/0 or already NaN. *)
Lemma measure_after_rotation_degenerate_reference (d p : list Point) (R : Matrix) :
  p ≠ [] → Forall at_origin p → measure_after_rotation d p R = NaN.
Proof.
  intros Hne Hp. unfold measure_after_rotation.
  set (s := fdiv (np_sum (zip_with vdot _ _)) _). set (num := running_sum _).
  rewrite list.Forall_forall in Hp.
  assert (Hs : zero_or_nan s).
  { apply zero_or_nan_fdiv_l, zero_or_nan_np_sum.
    apply zero_or_nan_zip_with. intros a b _ Hb.
    destruct (at_origin_zero_or_nan b (Hp b Hb)) as (? & ? & ?).
    by apply zero_or_nan_vdot_r. }
  assert (Hnum : zero_or_nan num).
  { apply zero_or_nan_running_sum.
    apply zero_or_nan_zip_with. intros r x Hr _.
    destruct (at_origin_zero_or_nan r (Hp r Hr)) as (? & ? & ?).
    apply zero_or_nan_vdot_l; simpl;
      (apply zero_or_nan_fsub; [done|by apply zero_or_nan_fmul_l]). }
  rewrite (fdiv_zero_or_nan num); [done|done|].
  apply zero_or_nan_running_sum.
  apply list.Forall_forall. intros y Hy.
  apply list_elem_of_fmap in Hy as (q & -> & Hq).
  left. rewrite (norm2_at_origin q (Hp q Hq)). by eexists.
Qed.

(** Distorted points all at the origin: the scale factor is 0/0. *)
Lemma measure_after_rotation_degenerate_distorted (d p : list Point) (R : Matrix) :
  length d = length p → d ≠ [] → Forall at_origin d →
  measure_after_rotation d p R = NaN.
Proof.
  intros Hl Hne Hd. unfold measure_after_rotation.
  rewrite list.Forall_forall in Hd.
  assert (Hrot : ∀ x, x ∈ rotateCoords d R →
                 zero_or_nan (px x) ∧ zero_or_nan (py x) ∧ zero_or_nan (pz x)).
  { intros x Hx. apply list_elem_of_fmap in Hx as (w & -> & Hw).
    destruct (at_origin_zero_or_nan w (Hd w Hw)) as (? & ? & ?).
    repeat split; by apply zero_or_nan_vdot_r. }
  set (rotated := rotateCoords d R) in *.
  assert (Hs : fdiv (np_sum (zip_with vdot rotated p))
                    (np_sum ((λ rc, vdot rc rc) <$> rotated)) = NaN).
  { apply fdiv_zero_or_nan; apply zero_or_nan_np_sum.
    - apply zero_or_nan_zip_with. intros a b Ha _.
      destruct (Hrot a Ha) as (? & ? & ?). by apply zero_or_nan_vdot_l.
    - apply list.Forall_forall. intros x Hx.
      apply list_elem_of_fmap in Hx as (a & -> & Ha).
      destruct (Hrot a Ha) as (? & ? & ?). by apply zero_or_nan_vdot_l. }
  rewrite Hs, running_sum_nan; [done|].
  destruct p as [|q p]; [destruct d; simpl in Hl; done|].
  subst rotated. destruct d as [|w d]; [done|]. cbn [rotateCoords fmap list_fmap zip_with].
  replace (norm2 (vsub q (vscale NaN (matrixTimesVector R w)))) with NaN; [by left|].
  unfold norm2, vdot, vsum, vmul, vsub, vscale; cbn [px py pz].
  by rewrite !fmul_nan_l, !fsub_nan_r, !fmul_nan_l.
Qed.

(** C2 (amended): the measure of a list of finite points against itself is 0
    when the sum of the squared norms, as it is computed, is a finite number
    other than zero (it is not when all points are at the origin, when the
    squares overflow or when they all underflow).  For every pair of point
    lists a measure that is returned is never negative: it is NaN or at
    least 0.  It is NaN when the distorted points, two or more, are all at
    the origin: the measure is then [find_rotation] followed by NaN. *)
Theorem C2_self_zero_and_nonneg :
  (∀ X, Forall finite_point X → nondegenerate X →
     symmetry_measure X X = Ok f64_zero) ∧
  (∀ d p x, symmetry_measure d p = Ok x → x = NaN ∨ fleb f64_zero x = true) ∧
  (∀ d p, Forall at_origin d → 1 < length d → length d = length p →
     symmetry_measure d p = find_rotation d p ≫= λ _, Ok NaN).
Proof.
  split; [apply symmetry_measure_self|]. split.
  - intros d p x Hx. by apply not_negative_fleb, (symmetry_measure_not_negative d p).
  - intros d p Hd H1 Hl. rewrite symmetry_measure_unfold by done.
    destruct (find_rotation d p) as [R|]; simpl; [|done].
    rewrite measure_after_rotation_degenerate_distorted; try done.
    destruct d; [simpl in H1; lia|done].
Qed.

(** C3 (amended): for a reference with more than one point, all at the
    origin, and as many distorted points, [symmetry_measure] raises no
    arithmetic error: it is [find_rotation] followed by NaN, that is, it
    returns NaN whenever [find_rotation] returns, and otherwise raises the
    [LinAlgError] of the SVD step. *)
Theorem C3_degenerate_reference_returns_nan (d p : list Point) :
  length d = length p → 1 < length p → Forall at_origin p →
  symmetry_measure d p = find_rotation d p ≫= (λ _, Ok NaN) ∧
  (rotation_found d p → symmetry_measure d p = Ok NaN) ∧
  (symmetry_measure d p = Ok NaN ∨ symmetry_measure d p = Raise LinAlgError).
Proof.
  intros Hl Hn Hp.
  assert (Heq : symmetry_measure d p = find_rotation d p ≫= (λ _, Ok NaN)).
  { rewrite symmetry_measure_unfold by lia.
    destruct (find_rotation d p) as [R|]; simpl; [|done].
    rewrite measure_after_rotation_degenerate_reference; try done.
    destruct p; [simpl in Hn; lia|done]. }
  split; [done|]. split.
  - intros [R HR]. by rewrite Heq, HR.
  - destruct (find_rotation_cases d p) as [[R HR]|HR]; [lia| |].
    + left. by rewrite Heq, HR.
    + right. by rewrite Heq, HR.
Qed.

End AlignmentFacts.

(** * Properties of [AbstractGeometry] *)

Lemma AbstractGeometry_init_centre (c : Point) (bare_coords : list Point)
    (ct : centering) (incl : bool) (centre0 : Point) :
  choose_centre (Some c) bare_coords ct incl = Ok centre0 →
  ∃ geo, AbstractGeometry_init (Some c) bare_coords ct incl = Ok geo ∧
         centre geo = centre0 ∧
         coords geo = (λ pp, vsub pp centre0) <$> bare_coords ∧
         _points_wocs_ctwocc geo = (λ pp, vsub pp (np_mean bare_coords)) <$> bare_coords.
Proof.
  intros Hc. unfold AbstractGeometry_init. simpl. rewrite Hc. simpl.
  eexists. split; [reflexivity|]. by simpl.
Qed.

Lemma AbstractGeometry_init_raises (c : Point) (bare_coords : list Point)
    (ct : centering) (incl : bool) (e : exn) :
  choose_centre (Some c) bare_coords ct incl = Raise e →
  AbstractGeometry_init (Some c) bare_coords ct incl = Raise e.
Proof. intros Hc. unfold AbstractGeometry_init. simpl. by rewrite Hc. Qed.

(** C7: with a central site given, the constructor in standard mode centres
    on the central site for fewer than 5 neighbours and on the centroid (with
    the central site included when asked) otherwise, and raises [ValueError]
    when central-site centering is selected, directly or by the standard
    rule, together with include-central-site-in-centroid.  Without a central
    site the constructor never reaches its own [ValueError] checks: it
    raises [TypeError]. *)
Theorem C7_constructor_centre_and_errors :
  (∀ c bare_coords, length bare_coords < 5 →
     ∃ geo, AbstractGeometry_init (Some c) bare_coords standard false = Ok geo ∧
            centre geo = c) ∧
  (∀ c bare_coords incl, 5 ≤ length bare_coords →
     ∃ geo, AbstractGeometry_init (Some c) bare_coords standard incl = Ok geo ∧
            centre geo =
              if incl
              then vdiv (vadd (fold_left vadd bare_coords vzero) c)
                        (fadd (np_float (length bare_coords)) f64_one)
              else vdiv (fold_left vadd bare_coords vzero)
                        (np_float (length bare_coords))) ∧
  (∀ c bare_coords ct,
     ct = central_site_centering ∨ (ct = standard ∧ length bare_coords < 5) →
     AbstractGeometry_init (Some c) bare_coords ct true = Raise ValueError) ∧
  (∀ bare_coords ct incl,
     AbstractGeometry_init None bare_coords ct incl = Raise TypeError).
Proof.
  repeat split.
  - intros c bare_coords Hn.
    destruct (AbstractGeometry_init_centre c bare_coords standard false c)
      as (geo & Hgeo & Hc & _).
    { unfold choose_centre. by rewrite decide_True. }
    by exists geo.
  - intros c bare_coords incl Hn.
    destruct (AbstractGeometry_init_centre c bare_coords standard incl
                (if incl
                 then vdiv (vadd (fold_left vadd bare_coords vzero) c)
                           (fadd (np_float (length bare_coords)) f64_one)
                 else vdiv (fold_left vadd bare_coords vzero)
                           (np_float (length bare_coords))))
      as (geo & Hgeo & Hc & _).
    { unfold choose_centre. rewrite decide_False by lia.
      unfold centroid_centre. by destruct incl. }
    by exists geo.
  - intros c bare_coords ct [-> | [-> Hn]]; apply AbstractGeometry_init_raises.
    + done.
    + unfold choose_centre. by rewrite decide_True.
Qed.

(** * Properties of the index maps *)

Lemma index_maps_snoc (perm : permutation_list) (x : nat) :
  index_maps (perm ++ [x]) =
    (<[x := length perm]> (local2perfect_of perm),
     <[length perm := x]> (perfect2local_of perm)).
Proof.
  unfold local2perfect_of, perfect2local_of, index_maps.
  rewrite length_app. simpl. rewrite Nat.add_1_r, seq_S. simpl.
  rewrite zip_with_app by (by rewrite length_seq).
  rewrite fold_left_app. simpl.
  by destruct (fold_left _ _ _).
Qed.

Lemma perfect2local_lookup (perm : permutation_list) (i : nat) :
  perfect2local_of perm !! i = perm !! i.
Proof.
  induction perm as [|x perm IH] using rev_ind; [done|].
  unfold perfect2local_of at 1. rewrite index_maps_snoc. cbn [fst snd].
  destruct (decide (i = length perm)) as [->|Hne].
  - by rewrite lookup_insert_eq, list_lookup_middle.
  - rewrite lookup_insert_ne by done. rewrite IH.
    destruct (decide (i < length perm)).
    + by rewrite lookup_app_l.
    + rewrite !lookup_ge_None_2; [done|rewrite length_app; simpl; lia|lia].
Qed.


Lemma local2perfect_sound (perm : permutation_list) (i j : nat) :
  local2perfect_of perm !! j = Some i → perm !! i = Some j.
Proof.
  induction perm as [|x perm IH] using rev_ind; [done|].
  unfold local2perfect_of. rewrite index_maps_snoc. cbn [fst snd].
  destruct (decide (x = j)) as [->|Hne].
  - rewrite lookup_insert_eq. intros [= <-]. by rewrite list_lookup_middle.
  - rewrite lookup_insert_ne by done. intros Hj. apply IH in Hj.
    by rewrite lookup_app_l by (by eapply lookup_lt_Some).
Qed.


#[global] Arguments symmetry_measure : simpl never.
#[global] Arguments points_wocs_ctwocc : simpl never.
#[global] Arguments AbstractGeometry_init : simpl never.
#[global] Arguments plane_of_combination : simpl never.
#[global] Arguments _cg_csm_separation_plane : simpl never.
#[global] Arguments candidate_permutation : simpl never.
#[global] Arguments separation_permutation : simpl never.
#[global] Arguments coordination_geometry_symmetry_measures_fallback_random : simpl never.
#[global] Arguments coordination_geometry_symmetry_measures : simpl never.
#[global] Arguments random_permutation : simpl never.

(** * Properties of the matcher *)

Lemma for_each_invariant {A St} (P : St → Prop) (body : St → A → result St)
    (l : list A) (st st' : St) :
  (∀ st x st', P st → body st x = Ok st' → P st') →
  P st → for_each body l st = Ok st' → P st'.
Proof.
  intros Hbody. revert st. induction l as [|x l IH]; intros st HP; simpl.
  - by intros [= <-].
  - destruct (body st x) as [st1|] eqn:Hb; simpl; [|done].
    apply IH. by eapply Hbody.
Qed.

Lemma maps_consistent_extend (a b : cgsm) :
  maps_consistent a → maps_consistent b → maps_consistent (cgsm_extend a b).
Proof.
  destruct a as [[[[c1 p1] a1] l1] q1], b as [[[[c2 p2] a2] l2] q2]; simpl.
  intros [-> ->] [-> ->]. by rewrite !fmap_app.
Qed.

Lemma itertools_permutations_nonempty {A} (n : nat) (l : list A) :
  length l = n → itertools_permutations_aux n l ≠ [].
Proof.
  revert l. induction n as [|n IH]; intros l Hl; simpl; [done|].
  destruct l as [|x l]; [done|]. simpl.
  specialize (IH l). destruct (itertools_permutations_aux n l); [|done].
  destruct IH; [|done]. simpl in Hl. lia.
Qed.

Lemma npoints_range_spec (sepplane : SeparationPlane) (k : nat) :
  k ∈ npoints_range sepplane ↔
  minimum_number_of_points sepplane ≤ k ≤ Nat.min (maximum_number_of_points sepplane) 4.
Proof. unfold npoints_range, py_range. rewrite elem_of_seq. lia. Qed.

Lemma cgsm_extend_assoc (a b c : cgsm) :
  cgsm_extend (cgsm_extend a b) c = cgsm_extend a (cgsm_extend b c).
Proof.
  destruct a as [[[[? ?] ?] ?] ?], b as [[[[? ?] ?] ?] ?], c as [[[[? ?] ?] ?] ?].
  simpl. by rewrite <- !app_assoc.
Qed.

Lemma cgsm_extend_empty_l (r : cgsm) : cgsm_extend cgsm_empty r = r.
Proof. by destruct r as [[[[? ?] ?] ?] ?]. Qed.

Lemma fmap_lookup_total_seq {A} `{Inhabited A} (L : list A) :
  (λ i, L !!! i) <$> seq 0 (length L) = L.
Proof.
  apply list_eq. intros i. rewrite list_lookup_fmap.
  destruct (decide (i < length L)) as [Hi|Hi].
  - rewrite lookup_seq_lt by done. simpl.
    by rewrite list_lookup_lookup_total_lt.
  - rewrite lookup_seq_ge by lia. simpl. symmetry. apply lookup_ge_None. lia.
Qed.




Lemma np_argmin_from_lt (l : list npfloat) (i ibest : nat) (best : npfloat) :
  ibest < i → np_argmin_from i l ibest best < i + length l.
Proof.
  revert i ibest best. induction l as [|x l IH]; intros i ibest best Hi; simpl; [lia|].
  destruct (argmin_better x best).
  - specialize (IH (S i) i x). lia.
  - specialize (IH (S i) ibest best). lia.
Qed.

Lemma np_argmin_lt (l : list npfloat) :
  l ≠ [] → ∃ imin, np_argmin l = Ok imin ∧ imin < length l.
Proof.
  destruct l as [|x l]; [done|]. intros _. eexists. split; [done|].
  pose proof (np_argmin_from_lt l 1 0 x). simpl. lia.
Qed.

Lemma np_argmin_from_nan_best (l : list npfloat) (i ibest : nat) :
  np_argmin_from i l ibest NaN = ibest.
Proof. revert i. induction l as [|x l IH]; intros i; simpl; [done|apply IH]. Qed.

Lemma np_argmin_from_nan (pre l : list npfloat) (ibest : nat) (best : npfloat) :
  (pre ++ l) !! ibest = Some best → best = NaN ∨ NaN ∈ l →
  (pre ++ l) !! np_argmin_from (length pre) l ibest best = Some NaN.
Proof.
  revert pre ibest best. induction l as [|x l IH]; intros pre ibest best Hbest Hnan; simpl.
  - destruct Hnan as [->|Hin]; [done|by apply elem_of_nil in Hin].
  - replace (pre ++ x :: l) with ((pre ++ [x]) ++ l) in * by (by rewrite <- app_assoc).
    replace (S (length pre)) with (length (pre ++ [x])) by (rewrite length_app; simpl; lia).
    destruct (decide (best = NaN)) as [->|Hb].
    { simpl. apply IH; [done|by left]. }
    destruct Hnan as [|Hin]; [done|].
    destruct (decide (x = NaN)) as [->|Hx].
    + assert (Hbetter : argmin_better NaN best = true) by (by destruct best).
      rewrite Hbetter. apply IH; [|by left].
      rewrite lookup_app_l by (rewrite length_app; simpl; lia).
      by rewrite list_lookup_middle.
    + apply elem_of_cons in Hin as [|Hin]; [done|].
      destruct (argmin_better x best); (apply IH; [|by right]); [|done].
      rewrite lookup_app_l by (rewrite length_app; simpl; lia).
      by rewrite list_lookup_middle.
Qed.

Lemma np_argmin_from_least (pre l : list npfloat) (ibest : nat) (best : npfloat) :
  NaN ∉ pre ++ l → (pre ++ l) !! ibest = Some best →
  (∀ x, x ∈ pre → fleb best x = true) →
  ∃ m, (pre ++ l) !! np_argmin_from (length pre) l ibest best = Some m ∧
       ∀ x, x ∈ pre ++ l → fleb m x = true.
Proof.
  revert pre ibest best. induction l as [|x l IH]; intros pre ibest best Hnan Hbest Hmin; simpl.
  - exists best. split; [done|]. intros x Hx. rewrite app_nil_r in Hx. by apply Hmin.
  - replace (pre ++ x :: l) with ((pre ++ [x]) ++ l) in * by (by rewrite <- app_assoc).
    replace (S (length pre)) with (length (pre ++ [x])) by (rewrite length_app; simpl; lia).
    assert (Hx : x ≠ NaN).
    { intros ->. apply Hnan. rewrite !elem_of_app, list_elem_of_singleton. auto. }
    assert (Hb : best ≠ NaN).
    { intros ->. apply Hnan. by eapply list_elem_of_lookup_2. }
    assert (Hbetter : argmin_better x best = negb (fleb best x)) by (by destruct best, x).
    rewrite Hbetter. destruct (fleb best x) eqn:Hle; simpl.
    + apply IH; [done|done|].
      intros y [Hy| ->%list_elem_of_singleton]%elem_of_app; [by apply Hmin|done].
    + apply fleb_total in Hle; [|done..]. apply IH; [done| |].
      * rewrite lookup_app_l by (rewrite length_app; simpl; lia).
        by rewrite list_lookup_middle.
      * intros y [Hy| ->%list_elem_of_singleton]%elem_of_app.
        -- eapply fleb_trans; [exact Hle|by apply Hmin].
        -- by apply fleb_refl.
Qed.

Lemma min_csm_selects (l : list npfloat) :
  l ≠ [] →
  ∃ imin m, np_argmin l = Ok imin ∧ l !! imin = Some m ∧
            (NaN ∈ l → m = NaN) ∧
            (NaN ∉ l → ∀ x, x ∈ l → fleb m x = true).
Proof.
  destruct l as [|x l]; [done|]. intros _. unfold np_argmin.
  destruct (lookup_lt_is_Some_2 (x :: l) (np_argmin_from 1 l 0 x)) as [m Hm].
  { pose proof (np_argmin_from_lt l 1 0 x). simpl. lia. }
  exists (np_argmin_from 1 l 0 x), m. split; [done|]. split; [done|]. split.
  - intros Hin. pose proof (np_argmin_from_nan [x] l 0 x eq_refl) as Hn.
    simpl in Hn. rewrite Hn in Hm; [by injection Hm|].
    apply elem_of_cons in Hin as [<-|Hin]; [by left|by right].
  - intros Hnin. destruct (np_argmin_from_least [x] l 0 x) as (m' & Hm' & Hleast);
      [done|done| |].
    + intros y ->%list_elem_of_singleton. apply fleb_refl. intros ->. apply Hnin. by left.
    + simpl in Hm'. rewrite Hm' in Hm. by injection Hm as <-.
Qed.

Lemma min_csm_least (l : list npfloat) (m : npfloat) :
  min_csm l = Ok m → NaN ∉ l → ∀ x, x ∈ l → fleb m x = true.
Proof.
  intros Hm Hnan. destruct l as [|y l]; [done|].
  destruct (min_csm_selects (y :: l)) as (imin & m' & Hi & Hm' & _ & Hleast); [done|].
  unfold min_csm in Hm. rewrite Hi in Hm. simpl in Hm. unfold py_index in Hm.
  rewrite Hm' in Hm. injection Hm as <-. by apply Hleast.
Qed.

Lemma min_csm_elem (l : list npfloat) (m : npfloat) : min_csm l = Ok m → m ∈ l.
Proof.
  unfold min_csm. destruct (np_argmin l) as [i|]; simpl; [|done].
  unfold py_index. destruct (l !! i) as [x|] eqn:Hx; [|done].
  intros [= <-]. by eapply list_elem_of_lookup_2.
Qed.

Section FinderFacts.
Context {linalg : NumpyLinalg} {utils : GeometryUtils} {random : NumpyRandom}.

Lemma safe_override_raises (self : LocalGeometryFinder)
    (coordination_geometry : CoordinationGeometry) :
  ∃ e, coordination_geometry_symmetry_measures_safe_override self coordination_geometry
       = Raise e.
Proof.
  unfold coordination_geometry_symmetry_measures_safe_override, itertools_permutations.
  pose proof (itertools_permutations_nonempty
                (length (seq 0 (coordination_number coordination_geometry)))
                (seq 0 (coordination_number coordination_geometry)) eq_refl) as Hne.
  destruct (itertools_permutations_aux _ _) as [|perm perms]; [done|]. simpl.
  unfold safe_override_iteration.
  destruct (mapM _ perm) as [bare_coords|e]; simpl; [|by eexists].
  destruct (AbstractGeometry_init _ _ _ _); simpl; by eexists.
Qed.

(** C8: the exhaustive strategy over all N! permutations,
    [coordination_geometry_symmetry_measures_safe_override], returns no
    measure at all: in its first iteration it raises (at the latest when it
    calls the undefined method [symmetry_measure_newpmg]). *)
Theorem C8_safe_override_always_raises (self : LocalGeometryFinder)
    (coordination_geometry : CoordinationGeometry) :
  ∃ e, coordination_geometry_symmetry_measures_safe_override self coordination_geometry
       = Raise e.
Proof. apply safe_override_raises. Qed.

(** *** Unrecognized algorithms *)

Lemma algorithms_loop_unrecognized (self : LocalGeometryFinder)
    (cg : CoordinationGeometry) (points_perfect : list Point) (algos : list Algorithm)
    (acc : cgsm) (tested : tested_set) (g : rng) :
  Forall unrecognized algos →
  algorithms_loop self cg points_perfect algos acc tested g = Ok (acc, g).
Proof.
  induction 1 as [|algo algos [He Hs] _ IH]; simpl; [done|].
  by rewrite !decide_False.
Qed.

(** C4: when every declared algorithm of a polyhedron is of an unrecognized
    type, the dispatcher raises nothing: it returns five empty lists, the
    polyhedron gets no entry in the result mapping, and the remaining
    polyhedra are matched as if it had not been there. *)
Theorem C4_unrecognized_algorithms_silently_skipped (self : LocalGeometryFinder)
    (geometry : CoordinationGeometry) (algos : list Algorithm)
    (perfect_geometry : AbstractGeometry) :
  permutations_safe_override self = false →
  algorithms geometry = Some algos →
  Forall unrecognized algos →
  AbstractGeometry_init (get_central_site geometry) (points geometry)
    (self_centering_type self) (self_include_central_site_in_centroid self)
  = Ok perfect_geometry →
  (∀ tested points_perfect g,
     coordination_geometry_symmetry_measures self geometry tested points_perfect g
     = Ok (FiveLists cgsm_empty, g)) ∧
  (∀ all_csms result_dict g,
     match_geometry self all_csms (result_dict, g) geometry = Ok (result_dict, g)) ∧
  (∀ all_csms rest result_dict g,
     for_each (match_geometry self all_csms) (geometry :: rest) (result_dict, g)
     = for_each (match_geometry self all_csms) rest (result_dict, g)).
Proof.
  intros Hsafe Halgos Hun Hpg.
  assert (Hd : ∀ tested points_perfect g,
             coordination_geometry_symmetry_measures self geometry tested points_perfect g
             = Ok (FiveLists cgsm_empty, g)).
  { intros tested pp g. unfold coordination_geometry_symmetry_measures.
    rewrite Hsafe, Halgos, algorithms_loop_unrecognized by done. done. }
  assert (Hm : ∀ all_csms result_dict g,
             match_geometry self all_csms (result_dict, g) geometry = Ok (result_dict, g)).
  { intros all_csms d g. unfold match_geometry. rewrite Hpg. simpl.
    by rewrite Hd. }
  repeat split; [done|done|].
  intros all_csms rest d g. cbn [for_each]. by rewrite Hm.
Qed.

(** The exhaustive override does not reach the result mapping either. *)
Lemma match_geometry_safe_override_raises (self : LocalGeometryFinder) (all_csms : bool)
    (st : gmap string ResultEntry * rng) (geometry : CoordinationGeometry) :
  permutations_safe_override self = true →
  ∃ e, match_geometry self all_csms st geometry = Raise e.
Proof.
  intros Hsafe. destruct st as [d g]. unfold match_geometry.
  destruct (AbstractGeometry_init _ _ _ _) as [pg|]; simpl; [|by eexists].
  unfold coordination_geometry_symmetry_measures. rewrite Hsafe.
  destruct (safe_override_raises self geometry) as [e ->]. by eexists.
Qed.

(** On the per-site path the tested set is Python's [False]: no candidate is
    ever skipped there. *)
Lemma check_tested_disabled (cg : CoordinationGeometry) (pp : permutation_list) :
  check_tested cg None pp = Some None.
Proof. reflexivity. Qed.

End FinderFacts.

Section SearchLoop.
Context {linalg : NumpyLinalg} {utils : GeometryUtils} {random : NumpyRandom}.

(** *** The loop over [npoints] *)






End SearchLoop.

Section IndexMapsReturned.
Context {linalg : NumpyLinalg} {utils : GeometryUtils} {random : NumpyRandom}.

(** *** The index maps returned by the strategies *)

Lemma standard_maps_consistent (self : LocalGeometryFinder) (cg : CoordinationGeometry)
    (permutations : list permutation_list) (str_algo : string)
    (points_perfect : list Point) (r : cgsm) :
  coordination_geometry_symmetry_measures_standard self cg permutations str_algo
    points_perfect = Ok r →
  maps_consistent r ∧ cgsm_permutations r = permutations.
Proof.
  unfold coordination_geometry_symmetry_measures_standard.
  assert (Hgen : ∀ perms acc,
            maps_consistent acc →
            for_each
              (λ '(csms, perms, algos, l2ps, p2ls) perm,
                 points_distorted ← points_wocs_ctwocc (local_geometry self) (Some perm);
                 csm ← symmetry_measure points_distorted points_perfect;
                 Ok (csms ++ [csm], perms ++ [perm], algos ++ [str_algo],
                     l2ps ++ [local2perfect_of perm], p2ls ++ [perfect2local_of perm]))
              perms acc = Ok r →
            maps_consistent r ∧ cgsm_permutations r = cgsm_permutations acc ++ perms).
  { induction perms as [|perm perms IH]; intros acc Hacc; simpl.
    - intros [= <-]. by rewrite app_nil_r.
    - destruct acc as [[[[c p] a] l] q].
      destruct (points_wocs_ctwocc _ _) as [pd|]; simpl; [|done].
      destruct (symmetry_measure _ _) as [x|]; simpl; [|done].
      intros Hr. apply IH in Hr as [Hc Hp].
      + split; [done|]. rewrite Hp. unfold cgsm_permutations. simpl.
        by rewrite <- app_assoc.
      + destruct Hacc as [-> ->]. simpl. by rewrite !fmap_app. }
  intros Hr. by apply Hgen in Hr.
Qed.

Lemma fallback_random_loop_consistent (self : LocalGeometryFinder)
    (cg : CoordinationGeometry) (points_perfect : list Point) (n : nat) (g g' : rng)
    (acc r : cgsm) :
  maps_consistent acc → Forall NoDup (cgsm_permutations acc) →
  fallback_random_loop self cg points_perfect n g acc = Ok (r, g') →
  maps_consistent r ∧ Forall NoDup (cgsm_permutations r).
Proof.
  revert g acc. induction n as [|n IH]; intros g acc Hacc Hnd; simpl.
  - by intros [= <- <-].
  - pose proof (random_permutation_perm (coordination_number cg) g) as Hperm.
    destruct (random_permutation _ g) as [perm g1]. simpl in Hperm.
    destruct (points_wocs_ctwocc _ _) as [pd|]; simpl; [|done].
    destruct (symmetry_measure _ _) as [x|]; simpl; [|done].
    apply IH.
    + by apply maps_consistent_extend.
    + destruct acc as [[[[c p] a] l] q]. unfold cgsm_permutations in *. simpl in *.
      apply Forall_app. split; [done|]. constructor; [|done].
      rewrite Hperm. apply NoDup_seq.
Qed.

Lemma record_plane_consistent (st : SearchState)
    (r : option (list npfloat * list permutation_list * list string)
         * list separation * tested_set) :
  maps_consistent (found st) → maps_consistent (found (record_plane st r)).
Proof.
  intros Hst. destruct r as [[[[[csm perm] algo]|] seps] tested]; simpl; [|done].
  by apply maps_consistent_extend.
Qed.

Lemma npoints_loop_consistent (self : LocalGeometryFinder) (cg : CoordinationGeometry)
    (sepplane : SeparationPlane) (points_perfect : list Point)
    (npoints_values : list nat) (st0 st : SearchState) :
  maps_consistent (found st0) →
  npoints_loop self cg sepplane points_perfect npoints_values st0 = Ok st →
  maps_consistent (found st).
Proof.
  revert st0. induction npoints_values as [|n ns IH]; intros st0 H0; simpl.
  - by intros [= <-].
  - destruct (for_each _ _ st0) as [st1|] eqn:Hfe; simpl; [|done].
    assert (H1 : maps_consistent (found st1)).
    { revert Hfe. apply (for_each_invariant (λ st, maps_consistent (found st))); [|done].
      intros sta combo stb Ha. unfold search_combination.
      destruct (plane_of_combination _ _ _) as [[plane|]|]; simpl; [| |done].
      - destruct (_cg_csm_separation_plane _ _ _ _ _ _ _ _) as [r|]; simpl; [|done].
        intros [= <-]. by apply record_plane_consistent.
      - by intros [= <-]. }
    destruct (decide (0 < nplanes st1)); [by intros [= <-]|]. by apply IH.
Qed.















End IndexMapsReturned.

Section MeasuresReturned.
Context {linalg : NumpyLinalg} {utils : GeometryUtils} {random : NumpyRandom}.

(** *** Every returned measure is the measure of its permutation *)

Lemma entries_scored_extend (self : LocalGeometryFinder) (points_perfect : list Point)
    (a b : cgsm) :
  entries_scored self points_perfect a → entries_scored self points_perfect b →
  entries_scored self points_perfect (cgsm_extend a b).
Proof.
  destruct a as [[[[c1 p1] a1] l1] q1], b as [[[[c2 p2] a2] l2] q2].
  unfold entries_scored, cgsm_permutations, cgsm_csms. simpl. apply Forall2_app.
Qed.

Lemma standard_entries_scored (self : LocalGeometryFinder) (cg : CoordinationGeometry)
    (permutations : list permutation_list) (str_algo : string)
    (points_perfect : list Point) (r : cgsm) :
  coordination_geometry_symmetry_measures_standard self cg permutations str_algo
    points_perfect = Ok r →
  entries_scored self points_perfect r.
Proof.
  apply (for_each_invariant (entries_scored self points_perfect)); [|by constructor].
  intros [[[[c p] a] l] q] perm st' Hst.
  destruct (points_wocs_ctwocc _ _) as [pd|] eqn:Hpd; simpl; [|done].
  destruct (symmetry_measure _ _) as [x|] eqn:Hx; simpl; [|done].
  intros [= <-]. unfold entries_scored, cgsm_permutations, cgsm_csms in *. simpl in *.
  apply Forall2_app; [done|]. constructor; [|constructor]. by exists pd.
Qed.

Lemma fallback_entries_scored (self : LocalGeometryFinder) (cg : CoordinationGeometry)
    (points_perfect : list Point) (n : nat) (g g' : rng) (acc r : cgsm) :
  entries_scored self points_perfect acc →
  fallback_random_loop self cg points_perfect n g acc = Ok (r, g') →
  entries_scored self points_perfect r.
Proof.
  revert g acc. induction n as [|n IH]; intros g acc Hacc; simpl.
  - by intros [= <- <-].
  - destruct (random_permutation _ g) as [perm g1].
    destruct (points_wocs_ctwocc _ _) as [pd|] eqn:Hpd; simpl; [|done].
    destruct (symmetry_measure _ _) as [x|] eqn:Hx; simpl; [|done].
    apply IH. apply entries_scored_extend; [done|].
    unfold entries_scored, cgsm_permutations, cgsm_csms. simpl.
    constructor; [|constructor]. by exists pd.
Qed.

Lemma tolerance_loop_scored (self : LocalGeometryFinder) (cg : CoordinationGeometry)
    (sepplane : SeparationPlane) (local_plane : Plane) (plane_separations : list separation)
    (dist_tolerances : list Qc) (tested : tested_set) (points_perfect : list Point)
    csms perms algos seps' tested' :
  tolerance_loop self cg sepplane local_plane plane_separations dist_tolerances tested
    points_perfect = Ok (Some (csms, perms, algos), seps', tested') →
  Forall2 (scored self points_perfect) perms csms.
Proof.
  induction dist_tolerances as [|tol tols IH]; simpl; [done|].
  destruct (accept_separation _ _ _) as [this_separation|]; [|done].
  destruct (separation_permutation _ _ _ _) as [separation_perm|]; simpl; [|done].
  destruct (for_each _ _ _) as [[[perms1 csms1] tested1]|] eqn:Hfe; simpl; [|done].
  assert (Hinv : Forall2 (scored self points_perfect) perms1 csms1).
  { revert Hfe.
    apply (for_each_invariant
             (λ st : list (list nat) * list npfloat * option (gset (list nat)),
                Forall2 (scored self points_perfect) st.1.1 st.1.2)); [|by constructor].
    intros [[p c] t] sep_perm st' Hst. unfold score_sep_perm.
    destruct (candidate_permutation _ _ _) as [pp|]; simpl; [|done].
    destruct (check_tested _ _ _) as [t1|]; [|by intros [= <-]].
    destruct (points_wocs_ctwocc _ _) as [pd|] eqn:Hpd; simpl; [|done].
    destruct (symmetry_measure _ _) as [x|] eqn:Hx; simpl; [|done].
    intros [= <-]. simpl in *. apply Forall2_app; [done|].
    constructor; [|constructor]. by exists pd. }
  destruct (decide (0 < length csms1)); by intros [= <- <- _ _ _].
Qed.

Lemma npoints_loop_scored (self : LocalGeometryFinder) (cg : CoordinationGeometry)
    (sepplane : SeparationPlane) (points_perfect : list Point)
    (npoints_values : list nat) (st0 st : SearchState) :
  entries_scored self points_perfect (found st0) →
  npoints_loop self cg sepplane points_perfect npoints_values st0 = Ok st →
  entries_scored self points_perfect (found st).
Proof.
  revert st0. induction npoints_values as [|n ns IH]; intros st0 H0; simpl.
  - by intros [= <-].
  - destruct (for_each _ _ st0) as [st1|] eqn:Hfe; simpl; [|done].
    assert (H1 : entries_scored self points_perfect (found st1)).
    { revert Hfe.
      apply (for_each_invariant (λ st, entries_scored self points_perfect (found st)));
        [|done].
      intros sta combo stb Ha. unfold search_combination.
      destruct (plane_of_combination _ _ _) as [[plane|]|]; simpl; [| |done].
      - unfold _cg_csm_separation_plane, DIST_TOLERANCES.
        destruct (tolerance_loop _ _ _ _ _ _ _ _) as [[[[[[csms perms] algos]|] seps] t]|]
          eqn:Hloop; simpl; [| |done].
        + intros [= <-]. simpl. apply entries_scored_extend; [done|].
          by apply tolerance_loop_scored in Hloop.
        + by intros [= <-].
      - by intros [= <-]. }
    destruct (decide (0 < nplanes st1)); [by intros [= <-]|]. by apply IH.
Qed.

Lemma search_entries_scored (self : LocalGeometryFinder) (cg : CoordinationGeometry)
    (sepplane : SeparationPlane) (tested : tested_set) (points_perfect : list Point)
    (g : rng) (r : cgsm) tested' g' :
  coordination_geometry_symmetry_measures_separation_plane self cg sepplane tested
    points_perfect g = Ok (r, tested', g') →
  entries_scored self points_perfect r.
Proof.
  unfold coordination_geometry_symmetry_measures_separation_plane.
  destruct (npoints_loop _ _ _ _ _ _) as [st|] eqn:Hloop; simpl; [|done].
  apply npoints_loop_scored in Hloop; [|by constructor].
  destruct (decide (nplanes st = 0)).
  - destruct (coordination_geometry_symmetry_measures_fallback_random _ _ _ _ _)
      as [[r1 g1]|] eqn:Hfb; simpl; [|done].
    intros [= <- _ _]. apply fallback_entries_scored in Hfb; [done|by constructor].
  - by intros [= <- _ _].
Qed.

(** The explicit strategy run on a list that contains every permutation the
    separation-plane search returns is never worse than that search, when
    none of its measures is [nan]. *)
Lemma explicit_matching_not_worse (self : LocalGeometryFinder) (cg : CoordinationGeometry)
    (permutations : list permutation_list) (str_algo : string)
    (sepplane : SeparationPlane) (tested : tested_set) (points_perfect : list Point)
    (g : rng) (rE rS : cgsm) tested' g' (mE mS : npfloat) :
  coordination_geometry_symmetry_measures_standard self cg permutations str_algo
    points_perfect = Ok rE →
  coordination_geometry_symmetry_measures_separation_plane self cg sepplane tested
    points_perfect g = Ok (rS, tested', g') →
  Forall (λ perm, perm ∈ permutations) (cgsm_permutations rS) →
  NaN ∉ cgsm_csms rE →
  min_csm (cgsm_csms rE) = Ok mE → min_csm (cgsm_csms rS) = Ok mS →
  fleb mE mS = true.
Proof.
  intros HE HS Hin Hnan HmE HmS.
  pose proof (standard_entries_scored _ _ _ _ _ _ HE) as HscE.
  apply standard_maps_consistent in HE as [_ HpE].
  apply search_entries_scored in HS as HscS.
  apply (min_csm_least _ _ HmE Hnan).
  apply min_csm_elem in HmS. apply list_elem_of_lookup_1 in HmS as [k Hk].
  unfold entries_scored in HscS, HscE.
  destruct (Forall2_lookup_r _ _ _ _ _ HscS Hk) as (perm & Hperm & pd & Hpd & Hsm).
  rewrite list.Forall_forall in Hin.
  assert (Hmem : perm ∈ cgsm_permutations rE).
  { rewrite HpE. apply Hin. by eapply list_elem_of_lookup_2. }
  apply list_elem_of_lookup_1 in Hmem as [j Hj].
  destruct (Forall2_lookup_l _ _ _ _ _ HscE Hj) as (e & He & pd' & Hpd' & Hsm').
  rewrite Hpd in Hpd'. injection Hpd' as <-. rewrite Hsm in Hsm'. injection Hsm' as <-.
  by eapply list_elem_of_lookup_2.
Qed.

(** *** A plane that is accepted but brings no new permutation *)



(** *** The random fallback *)


End MeasuresReturned.

(** * Further properties of the alignment, the geometries and the finder *)

Lemma py_index_drop_nil {A} (l : list A) (k : nat) :
  drop k l = [] → py_index l k = Raise IndexError.
Proof.
  intros Hd. unfold py_index. rewrite lookup_ge_None_2; [done|].
  apply (f_equal length) in Hd. rewrite length_drop in Hd. simpl in Hd. lia.
Qed.

Lemma py_index_app_l {A} (l extra : list A) (k : nat) :
  k < length l → py_index (l ++ extra) k = py_index l k.
Proof. intros Hk. unfold py_index. by rewrite lookup_app_l. Qed.

Lemma for_enumerate_ext {A St} (f g : St → nat → A → result St)
    (k : nat) (l : list A) (st : St) :
  (∀ st i x, k ≤ i < k + length l → f st i x = g st i x) →
  for_enumerate f k l st = for_enumerate g k l st.
Proof.
  revert k st. induction l as [|x l IH]; intros k st Hfg; simpl; [done|].
  rewrite Hfg by (simpl; lia). destruct (g st k x) as [st'|]; simpl; [|done].
  apply IH. intros st1 i y Hi. apply Hfg. simpl. lia.
Qed.

Section AlignmentBounds.
Context {linalg : NumpyLinalg}.

Lemma isexact_loop_short (d p rest : list Point) (k : nat) :
  drop k p = rest → length rest < length d →
  isexact_loop k d p = Raise IndexError ∨ isexact_loop k d p = Ok false.
Proof.
  revert k rest. induction d as [|x d IH]; intros k rest Hd Hl; simpl in *; [lia|].
  destruct rest as [|q rest].
  - rewrite py_index_drop_nil by done. by left.
  - destruct (py_index_drop _ _ _ _ Hd) as [-> Hd']. simpl.
    destruct (np_allclose x q); [|by right].
    apply (IH (S k) rest); [done|]. simpl in Hl. lia.
Qed.

Lemma outer_product_loop_short (d p rest : list Point) (k : nat) (H0 : Matrix) :
  drop k p = rest → length rest < length d →
  for_enumerate (λ H ip pp, q ← py_index p ip; Ok (madd H (vectorsToMatrix pp q)))
    k d H0 = Raise IndexError.
Proof.
  revert k rest H0. induction d as [|x d IH]; intros k rest H0 Hd Hl; simpl in *; [lia|].
  destruct rest as [|q rest].
  - by rewrite py_index_drop_nil.
  - destruct (py_index_drop _ _ _ _ Hd) as [-> Hd']. simpl.
    apply (IH (S k) rest); [done|]. simpl in Hl. lia.
Qed.

Lemma find_rotation_short (d p : list Point) :
  length p < length d → find_rotation d p = Raise IndexError.
Proof.
  intros Hl. unfold find_rotation.
  destruct (isexact_loop_short d p p 0) as [-> | ->]; [done|done|done|]. simpl.
  by rewrite (outer_product_loop_short d p p 0).
Qed.

Lemma scaling_terms_loop_short (rotated p rest : list Point) (k : nat) (acc : list npfloat) :
  drop k p = rest → length rest < length rotated →
  for_enumerate (λ acc ii rc, q ← py_index p ii; Ok (acc ++ [vdot rc q]))
    k rotated acc = Raise IndexError.
Proof.
  revert k rest acc. induction rotated as [|rc rotated IH]; intros k rest acc Hd Hl;
    simpl in *; [lia|].
  destruct rest as [|q rest].
  - by rewrite py_index_drop_nil.
  - destruct (py_index_drop _ _ _ _ Hd) as [-> Hd']. simpl.
    apply (IH (S k) rest); [done|]. simpl in Hl. lia.
Qed.

Lemma find_scaling_factor_short (d p : list Point) (R : Matrix) :
  length p < length d → find_scaling_factor d p R = Raise IndexError.
Proof.
  intros Hl. unfold find_scaling_factor.
  rewrite (scaling_terms_loop_short _ p p 0 []); [done|done|].
  unfold rotateCoords. by rewrite length_fmap.
Qed.

Lemma symmetry_measure_loop_short (s : npfloat) (p done todo : list Point)
    (num denom : npfloat) :
  length todo < length p →
  for_enumerate (symmetry_measure_body s) (length done) p (done ++ todo, num, denom)
  = Raise IndexError.
Proof.
  revert done todo num denom.
  induction p as [|r p IH]; intros done todo num denom Hl; simpl in *; [lia|].
  destruct todo as [|x todo].
  - rewrite app_nil_r. unfold py_index. by rewrite lookup_ge_None_2.
  - rewrite py_index_middle. simpl.
    rewrite insert_app_r_alt, Nat.sub_diag by done. simpl.
    replace (done ++ vscale s x :: todo) with ((done ++ [vscale s x]) ++ todo)
      by (by rewrite <- app_assoc).
    replace (S (length done)) with (length (done ++ [vscale s x]))
      by (rewrite length_app; simpl; lia).
    apply IH. simpl in Hl. lia.
Qed.

Lemma symmetry_measure_reference_shorter (d p : list Point) :
  length d ≠ 1 → length p < length d → symmetry_measure d p = Raise IndexError.
Proof.
  intros H1 Hlt. unfold symmetry_measure. rewrite decide_False by done.
  by rewrite find_rotation_short.
Qed.

Lemma symmetry_measure_reference_longer (d p : list Point) :
  length d ≠ 1 → length d < length p →
  symmetry_measure d p = find_rotation d p ≫= λ _, Raise IndexError.
Proof.
  intros H1 Hlt. unfold symmetry_measure. rewrite decide_False by done.
  destruct (find_rotation d p) as [R|e]; simpl; [|done].
  rewrite find_scaling_factor_ok by lia. simpl.
  rewrite (symmetry_measure_loop_short _ p [] (rotateCoords d R)); [done|].
  unfold rotateCoords. rewrite length_fmap. lia.
Qed.

(** X1: when the two point lists differ in length and there is exactly one
    distorted point, [symmetry_measure] returns 0.0 without looking at the
    reference at all.  Otherwise it never returns: a reference shorter than
    the distorted list raises [IndexError]; with a longer reference the
    rotation is computed first and then [IndexError] is raised, unless the
    SVD failed to converge and raised [LinAlgError] before. *)
Theorem X1_symmetry_measure_length_mismatch (d p : list Point) :
  length d ≠ length p →
  (length d = 1 → symmetry_measure d p = Ok f64_zero) ∧
  (length d ≠ 1 → length p < length d → symmetry_measure d p = Raise IndexError) ∧
  (length d ≠ 1 → length d < length p →
     symmetry_measure d p = find_rotation d p ≫= λ _, Raise IndexError) ∧
  (length d ≠ 1 →
     symmetry_measure d p = Raise IndexError ∨ symmetry_measure d p = Raise LinAlgError).
Proof.
  intros Hne. split; [apply symmetry_measure_single|].
  split; [apply symmetry_measure_reference_shorter|].
  split; [apply symmetry_measure_reference_longer|].
  intros H1. destruct (decide (length p < length d)) as [Hlt|Hge].
  - left. by apply symmetry_measure_reference_shorter.
  - rewrite symmetry_measure_reference_longer by lia.
    destruct (find_rotation_cases d p) as [[R ->]| ->]; [lia|by left|by right].
Qed.

Lemma isexact_loop_prefix (d p extra : list Point) (k : nat) :
  k + length d ≤ length p →
  isexact_loop k d (p ++ extra) = isexact_loop k d p.
Proof.
  revert k. induction d as [|x d IH]; intros k Hl; simpl in *; [done|].
  rewrite py_index_app_l by lia.
  destruct (py_index p k) as [q|]; simpl; [|done].
  destruct (np_allclose x q); [|done]. apply IH. lia.
Qed.

Lemma find_rotation_prefix (d p extra : list Point) :
  length d ≤ length p → find_rotation d (p ++ extra) = find_rotation d p.
Proof.
  intros Hl. unfold find_rotation. rewrite isexact_loop_prefix by (simpl; lia).
  destruct (isexact_loop 0 d p) as [[]|]; simpl; [done| |done].
  rewrite (for_enumerate_ext _
             (λ H ip pp, q ← py_index p ip; Ok (madd H (vectorsToMatrix pp q)))); [done|].
  intros st i x Hi. by rewrite py_index_app_l by lia.
Qed.

Lemma find_scaling_factor_prefix (d p extra : list Point) (R : Matrix) :
  length d ≤ length p →
  find_scaling_factor d (p ++ extra) R = find_scaling_factor d p R.
Proof.
  intros Hl. unfold find_scaling_factor.
  rewrite (for_enumerate_ext _
             (λ acc ii rc, q ← py_index p ii; Ok (acc ++ [vdot rc q]))); [done|].
  intros st i x Hi. unfold rotateCoords in Hi. rewrite length_fmap in Hi.
  by rewrite py_index_app_l by lia.
Qed.

(** X2: [find_rotation] and [find_scaling_factor] index the reference list by
    the positions of the distorted list: a reference that is shorter than the
    distorted list makes both raise [IndexError], and reference points beyond
    the length of the distorted list are never read. *)
Theorem X2_alignment_reference_bounds (d p : list Point) (R : Matrix) :
  (length p < length d →
     find_rotation d p = Raise IndexError ∧
     find_scaling_factor d p R = Raise IndexError) ∧
  (length d ≤ length p →
     ∀ extra,
       find_rotation d (p ++ extra) = find_rotation d p ∧
       find_scaling_factor d (p ++ extra) R = find_scaling_factor d p R).
Proof.
  split.
  - intros Hl. split; [by apply find_rotation_short|by apply find_scaling_factor_short].
  - intros Hl extra.
    split; [by apply find_rotation_prefix|by apply find_scaling_factor_prefix].
Qed.

End AlignmentBounds.

(** * The centre of a constructed geometry *)

(** X6: [coords], the neighbours relative to the chosen centre, is one of
    the stored views when the central site is not included in the centroid:
    the one centred on the central site when the centre is the central site,
    the one centred on the centroid of the neighbours when the centre is that
    centroid.  When the central site is included, the centre adds the central
    site after the neighbours whereas the stored centroid adds it first, and
    the two lists can differ by rounding. *)
Theorem X6_coords_is_a_view :
  (∀ c X ct, ct = central_site_centering ∨ (ct = standard ∧ length X < 5) →
     ∃ geo, AbstractGeometry_init (Some c) X ct false = Ok geo ∧
            coords geo = _points_wocs_csc geo) ∧
  (∀ c X ct, ct = centroid ∨ (ct = standard ∧ 5 ≤ length X) →
     ∃ geo, AbstractGeometry_init (Some c) X ct false = Ok geo ∧
            coords geo = _points_wocs_ctwocc geo) ∧
  (∃ c X geo, AbstractGeometry_init (Some c) X centroid true = Ok geo ∧
              coords geo ≠ _points_wocs_ctwcc geo).
Proof.
  split; [|split].
  - intros c X ct Hct.
    assert (Hc : choose_centre (Some c) X ct false = Ok c).
    { destruct Hct as [->|[-> Hn]]; [done|]. unfold choose_centre. by rewrite decide_True. }
    unfold AbstractGeometry_init. cbn [array_of_central_site mbind result_bind].
    rewrite Hc. by eexists.
  - intros c X ct Hct.
    assert (Hc : choose_centre (Some c) X ct false = Ok (np_mean X)).
    { destruct Hct as [->|[-> Hn]]; [done|]. unfold choose_centre.
      by rewrite decide_False by lia. }
    unfold AbstractGeometry_init. cbn [array_of_central_site mbind result_bind].
    rewrite Hc. by eexists.
  - exists (mkPoint (f64_of_Z 9007199254740992) f64_zero f64_zero), [e1; e1].
    eexists. split; [reflexivity|]. vm_compute. discriminate.
Qed.

(** * The view accessors *)

Lemma mapM_py_index_ok {A} (view : list A) (perm : list nat) :
  Forall (λ i, i < length view) perm →
  ∃ l, mapM (py_index view) perm = Ok l ∧ length l = length perm ∧
       ∀ k i, perm !! k = Some i → l !! k = view !! i.
Proof.
  induction 1 as [|i perm Hi _ (l & Hl & Hlen & Hk)]; cbn [mapM].
  - exists []. split; [done|]. split; [done|]. intros k i Hk. by destruct k.
  - destruct (lookup_lt_is_Some_2 view i Hi) as [x Hx].
    assert (Hx' : py_index view i = Ok x) by (unfold py_index; by rewrite Hx).
    rewrite Hx'. simpl. rewrite Hl. simpl.
    exists (x :: l). split; [done|]. split; [simpl; lia|].
    intros [|k] j; simpl; [by intros [= <-]|apply Hk].
Qed.

Lemma mapM_py_index_raises {A} (view : list A) (perm : list nat) :
  Exists (λ i, length view ≤ i) perm → mapM (py_index view) perm = Raise IndexError.
Proof.
  induction 1 as [i perm Hi|i perm _ IH]; cbn [mapM].
  - assert (Hx : py_index view i = Raise IndexError)
      by (unfold py_index; by rewrite lookup_ge_None_2).
    by rewrite Hx.
  - rewrite IH. unfold py_index. by destruct (view !! i).
Qed.

Lemma mapM_py_index_seq {A} (view : list A) :
  mapM (py_index view) (seq 0 (length view)) = Ok view.
Proof.
  assert (Hgen : ∀ pre rest : list A,
            mapM (py_index (pre ++ rest)) (seq (length pre) (length rest)) = Ok rest).
  { intros pre rest. revert pre. induction rest as [|x rest IH]; intros pre; [done|].
    cbn [length seq mapM]. rewrite py_index_middle. simpl.
    replace (pre ++ x :: rest) with ((pre ++ [x]) ++ rest) by (by rewrite <- app_assoc).
    replace (S (length pre)) with (length (pre ++ [x])) by (rewrite length_app; simpl; lia).
    by rewrite IH. }
  apply (Hgen [] view).
Qed.

(** X8: the accessors of the views without the central site.  Without a
    permutation the stored list is returned; with a list of indices that are
    all in range, the result has one point per index, the k-th being the
    stored point at the k-th index; the indices [0 .. n-1] in order give the
    stored list back; an index out of range raises [IndexError]. *)
Theorem X8_neighbour_views_by_index acc stored (g : AbstractGeometry) (perm : list nat) :
  (acc, stored) ∈ neighbour_accessors →
  acc g None = Ok (stored g) ∧
  acc g (Some (seq 0 (length (stored g)))) = Ok (stored g) ∧
  (Forall (λ i, i < length (stored g)) perm →
     ∃ l, acc g (Some perm) = Ok l ∧ length l = length perm ∧
          ∀ k i, perm !! k = Some i → l !! k = stored g !! i) ∧
  (Exists (λ i, length (stored g) ≤ i) perm → acc g (Some perm) = Raise IndexError).
Proof.
  intros Hacc.
  assert (Hdef : acc g = permuted_view (stored g)).
  { unfold neighbour_accessors in Hacc.
    rewrite !elem_of_cons, elem_of_nil in Hacc.
    destruct Hacc as [[= -> ->]|[[= -> ->]|[[= -> ->]|[]]]]; reflexivity. }
  rewrite Hdef. unfold permuted_view.
  split; [done|]. split; [apply mapM_py_index_seq|].
  split; [apply mapM_py_index_ok|apply mapM_py_index_raises].
Qed.

Lemma mapM_py_index_cons {A} (x : A) (view : list A) (perm : list nat) :
  mapM (py_index (x :: view)) (S <$> perm) = mapM (py_index view) perm.
Proof.
  induction perm as [|i perm IH]; [done|]. cbn [fmap list_fmap mapM].
  change (py_index (x :: view) (S i)) with (py_index view i).
  destruct (py_index view i); simpl; [|done]. by rewrite IH.
Qed.

Lemma permuted_view_with_centre_cons (c0 : Point) (view : list Point)
    (permutation : option (list nat)) :
  permuted_view_with_centre (c0 :: view) permutation
  = cons c0 <$> permuted_view view permutation.
Proof.
  destruct permutation as [perm|]; [|done]. unfold permuted_view_with_centre, permuted_view.
  cbn [mapM]. change (py_index (c0 :: view) 0) with (Ok (A := Point) c0). simpl.
  rewrite mapM_py_index_cons. by destruct (mapM _ perm).
Qed.

(** X9: in a geometry built by the constructor, an accessor of a view with
    the central site returns the (centred) central site followed by what the
    accessor of the same view without the central site returns for the same
    permutation; it raises exactly when that one raises. *)
Theorem X9_central_site_stays_first wcs wocs (central : option Point)
    (bare_coords : list Point) (ct : centering) (incl : bool) (g : AbstractGeometry) :
  (wcs, wocs) ∈ central_site_accessors →
  AbstractGeometry_init central bare_coords ct incl = Ok g →
  ∃ c0, ∀ permutation, wcs g permutation = cons c0 <$> wocs g permutation.
Proof.
  intros Hacc. unfold AbstractGeometry_init.
  destruct central as [c|]; [|done]. cbn [array_of_central_site mbind result_bind].
  destruct (choose_centre _ _ ct incl) as [a|e]; [|done]. intros [= <-].
  unfold central_site_accessors in Hacc.
  rewrite !elem_of_cons, elem_of_nil in Hacc.
  destruct Hacc as [[= -> ->]|[[= -> ->]|[[= -> ->]|[]]]];
    eexists; intros permutation;
    unfold points_wcs_csc, points_wocs_csc, points_wcs_ctwcc, points_wocs_ctwcc,
      points_wcs_ctwocc, points_wocs_ctwocc; cbn [_points_wcs_csc _points_wocs_csc
      _points_wcs_ctwcc _points_wocs_ctwcc _points_wcs_ctwocc _points_wocs_ctwocc];
    cbn [fmap list_fmap]; apply permuted_view_with_centre_cons.
Qed.

(** * The index maps of an arbitrary index list *)

Lemma local2perfect_last (perm : list nat) (j i : nat) :
  local2perfect_of perm !! j = Some i ↔
  perm !! i = Some j ∧ ∀ i', i < i' → perm !! i' ≠ Some j.
Proof.
  revert i. induction perm as [|x perm IH] using rev_ind; intros i.
  - split; [done|]. by intros [? _].
  - unfold local2perfect_of. rewrite index_maps_snoc. cbn [fst snd].
    destruct (decide (x = j)) as [->|Hne].
    + rewrite lookup_insert_eq. split.
      * intros [= <-]. split; [by rewrite list_lookup_middle|].
        intros i' Hi'. rewrite lookup_ge_None_2; [done|]. rewrite length_app. simpl. lia.
      * intros [Hi Hlast]. f_equal.
        destruct (decide (i = length perm)) as [|Hi']; [done|].
        apply lookup_lt_Some in Hi as Hlt. rewrite length_app in Hlt. simpl in Hlt.
        destruct (Hlast (length perm)); [lia|]. by rewrite list_lookup_middle.
    + rewrite lookup_insert_ne by done. rewrite IH. split.
      * intros [Hi Hlast]. apply lookup_lt_Some in Hi as Hlt.
        split; [by rewrite lookup_app_l|].
        intros i' Hi'. destruct (decide (i' < length perm)).
        -- rewrite lookup_app_l by done. by apply Hlast.
        -- destruct (decide (i' = length perm)) as [->|].
           ++ rewrite list_lookup_middle by done. by intros [= ->].
           ++ rewrite lookup_ge_None_2; [done|]. rewrite length_app. simpl. lia.
      * intros [Hi Hlast].
        assert (Hlt : i < length perm).
        { apply lookup_lt_Some in Hi as Hlt. rewrite length_app in Hlt. simpl in Hlt.
          destruct (decide (i = length perm)) as [->|]; [|lia].
          rewrite list_lookup_middle in Hi by done. by injection Hi. }
        rewrite lookup_app_l in Hi by done. split; [done|].
        intros i' Hi' Hp. apply (Hlast i' Hi'). rewrite lookup_app_l; [done|].
        by eapply lookup_lt_Some.
Qed.

Lemma local2perfect_dom (perm : list nat) (j : nat) :
  is_Some (local2perfect_of perm !! j) ↔ j ∈ perm.
Proof.
  induction perm as [|x perm IH] using rev_ind.
  - split; [by intros [? ?]|by intros ?%elem_of_nil].
  - unfold local2perfect_of. rewrite index_maps_snoc. cbn [fst snd].
    rewrite elem_of_app, list_elem_of_singleton.
    destruct (decide (x = j)) as [->|Hne].
    + rewrite lookup_insert_eq. split; [by right|by eexists].
    + rewrite lookup_insert_ne by done. rewrite IH.
      split; [by left|]. by intros [?| ->].
Qed.

(** X10: the two index maps built from an arbitrary list of indices, repeated
    indices included.  [perfect2local] has the positions as keys and reads
    the list back; [local2perfect] has the indices that occur as keys and
    sends each to the last position at which it occurs. *)
Theorem X10_index_maps_of_any_list (perm : list nat) :
  (∀ i, perfect2local_of perm !! i = perm !! i) ∧
  (∀ j, is_Some (local2perfect_of perm !! j) ↔ j ∈ perm) ∧
  (∀ j i, local2perfect_of perm !! j = Some i ↔
          perm !! i = Some j ∧ ∀ i', i < i' → perm !! i' ≠ Some j).
Proof.
  split; [apply perfect2local_lookup|]. split; [apply local2perfect_dom|].
  apply local2perfect_last.
Qed.

Lemma well_shaped_empty : well_shaped cgsm_empty.
Proof. done. Qed.

Lemma well_shaped_extend (a b : cgsm) :
  well_shaped a → well_shaped b → well_shaped (cgsm_extend a b).
Proof.
  destruct a as [[[[c1 p1] a1] l1] q1], b as [[[[c2 p2] a2] l2] q2].
  unfold well_shaped, cgsm_permutations, cgsm_csms, cgsm_algos, cgsm_local2perfect_maps,
    cgsm_perfect2local_maps. simpl. rewrite !length_app. lia.
Qed.

Section FinderShape.
Context {linalg : NumpyLinalg} {utils : GeometryUtils} {random : NumpyRandom}.

(** *** The explicit strategy *)

Lemma standard_loop_shape (self : LocalGeometryFinder) (str_algo : string)
    (points_perfect : list Point) (perms : list (list nat)) (acc r : cgsm) :
  for_each
    (λ '(csms, perms, algos, l2ps, p2ls) perm,
       points_distorted ← points_wocs_ctwocc (local_geometry self) (Some perm);
       csm ← symmetry_measure points_distorted points_perfect;
       Ok (csms ++ [csm], perms ++ [perm], algos ++ [str_algo],
           l2ps ++ [local2perfect_of perm], p2ls ++ [perfect2local_of perm]))
    perms acc = Ok r →
  length (cgsm_csms r) = length (cgsm_csms acc) + length perms ∧
  cgsm_algos r = cgsm_algos acc ++ replicate (length perms) str_algo.
Proof.
  revert acc. induction perms as [|perm perms IH]; intros acc; simpl.
  - intros [= <-]. rewrite app_nil_r. split; [lia|done].
  - destruct acc as [[[[c p] a] l] q].
    destruct (points_wocs_ctwocc _ _) as [pd|]; simpl; [|done].
    destruct (symmetry_measure _ _) as [x|]; simpl; [|done].
    intros Hr. apply IH in Hr as [Hc Ha]. unfold cgsm_csms, cgsm_algos in *. simpl in *.
    rewrite Hc, Ha, length_app, <- app_assoc. simpl. split; [lia|done].
Qed.

Lemma standard_loop_ok (self : LocalGeometryFinder) (str_algo : string)
    (points_perfect : list Point) (perms : list (list nat)) (acc : cgsm) :
  points_perfect ≠ [] →
  Forall (λ perm, length perm = length points_perfect ∧
                  Forall (λ i, i < length (_points_wocs_ctwocc (local_geometry self))) perm)
         perms →
  (∀ perm pd, perm ∈ perms →
     points_wocs_ctwocc (local_geometry self) (Some perm) = Ok pd →
     rotation_found pd points_perfect) →
  ∃ r, for_each
         (λ '(csms, perms, algos, l2ps, p2ls) perm,
            points_distorted ← points_wocs_ctwocc (local_geometry self) (Some perm);
            csm ← symmetry_measure points_distorted points_perfect;
            Ok (csms ++ [csm], perms ++ [perm], algos ++ [str_algo],
                l2ps ++ [local2perfect_of perm], p2ls ++ [perfect2local_of perm]))
         perms acc = Ok r.
Proof.
  intros Hne Hwf. revert acc.
  induction Hwf as [|perm perms [Hlen Hidx] _ IH]; intros acc Hrot; simpl.
  - by eexists.
  - destruct acc as [[[[c p] a] l] q].
    destruct (mapM_py_index_ok _ perm Hidx) as (pd & Hpd & Hpdlen & _).
    assert (Hview : points_wocs_ctwocc (local_geometry self) (Some perm) = Ok pd) by done.
    rewrite Hview. simpl.
    destruct (symmetry_measure_ok pd points_perfect) as [x ->].
    { lia. }
    { destruct pd; [|done]. destruct points_perfect; [done|]. simpl in *. lia. }
    { intros _. apply (Hrot perm); [by left|done]. }
    simpl. apply IH. intros perm' pd' Hin. apply Hrot. by right.
Qed.

(** X11: the explicit-permutations strategy returns one measure per
    catalogue permutation: the permutations come back unchanged and in
    order, every entry is tagged with the string of the algorithm, and the
    index maps are those of the permutations.  It does return when the
    reference is not empty, every permutation has as many entries as the
    reference has points, each a valid index of a local point, and the
    rotation step returns for the points of every permutation. *)
Theorem X11_explicit_one_measure_per_permutation (self : LocalGeometryFinder)
    (cg : CoordinationGeometry) (permutations : list (list nat)) (str_algo : string)
    (points_perfect : list Point) :
  (∀ r, coordination_geometry_symmetry_measures_standard self cg permutations str_algo
          points_perfect = Ok r →
        cgsm_permutations r = permutations ∧
        length (cgsm_csms r) = length permutations ∧
        cgsm_algos r = replicate (length permutations) str_algo ∧
        cgsm_local2perfect_maps r = local2perfect_of <$> permutations ∧
        cgsm_perfect2local_maps r = perfect2local_of <$> permutations) ∧
  (points_perfect ≠ [] →
   Forall (λ perm, length perm = length points_perfect ∧
                   Forall (λ i, i < length (_points_wocs_ctwocc (local_geometry self))) perm)
          permutations →
   (∀ perm pd, perm ∈ permutations →
      points_wocs_ctwocc (local_geometry self) (Some perm) = Ok pd →
      rotation_found pd points_perfect) →
   ∃ r, coordination_geometry_symmetry_measures_standard self cg permutations str_algo
          points_perfect = Ok r).
Proof.
  split.
  - intros r Hr. pose proof (standard_maps_consistent _ _ _ _ _ _ Hr) as [Hmaps Hperms].
    apply standard_loop_shape in Hr as [Hc Ha].
    destruct r as [[[[c p] a] l] q].
    unfold cgsm_permutations, cgsm_csms, cgsm_algos, cgsm_local2perfect_maps,
      cgsm_perfect2local_maps in *. simpl in *. destruct Hmaps as [-> ->]. by subst.
  - intros Hne Hwf Hrot. by apply standard_loop_ok.
Qed.

Lemma standard_well_shaped (self : LocalGeometryFinder) (cg : CoordinationGeometry)
    (permutations : list (list nat)) (str_algo : string) (points_perfect : list Point)
    (r : cgsm) :
  coordination_geometry_symmetry_measures_standard self cg permutations str_algo
    points_perfect = Ok r → well_shaped r.
Proof.
  intros Hr. pose proof (standard_maps_consistent _ _ _ _ _ _ Hr) as [Hmaps Hperms].
  apply standard_loop_shape in Hr as [Hc Ha].
  destruct r as [[[[c p] a] l] q].
  unfold well_shaped, cgsm_permutations, cgsm_csms, cgsm_algos, cgsm_local2perfect_maps,
    cgsm_perfect2local_maps in *. simpl in *. destruct Hmaps as [-> ->]. subst.
  rewrite !length_fmap, length_replicate. lia.
Qed.

(** *** The random fallback *)

Lemma fallback_random_loop_shape (self : LocalGeometryFinder) (cg : CoordinationGeometry)
    (points_perfect : list Point) (n : nat) (g g' : rng) (acc r : cgsm) :
  fallback_random_loop self cg points_perfect n g acc = Ok (r, g') →
  ∃ r', r = cgsm_extend acc r' ∧ well_shaped r' ∧
        cgsm_algos r' = replicate n "APPROXIMATE_FALLBACK".
Proof.
  revert g acc. induction n as [|n IH]; intros g acc; simpl.
  - intros [= <- <-]. exists cgsm_empty. split; [|done].
    destruct acc as [[[[c p] a] l] q]. simpl. by rewrite !app_nil_r.
  - destruct (random_permutation _ g) as [perm g1].
    destruct (points_wocs_ctwocc _ _) as [pd|]; simpl; [|done].
    destruct (symmetry_measure _ _) as [x|]; simpl; [|done].
    intros Hr. apply IH in Hr as (r' & -> & Hw & Ha).
    exists (cgsm_extend ([x], [perm], ["APPROXIMATE_FALLBACK"],
                         [local2perfect_of perm], [perfect2local_of perm]) r').
    split; [by rewrite cgsm_extend_assoc|]. split.
    + by apply well_shaped_extend.
    + destruct r' as [[[[c p] a] l] q]. unfold cgsm_algos in *. simpl in *. by rewrite Ha.
Qed.

(** *** The separation-plane search *)

Lemma score_sep_perm_lengths (self : LocalGeometryFinder) (cg : CoordinationGeometry)
    (sepplane : SeparationPlane) (points_perfect : list Point) (separation_perm : list nat)
    (sep_perms : list (list nat)) st st' :
  for_each (score_sep_perm self cg sepplane points_perfect separation_perm) sep_perms st
  = Ok st' →
  length st.1.1 = length st.1.2 → length st'.1.1 = length st'.1.2.
Proof.
  intros Hfe H0. revert Hfe.
  apply (for_each_invariant
           (λ st : list (list nat) * list npfloat * option (gset (list nat)),
              length st.1.1 = length st.1.2)); [|done].
  intros [[p c] t] sep_perm stb Hst. unfold score_sep_perm.
  destruct (candidate_permutation _ _ _) as [pp|]; simpl; [|done].
  destruct (check_tested _ _ _) as [t1|]; [|by intros [= <-]].
  destruct (points_wocs_ctwocc _ _) as [pd|]; simpl; [|done].
  destruct (symmetry_measure _ _) as [x|]; simpl; [|done].
  intros [= <-]. simpl in *. rewrite !length_app. simpl. lia.
Qed.

Lemma tolerance_loop_shape (self : LocalGeometryFinder) (cg : CoordinationGeometry)
    (sepplane : SeparationPlane) (local_plane : Plane) (plane_separations : list _)
    (dist_tolerances : list Qc) (tested : option (gset (list nat)))
    (points_perfect : list Point) csms perms algos seps' tested' :
  tolerance_loop self cg sepplane local_plane plane_separations dist_tolerances tested
    points_perfect = Ok (Some (csms, perms, algos), seps', tested') →
  length perms = length csms ∧ algos = replicate (length csms) SEPARATION_PLANE.
Proof.
  induction dist_tolerances as [|tol tols IH]; simpl; [done|].
  destruct (accept_separation _ _ _) as [this_separation|]; [|done].
  destruct (separation_permutation _ _ _ _) as [separation_perm|]; simpl; [|done].
  destruct (for_each _ _ _) as [[[perms1 csms1] tested1]|] eqn:Hfe; simpl; [|done].
  apply score_sep_perm_lengths in Hfe; [|done]. simpl in Hfe.
  destruct (decide (0 < length csms1)) as [Hpos|Hzero]; intros [= <- <- <- _ _].
  - by rewrite Hfe.
  - split; [done|]. destruct csms1; [done|]. simpl in Hzero. lia.
Qed.

Lemma record_plane_well_shaped (st : SearchState) r :
  well_shaped (found st) →
  (∀ csms perms algos, r.1.1 = Some (csms, perms, algos) →
     length perms = length csms ∧ length algos = length csms) →
  well_shaped (found (record_plane st r)).
Proof.
  intros Hst Hr. destruct r as [[[[[csm perm] algo]|] seps] tested]; simpl; [|done].
  apply well_shaped_extend; [done|].
  destruct (Hr csm perm algo eq_refl) as [Hp Ha].
  unfold well_shaped, cgsm_permutations, cgsm_csms, cgsm_algos, cgsm_local2perfect_maps,
    cgsm_perfect2local_maps. simpl. rewrite !length_fmap. lia.
Qed.

Lemma npoints_loop_well_shaped (self : LocalGeometryFinder) (cg : CoordinationGeometry)
    (sepplane : SeparationPlane) (points_perfect : list Point)
    (npoints_values : list nat) (st0 st : SearchState) :
  well_shaped (found st0) →
  npoints_loop self cg sepplane points_perfect npoints_values st0 = Ok st →
  well_shaped (found st).
Proof.
  revert st0. induction npoints_values as [|n ns IH]; intros st0 H0; simpl.
  - by intros [= <-].
  - destruct (for_each _ _ st0) as [st1|] eqn:Hfe; simpl; [|done].
    assert (H1 : well_shaped (found st1)).
    { revert Hfe. apply (for_each_invariant (λ st, well_shaped (found st))); [|done].
      intros sta combo stb Ha. unfold search_combination.
      destruct (plane_of_combination _ _ _) as [[plane|]|]; simpl; [| |done].
      - unfold _cg_csm_separation_plane, DIST_TOLERANCES.
        destruct (tolerance_loop _ _ _ _ _ _ _ _) as [[[r seps] t]|] eqn:Hloop;
          simpl; [|done].
        intros [= <-]. apply (record_plane_well_shaped sta (r, seps, t)); [done|]. simpl.
        intros csms perms algos ->.
        apply tolerance_loop_shape in Hloop as [Hp ->].
        by rewrite length_replicate.
      - by intros [= <-]. }
    destruct (decide (0 < nplanes st1)); [by intros [= <-]|]. by apply IH.
Qed.

Lemma search_well_shaped (self : LocalGeometryFinder) (cg : CoordinationGeometry)
    (sepplane : SeparationPlane) (tested : option (gset (list nat)))
    (points_perfect : list Point) (g : rng) (r : cgsm) tested' g' :
  coordination_geometry_symmetry_measures_separation_plane self cg sepplane tested
    points_perfect g = Ok (r, tested', g') →
  well_shaped r.
Proof.
  unfold coordination_geometry_symmetry_measures_separation_plane.
  destruct (npoints_loop _ _ _ _ _ _) as [st|] eqn:Hloop; simpl; [|done].
  apply npoints_loop_well_shaped in Hloop; [|done].
  destruct (decide (nplanes st = 0)).
  - destruct (coordination_geometry_symmetry_measures_fallback_random _ _ _ _ _)
      as [[r1 g1]|] eqn:Hfb; simpl; [|done].
    intros [= <- _ _]. apply fallback_random_loop_shape in Hfb as (r' & -> & Hw & _).
    by rewrite cgsm_extend_empty_l.
  - by intros [= <- _ _].
Qed.

Lemma algorithms_loop_well_shaped (self : LocalGeometryFinder) (cg : CoordinationGeometry)
    (points_perfect : list Point) (algos : list Algorithm) (acc : cgsm)
    (tested : option (gset (list nat))) (g : rng) (r : cgsm) (g' : rng) :
  well_shaped acc →
  algorithms_loop self cg points_perfect algos acc tested g = Ok (r, g') →
  well_shaped r.
Proof.
  revert acc tested g. induction algos as [|algo algos IH]; intros acc tested g Hacc; simpl.
  - by intros [= <- _].
  - destruct (decide (algorithm_type algo = EXPLICIT_PERMUTATIONS)).
    { destruct algo as [perms str| |]; [|done..].
      destruct (coordination_geometry_symmetry_measures_standard _ _ _ _ _) as [r1|] eqn:Hs;
        simpl; [|done].
      intros [= <- _]. by eapply standard_well_shaped. }
    destruct (decide (algorithm_type algo = SEPARATION_PLANE)); [|by apply IH].
    destruct algo as [|sepplane|]; [done| |done].
    destruct (coordination_geometry_symmetry_measures_separation_plane _ _ _ _ _ _)
      as [[[r1 t1] g1]|] eqn:Hs; simpl; [|done].
    apply IH. apply well_shaped_extend; [done|]. by eapply search_well_shaped.
Qed.

Lemma dispatcher_well_shaped (self : LocalGeometryFinder) (cg : CoordinationGeometry)
    (tested : option (gset (list nat))) (points_perfect : list Point) (g g' : rng)
    (r : cgsm) :
  coordination_geometry_symmetry_measures self cg tested points_perfect g
  = Ok (FiveLists r, g') →
  well_shaped r ∧ permutations_safe_override self = false ∧ is_Some (algorithms cg).
Proof.
  unfold coordination_geometry_symmetry_measures.
  destruct (permutations_safe_override self).
  { destruct (coordination_geometry_symmetry_measures_safe_override _ _); simpl;
      intros [=]. }
  destruct (algorithms cg) as [algos|]; [|done].
  destruct (algorithms_loop _ _ _ _ _ _ _) as [[r1 g1]|] eqn:Hloop; simpl; [|done].
  intros [= <- _]. split; [|done].
  eapply algorithms_loop_well_shaped; [|exact Hloop]. done.
Qed.

(** X12: whatever strategies ran, the five lists the dispatcher returns have
    the same length, so the position of the smallest measure is a valid
    index into each of them: when the reference geometry can be built and
    the dispatcher returns its five lists, recording the best match without
    the additional measures does not raise. *)
Theorem X12_five_lists_of_equal_length (self : LocalGeometryFinder)
    (geometry : CoordinationGeometry) (perfect_geometry : AbstractGeometry)
    (result_dict : gmap string ResultEntry) (g g' : rng) (r : cgsm) :
  AbstractGeometry_init (get_central_site geometry) (points geometry)
    (self_centering_type self) (self_include_central_site_in_centroid self)
  = Ok perfect_geometry →
  coordination_geometry_symmetry_measures self geometry None
    (_points_wocs_ctwocc perfect_geometry) g = Ok (FiveLists r, g') →
  well_shaped r ∧
  ∃ result_dict', match_geometry self false (result_dict, g) geometry = Ok (result_dict', g').
Proof.
  intros Hpg Hcg. destruct (dispatcher_well_shaped _ _ _ _ _ _ _ Hcg) as (Hw & _ & [algos Halgos]).
  split; [done|]. unfold match_geometry. rewrite Hpg. simpl.
  unfold points_wocs_ctwocc, permuted_view. simpl. rewrite Hcg. simpl.
  destruct r as [[[[c p] a] l] q].
  unfold well_shaped, cgsm_permutations, cgsm_csms, cgsm_algos, cgsm_local2perfect_maps,
    cgsm_perfect2local_maps in Hw. simpl in Hw. destruct Hw as (Hp & Ha & Hl & Hq).
  destruct (decide (0 < length c)) as [Hpos|]; [|by eexists].
  destruct (np_argmin_lt c) as (imin & -> & Hlt); [by destruct c; simpl in *; [lia|]|].
  simpl. rewrite Halgos.
  assert (Hidx : ∀ A (L : list A), length L = length c → ∃ x, py_index L imin = Ok x).
  { intros A L HL. unfold py_index.
    destruct (lookup_lt_is_Some_2 L imin) as [x ->]; [lia|]. by eexists. }
  destruct (Hidx _ a Ha) as [x1 ->]. destruct (Hidx _ c eq_refl) as [x2 ->].
  destruct (Hidx _ p Hp) as [x3 ->]. destruct (Hidx _ l Hl) as [x4 ->].
  destruct (Hidx _ q Hq) as [x5 ->]. simpl. by eexists.
Qed.

End FinderShape.

Section FinderSearch.
Context {linalg : NumpyLinalg} {utils : GeometryUtils} {random : NumpyRandom}.

(** *** The dispatcher and the explicit algorithm *)

Lemma algorithms_loop_explicit (self : LocalGeometryFinder) (cg : CoordinationGeometry)
    (points_perfect : list Point) (pre : list Algorithm) (permutations : list (list nat))
    (str_algo : string) (rest : list Algorithm) (acc : cgsm)
    (tested : option (gset (list nat))) (g : rng) :
  Forall (λ algo, algorithm_type algo ≠ EXPLICIT_PERMUTATIONS) pre →
  algorithms_loop self cg points_perfect
    (pre ++ ExplicitPermutationsAlgorithm permutations str_algo :: rest) acc tested g
  = '(_, g') ← algorithms_loop self cg points_perfect pre acc tested g;
    r ← coordination_geometry_symmetry_measures_standard self cg permutations str_algo
          points_perfect;
    Ok (r, g').
Proof.
  intros Hpre. revert acc tested g.
  induction Hpre as [|algo pre Hne _ IH]; intros acc tested g; simpl.
  - by destruct (coordination_geometry_symmetry_measures_standard _ _ _ _ _).
  - rewrite !(decide_False (P := algorithm_type algo = EXPLICIT_PERMUTATIONS)) by done.
    destruct (decide (algorithm_type algo = SEPARATION_PLANE)); [|apply IH].
    destruct algo as [|sepplane|]; [done| |done].
    destruct (coordination_geometry_symmetry_measures_separation_plane _ _ _ _ _ _)
      as [[[r1 t1] g1]|]; simpl; [|done].
    apply IH.
Qed.

(** X13: the dispatcher returns as soon as it meets an explicit-permutations
    algorithm.  What the separation-plane algorithms listed before it found
    is dropped (only their use of the random source remains), and the
    algorithms listed after it are not looked at: the result is the result of
    the explicit strategy alone. *)
Theorem X13_explicit_algorithm_ends_the_dispatch (self : LocalGeometryFinder)
    (cg : CoordinationGeometry) (points_perfect : list Point) (pre : list Algorithm)
    (permutations : list (list nat)) (str_algo : string) (rest : list Algorithm)
    (acc : cgsm) (tested : option (gset (list nat))) (g : rng) :
  Forall (λ algo, algorithm_type algo ≠ EXPLICIT_PERMUTATIONS) pre →
  algorithms_loop self cg points_perfect
    (pre ++ ExplicitPermutationsAlgorithm permutations str_algo :: rest) acc tested g
  = '(_, g') ← algorithms_loop self cg points_perfect pre acc tested g;
    r ← coordination_geometry_symmetry_measures_standard self cg permutations str_algo
          points_perfect;
    Ok (r, g').
Proof. apply algorithms_loop_explicit. Qed.

(** *** Permutations already tested *)

Lemma score_sep_perm_dedup (self : LocalGeometryFinder) (cg : CoordinationGeometry)
    (sepplane : SeparationPlane) (points_perfect : list Point) (separation_perm : list nat)
    (sep_perms : list (list nat)) (t_in : gset (list nat)) perms csms tested' :
  is_Some (equivalent_indices cg) →
  for_each (score_sep_perm self cg sepplane points_perfect separation_perm) sep_perms
    ([], [], Some t_in) = Ok (perms, csms, tested') →
  NoDup (ref_permutation cg <$> perms) ∧
  (∀ p, p ∈ ref_permutation cg <$> perms → p ∉ t_in) ∧
  tested' = Some (t_in ∪ list_to_set (ref_permutation cg <$> perms)).
Proof.
  intros [eqv Heqv] Hfe. revert Hfe.
  apply (for_each_invariant
           (λ st : list (list nat) * list npfloat * option (gset (list nat)),
              NoDup (ref_permutation cg <$> st.1.1) ∧
              (∀ p, p ∈ ref_permutation cg <$> st.1.1 → p ∉ t_in) ∧
              st.2 = Some (t_in ∪ list_to_set (ref_permutation cg <$> st.1.1)))).
  - intros [[p c] t] sep_perm stb (Hnd & Hnew & Ht). simpl in *. subst t.
    unfold score_sep_perm.
    destruct (candidate_permutation _ _ _) as [pp|]; simpl; [|done].
    unfold check_tested. rewrite Heqv.
    destruct (decide (ref_permutation cg pp ∈ _)) as [Hin|Hnin]; [by intros [= <-]|].
    destruct (points_wocs_ctwocc _ _) as [pd|]; simpl; [|done].
    destruct (symmetry_measure _ _) as [x|]; simpl; [|done].
    intros [= <-]. simpl. rewrite fmap_app. simpl.
    apply not_elem_of_union in Hnin as [Hnin0 Hninp].
    rewrite elem_of_list_to_set in Hninp.
    split; [|split].
    + apply list.NoDup_app. split; [done|]. split; [|apply NoDup_singleton].
      intros y Hy ->%list_elem_of_singleton. done.
    + intros y [Hy| ->%list_elem_of_singleton]%elem_of_app; [by apply Hnew|done].
    + f_equal. rewrite list_to_set_app_L. simpl.
      rewrite (right_id_L ∅ (∪)), (comm_L (∪) {[_]}). by rewrite !(assoc_L (∪)).
  - simpl. split; [constructor|]. split; [by intros p ?%elem_of_nil|].
    f_equal. by rewrite (right_id_L ∅ (∪)).
Qed.

Lemma score_sep_perm_untested (self : LocalGeometryFinder) (cg : CoordinationGeometry)
    (sepplane : SeparationPlane) (points_perfect : list Point) (separation_perm : list nat)
    (sep_perms : list (list nat)) (tested : option (gset (list nat))) perms csms tested' :
  equivalent_indices cg = None ∨ tested = None →
  for_each (score_sep_perm self cg sepplane points_perfect separation_perm) sep_perms
    ([], [], tested) = Ok (perms, csms, tested') →
  tested' = tested.
Proof.
  intros Hoff Hfe. revert Hfe.
  apply (for_each_invariant
           (λ st : list (list nat) * list npfloat * option (gset (list nat)),
              st.2 = tested)); [|done].
  intros [[p c] t] sep_perm stb Ht. simpl in *. subst t. unfold score_sep_perm.
  destruct (candidate_permutation _ _ _) as [pp|]; simpl; [|done].
  assert (Hc : check_tested cg tested pp = Some tested).
  { unfold check_tested. destruct Hoff as [-> | ->]; [by destruct tested|done]. }
  rewrite Hc.
  destruct (points_wocs_ctwocc _ _) as [pd|]; simpl; [|done].
  destruct (symmetry_measure _ _) as [x|]; simpl; [|done].
  by intros [= <-].
Qed.

Lemma tolerance_loop_dedup (self : LocalGeometryFinder) (cg : CoordinationGeometry)
    (sepplane : SeparationPlane) (local_plane : Plane) (plane_separations : list _)
    (dist_tolerances : list Qc) (t_in : gset (list nat))
    (points_perfect : list Point) res seps' tested' :
  is_Some (equivalent_indices cg) →
  tolerance_loop self cg sepplane local_plane plane_separations dist_tolerances
    (Some t_in) points_perfect = Ok (res, seps', tested') →
  match res with
  | Some (csms, perms, algos) =>
      NoDup (ref_permutation cg <$> perms) ∧
      (∀ p, p ∈ ref_permutation cg <$> perms → p ∉ t_in) ∧
      tested' = Some (t_in ∪ list_to_set (ref_permutation cg <$> perms))
  | None => tested' = Some t_in
  end.
Proof.
  intros Heqv. induction dist_tolerances as [|tol tols IH]; simpl; [by intros [= <- _ <-]|].
  destruct (accept_separation _ _ _) as [this_separation|]; [|done].
  destruct (separation_permutation _ _ _ _) as [separation_perm|]; simpl; [|done].
  destruct (for_each _ _ _) as [[[perms1 csms1] tested1]|] eqn:Hfe; simpl; [|done].
  apply score_sep_perm_dedup in Hfe; [|done].
  destruct (decide (0 < length csms1)); by intros [= <- _ <-].
Qed.

Lemma npoints_loop_dedup (self : LocalGeometryFinder) (cg : CoordinationGeometry)
    (sepplane : SeparationPlane) (points_perfect : list Point) (t0 : gset (list nat))
    (npoints_values : list nat) (st0 st : SearchState) :
  is_Some (equivalent_indices cg) →
  (NoDup (canonical_forms cg (found st0)) ∧
   (∀ p, p ∈ canonical_forms cg (found st0) → p ∉ t0) ∧
   tested_permutations_of st0
   = Some (t0 ∪ list_to_set (canonical_forms cg (found st0)))) →
  npoints_loop self cg sepplane points_perfect npoints_values st0 = Ok st →
  NoDup (canonical_forms cg (found st)) ∧
  (∀ p, p ∈ canonical_forms cg (found st) → p ∉ t0) ∧
  tested_permutations_of st = Some (t0 ∪ list_to_set (canonical_forms cg (found st))).
Proof.
  intros Heqv. revert st0. induction npoints_values as [|n ns IH]; intros st0 H0; simpl.
  - by intros [= <-].
  - destruct (for_each _ _ st0) as [st1|] eqn:Hfe; simpl; [|done].
    assert (H1 : NoDup (canonical_forms cg (found st1)) ∧
                 (∀ p, p ∈ canonical_forms cg (found st1) → p ∉ t0) ∧
                 tested_permutations_of st1
                 = Some (t0 ∪ list_to_set (canonical_forms cg (found st1)))).
    { revert Hfe.
      apply (for_each_invariant
               (λ st, NoDup (canonical_forms cg (found st)) ∧
                      (∀ p, p ∈ canonical_forms cg (found st) → p ∉ t0) ∧
                      tested_permutations_of st
                      = Some (t0 ∪ list_to_set (canonical_forms cg (found st)))));
        [|done].
      intros sta combo stb (Hnd & Hnew & Ht). unfold search_combination.
      destruct (plane_of_combination _ _ _) as [[plane|]|]; simpl; [| |done];
        [|by intros [= <-]].
      unfold _cg_csm_separation_plane, DIST_TOLERANCES. rewrite Ht.
      destruct (tolerance_loop _ _ _ _ _ _ _ _) as [[[res seps] t]|] eqn:Hloop;
        simpl; [|done].
      apply tolerance_loop_dedup in Hloop; [|done].
      intros [= <-]. destruct res as [[[csms perms] algos]|]; simpl; [|done].
      destruct Hloop as (Hnd' & Hnew' & ->).
      destruct (found sta) as [[[[c p] a] l] q].
      unfold canonical_forms, cgsm_permutations in *. simpl in *.
      rewrite fmap_app. split; [|split].
      - apply list.NoDup_app. split; [done|]. split; [|done].
        intros y Hy Hy'. apply (Hnew' y Hy'). apply elem_of_union. right.
        by apply elem_of_list_to_set.
      - intros y [Hy|Hy]%elem_of_app; [by apply Hnew|].
        specialize (Hnew' y Hy). intros Hy0. apply Hnew'. apply elem_of_union. by left.
      - f_equal. rewrite list_to_set_app_L. by rewrite (assoc_L (∪)). }
    destruct (decide (0 < nplanes st1)); [by intros [= <-]|]. by apply IH.
Qed.

Lemma fallback_tagged (self : LocalGeometryFinder) (cg : CoordinationGeometry)
    (points_perfect : list Point) (g g' : rng) (r : cgsm) :
  coordination_geometry_symmetry_measures_fallback_random self cg NRANDOM points_perfect g
  = Ok (r, g') →
  "APPROXIMATE_FALLBACK" ∈ cgsm_algos r.
Proof.
  intros Hfb. apply fallback_random_loop_shape in Hfb as (r' & -> & _ & Ha).
  rewrite cgsm_extend_empty_l, Ha. by left.
Qed.

(** X14: skipping of permutations already tested.  When the search is given a
    set of tested permutations and the polyhedron declares its equivalent
    indices, the set it hands back contains the one it was given; and unless
    the result is that of the random fallback, the canonical forms of the
    returned permutations are pairwise distinct, none of them was in the set
    given, and the set handed back is the set given together with exactly
    these canonical forms. *)
Theorem X14_search_skips_tested_permutations (self : LocalGeometryFinder)
    (cg : CoordinationGeometry) (sepplane : SeparationPlane) (t0 : gset (list nat))
    (points_perfect : list Point) (g g' : rng) (r : cgsm)
    (tested' : option (gset (list nat))) :
  is_Some (equivalent_indices cg) →
  coordination_geometry_symmetry_measures_separation_plane self cg sepplane (Some t0)
    points_perfect g = Ok (r, tested', g') →
  ∃ t1, tested' = Some t1 ∧ t0 ⊆ t1 ∧
        ("APPROXIMATE_FALLBACK" ∉ cgsm_algos r →
         NoDup (canonical_forms cg r) ∧
         (∀ p, p ∈ canonical_forms cg r → p ∉ t0) ∧
         t1 = t0 ∪ list_to_set (canonical_forms cg r)).
Proof.
  intros Heqv. unfold coordination_geometry_symmetry_measures_separation_plane.
  destruct (npoints_loop _ _ _ _ _ _) as [st|] eqn:Hloop; simpl; [|done].
  apply (npoints_loop_dedup _ _ _ _ t0) in Hloop as (Hnd & Hnew & Ht); [|done|].
  2:{ simpl. split; [constructor|]. split; [by intros p ?%elem_of_nil|].
      f_equal. unfold canonical_forms. simpl. by rewrite (right_id_L ∅ (∪)). }
  destruct (decide (nplanes st = 0)).
  - destruct (coordination_geometry_symmetry_measures_fallback_random _ _ _ _ _)
      as [[r1 g1]|] eqn:Hfb; simpl; [|done].
    intros [= <- <- _]. rewrite Ht. eexists. split; [done|]. split; [apply union_subseteq_l|].
    intros Hno. destruct Hno. by eapply fallback_tagged.
  - intros [= <- <- _]. rewrite Ht. eexists. split; [done|]. split; [apply union_subseteq_l|done].
Qed.

End FinderSearch.

Lemma combinations_nonempty {A} (r : nat) (l : list A) :
  r ≤ length l → ∃ c cs, combinations r l = c :: cs ∧ length c = r.
Proof.
  revert r. induction l as [|x l IH]; intros [|r] Hr; simpl in *; try lia.
  - by exists [], [].
  - by exists [], [].
  - destruct (IH r) as (c & cs & -> & Hc); [lia|]. csimpl.
    exists (x :: c). eexists. split; [done|]. simpl. lia.
Qed.

Lemma combinations_too_many {A} (r : nat) (l : list A) :
  length l < r → combinations r l = [].
Proof.
  revert r. induction l as [|x l IH]; intros [|r] Hr; simpl in *; try lia; [done|].
  rewrite !IH by lia. done.
Qed.

Section FinderEdges.
Context {linalg : NumpyLinalg} {utils : GeometryUtils} {random : NumpyRandom}.

(** X15: a separation-plane descriptor that asks for trial planes through
    fewer than two points makes the search raise [ValueError] ("Wrong number
    of points to initialize separation plane"), as soon as the site has that
    many neighbours and the range of [npoints] is not empty. *)
Theorem X15_fewer_than_two_plane_points (self : LocalGeometryFinder)
    (cg : CoordinationGeometry) (sepplane : SeparationPlane)
    (tested : option (gset (list nat))) (points_perfect : list Point) (g : rng) :
  minimum_number_of_points sepplane < 2 →
  minimum_number_of_points sepplane ≤ maximum_number_of_points sepplane →
  minimum_number_of_points sepplane ≤ length (coords (local_geometry self)) →
  coordination_geometry_symmetry_measures_separation_plane self cg sepplane tested
    points_perfect g = Raise ValueError.
Proof.
  intros Hmin Hmax Hlen.
  unfold coordination_geometry_symmetry_measures_separation_plane, npoints_range, py_range.
  set (m := minimum_number_of_points sepplane) in *.
  destruct (Nat.min (maximum_number_of_points sepplane) 4 + 1 - m) as [|k] eqn:Hk; [lia|].
  cbn [seq npoints_loop].
  destruct (combinations_nonempty m (coords (local_geometry self)) Hlen)
    as (c & cs & -> & Hc).
  cbn [for_each]. unfold search_combination, plane_of_combination.
  rewrite !decide_False by lia. done.
Qed.

Lemma npoints_loop_no_combination (self : LocalGeometryFinder) (cg : CoordinationGeometry)
    (sepplane : SeparationPlane) (points_perfect : list Point)
    (npoints_values : list nat) (st : SearchState) :
  nplanes st = 0 →
  Forall (λ npoints, length (coords (local_geometry self)) < npoints) npoints_values →
  npoints_loop self cg sepplane points_perfect npoints_values st = Ok st.
Proof.
  intros Hn. induction 1 as [|n ns Hlt _ IH]; simpl; [done|].
  rewrite combinations_too_many by done. simpl.
  rewrite decide_False by lia. done.
Qed.

(** X16: when the site has fewer neighbours than the smallest number of
    points a trial plane may go through, no plane is tried: the search
    returns the result of the random fallback and hands the tested set back
    unchanged. *)
Theorem X16_too_few_neighbours_for_a_plane (self : LocalGeometryFinder)
    (cg : CoordinationGeometry) (sepplane : SeparationPlane)
    (tested : option (gset (list nat))) (points_perfect : list Point) (g : rng) :
  length (coords (local_geometry self)) < minimum_number_of_points sepplane →
  coordination_geometry_symmetry_measures_separation_plane self cg sepplane tested
    points_perfect g
  = '(r, g') ← coordination_geometry_symmetry_measures_fallback_random self cg NRANDOM
                 points_perfect g;
    Ok (r, tested, g').
Proof.
  intros Hlt. unfold coordination_geometry_symmetry_measures_separation_plane.
  rewrite npoints_loop_no_combination; [done|done|].
  apply list.Forall_forall. intros k Hk%npoints_range_spec. lia.
Qed.

(** *** Planes found and separations recorded *)

Lemma tolerance_loop_separations (self : LocalGeometryFinder) (cg : CoordinationGeometry)
    (sepplane : SeparationPlane) (local_plane : Plane) (plane_separations : list _)
    (dist_tolerances : list Qc) (tested : option (gset (list nat)))
    (points_perfect : list Point) res seps' tested' :
  tolerance_loop self cg sepplane local_plane plane_separations dist_tolerances tested
    points_perfect = Ok (res, seps', tested') →
  match res with
  | Some _ => ∃ this_separation, seps' = plane_separations ++ [this_separation]
  | None => seps' = plane_separations
  end.
Proof.
  induction dist_tolerances as [|tol tols IH]; simpl; [by intros [= <- <- _]|].
  destruct (accept_separation _ _ _) as [this_separation|]; [|done].
  destruct (separation_permutation _ _ _ _) as [separation_perm|]; simpl; [|done].
  destruct (for_each _ _ _) as [[[perms1 csms1] tested1]|]; simpl; [|done].
  destruct (decide (0 < length csms1)); intros [= <- <- _]; by eexists.
Qed.

Lemma npoints_loop_counts (self : LocalGeometryFinder) (cg : CoordinationGeometry)
    (sepplane : SeparationPlane) (points_perfect : list Point)
    (npoints_values : list nat) (st0 st : SearchState) :
  nplanes st0 = length (plane_separations_of st0) →
  npoints_loop self cg sepplane points_perfect npoints_values st0 = Ok st →
  nplanes st = length (plane_separations_of st).
Proof.
  revert st0. induction npoints_values as [|n ns IH]; intros st0 H0; simpl.
  - by intros [= <-].
  - destruct (for_each _ _ st0) as [st1|] eqn:Hfe; simpl; [|done].
    assert (H1 : nplanes st1 = length (plane_separations_of st1)).
    { revert Hfe.
      apply (for_each_invariant (λ st, nplanes st = length (plane_separations_of st)));
        [|done].
      intros sta combo stb Ha. unfold search_combination.
      destruct (plane_of_combination _ _ _) as [[plane|]|]; simpl; [| |done];
        [|by intros [= <-]].
      unfold _cg_csm_separation_plane, DIST_TOLERANCES.
      destruct (tolerance_loop _ _ _ _ _ _ _ _) as [[[res seps] t]|] eqn:Hloop;
        simpl; [|done].
      apply tolerance_loop_separations in Hloop.
      intros [= <-]. destruct res as [[[csms perms] algos]|]; simpl.
      - destruct Hloop as [s ->]. rewrite length_app. simpl. lia.
      - by subst. }
    destruct (decide (0 < nplanes st1)); [by intros [= <-]|]. by apply IH.
Qed.

(** X17: throughout the search the number of planes found is the number of
    separations recorded: a trial plane either is rejected at every
    tolerance and records nothing, or is accepted at the first tolerance that
    fits and records exactly one separation. *)
Theorem X17_planes_found_are_separations_recorded (self : LocalGeometryFinder)
    (cg : CoordinationGeometry) (sepplane : SeparationPlane)
    (tested : option (gset (list nat))) (points_perfect : list Point) (st : SearchState) :
  npoints_loop self cg sepplane points_perfect (npoints_range sepplane)
    (initial_search_state tested) = Ok st →
  nplanes st = length (plane_separations_of st).
Proof. by apply npoints_loop_counts. Qed.

End FinderEdges.

(** [np.argmin] on a list without [nan], infinities included. *)

Section FinderResults.
Context {linalg : NumpyLinalg} {utils : GeometryUtils} {random : NumpyRandom}.

Lemma search_maps_consistent (self : LocalGeometryFinder) (cg : CoordinationGeometry)
    (sepplane : SeparationPlane) (tested : option (gset (list nat)))
    (points_perfect : list Point) (g : rng) (r : cgsm) tested' g' :
  coordination_geometry_symmetry_measures_separation_plane self cg sepplane tested
    points_perfect g = Ok (r, tested', g') →
  maps_consistent r.
Proof.
  unfold coordination_geometry_symmetry_measures_separation_plane.
  destruct (npoints_loop _ _ _ _ _ _) as [st|] eqn:Hloop; simpl; [|done].
  apply npoints_loop_consistent in Hloop; [|done].
  destruct (decide (nplanes st = 0)).
  - destruct (coordination_geometry_symmetry_measures_fallback_random _ _ _ _ _)
      as [[r1 g1]|] eqn:Hfb; simpl; [|done].
    intros [= <- _ _].
    by apply fallback_random_loop_consistent in Hfb as [? _].
  - by intros [= <- _ _].
Qed.

Lemma algorithms_loop_coherent (self : LocalGeometryFinder) (cg : CoordinationGeometry)
    (points_perfect : list Point) (algos : list Algorithm) (acc : cgsm)
    (tested : option (gset (list nat))) (g : rng) (r : cgsm) (g' : rng) :
  maps_consistent acc ∧ entries_scored self points_perfect acc →
  algorithms_loop self cg points_perfect algos acc tested g = Ok (r, g') →
  maps_consistent r ∧ entries_scored self points_perfect r.
Proof.
  revert acc tested g. induction algos as [|algo algos IH]; intros acc tested g Hacc; simpl.
  - by intros [= <- _].
  - destruct (decide (algorithm_type algo = EXPLICIT_PERMUTATIONS)).
    { destruct algo as [perms str| |]; [|done..].
      destruct (coordination_geometry_symmetry_measures_standard _ _ _ _ _) as [r1|] eqn:Hs;
        simpl; [|done].
      intros [= <- _]. split.
      - by apply standard_maps_consistent in Hs as [? _].
      - by eapply standard_entries_scored. }
    destruct (decide (algorithm_type algo = SEPARATION_PLANE)); [|by apply IH].
    destruct algo as [|sepplane|]; [done| |done].
    destruct (coordination_geometry_symmetry_measures_separation_plane _ _ _ _ _ _)
      as [[[r1 t1] g1]|] eqn:Hs; simpl; [|done].
    apply IH. destruct Hacc as [Hm Hsc]. split.
    + apply maps_consistent_extend; [done|]. by eapply search_maps_consistent.
    + apply entries_scored_extend; [done|]. by eapply search_entries_scored.
Qed.

Lemma dispatcher_coherent (self : LocalGeometryFinder) (cg : CoordinationGeometry)
    (tested : option (gset (list nat))) (points_perfect : list Point) (g g' : rng)
    (r : cgsm) :
  coordination_geometry_symmetry_measures self cg tested points_perfect g
  = Ok (FiveLists r, g') →
  maps_consistent r ∧ entries_scored self points_perfect r.
Proof.
  unfold coordination_geometry_symmetry_measures.
  destruct (permutations_safe_override self).
  { destruct (coordination_geometry_symmetry_measures_safe_override _ _); simpl;
      intros [=]. }
  destruct (algorithms cg) as [algos|]; [|done].
  destruct (algorithms_loop _ _ _ _ _ _ _) as [[r1 g1]|] eqn:Hloop; simpl; [|done].
  intros [= <- _]. eapply algorithms_loop_coherent; [|exact Hloop].
  split; [done|constructor].
Qed.

Lemma all_other_csms_first (self : LocalGeometryFinder) (pg : AbstractGeometry)
    (permutation : list nat) (csm_min : npfloat) (o : OtherCsms) :
  all_other_csms self pg permutation csm_min = Ok o → csm_wocs_ctwocc o = csm_min.
Proof.
  unfold all_other_csms.
  repeat match goal with
         | |- context [mbind _ ?m] =>
             let x := fresh in destruct m as [x|] eqn:?; simpl; [|done]
         end.
  by intros [= <-].
Qed.

Lemma match_geometry_coherent (self : LocalGeometryFinder) (all_csms : bool)
    (geometries : list CoordinationGeometry) (geometry : CoordinationGeometry)
    (d d' : gmap string ResultEntry) (g g' : rng) :
  geometry ∈ geometries →
  map_Forall (entry_coherent self geometries) d →
  match_geometry self all_csms (d, g) geometry = Ok (d', g') →
  map_Forall (entry_coherent self geometries) d'.
Proof.
  intros Hin Hd. unfold match_geometry.
  destruct (AbstractGeometry_init _ _ _ _) as [pg|] eqn:Hpg; simpl; [|done].
  unfold points_wocs_ctwocc, permuted_view. simpl.
  destruct (coordination_geometry_symmetry_measures _ _ _ _ _) as [[[r|] g1]|] eqn:Hcg;
    simpl; [|done..].
  apply dispatcher_coherent in Hcg as [Hmaps Hsc].
  destruct r as [[[[c p] a] l] q].
  destruct (decide (0 < length c)); [|by intros [= <- _]].
  destruct (np_argmin c) as [imin|]; simpl; [|done].
  destruct (match algorithms geometry with Some _ => _ | None => _ end) as [tag|];
    simpl; [|done].
  unfold py_index.
  destruct (c !! imin) as [x|] eqn:Hx; simpl; [|done].
  destruct (p !! imin) as [perm|] eqn:Hperm; simpl; [|done].
  destruct (l !! imin) as [l2p|] eqn:Hl2p; simpl; [|done].
  destruct (q !! imin) as [p2l|] eqn:Hp2l; simpl; [|done].
  destruct (if all_csms then _ else _) as [others|] eqn:Hothers; simpl; [|done].
  intros [= <- _]. apply map_Forall_insert_2; [|done].
  destruct Hmaps as [-> ->]. rewrite list_lookup_fmap, Hperm in Hl2p, Hp2l.
  injection Hl2p as <-. injection Hp2l as <-.
  split; [done|]. split; [done|]. split.
  - simpl. intros o ->. destruct all_csms; [|done].
    destruct (all_other_csms _ _ _ _) as [o'|] eqn:Ho; [|done].
    injection Hothers as <-. by eapply all_other_csms_first.
  - exists geometry, pg. split; [done|]. split; [done|]. split; [done|]. simpl.
    unfold entries_scored, cgsm_permutations, cgsm_csms in Hsc. simpl in Hsc.
    destruct (Forall2_lookup_l _ _ _ _ _ Hsc Hperm) as (y & Hy & Hscored).
    rewrite Hx in Hy. by injection Hy as <-.
Qed.

Lemma for_each_match_geometry_coherent (self : LocalGeometryFinder) (all_csms : bool)
    (geometries todo : list CoordinationGeometry)
    (d d' : gmap string ResultEntry) (g g' : rng) :
  todo ⊆ geometries →
  map_Forall (entry_coherent self geometries) d →
  for_each (match_geometry self all_csms) todo (d, g) = Ok (d', g') →
  map_Forall (entry_coherent self geometries) d'.
Proof.
  revert d g. induction todo as [|geometry todo IH]; intros d g Hsub Hd; cbn [for_each].
  - by intros [= <- _].
  - destruct (match_geometry _ _ _ _) as [[d1 g1]|] eqn:Hm; simpl; [|done].
    apply IH; [intros x Hx; apply Hsub; by right|].
    eapply match_geometry_coherent; [|done|exact Hm]. apply Hsub. by left.
Qed.

(** X18: every entry of the mapping returned by
    [get_coordination_symmetry_measures] is coherent: it is stored under the
    symbol of one of the polyhedra tested; its two maps are the index maps
    of its permutation; its measure is the one [symmetry_measure] gives for
    the local points taken in the order of that permutation against the
    reference points of the polyhedron; and when the additional measures are
    present, the one named [csm_wocs_ctwocc] equals the measure of the
    entry. *)
Theorem X18_result_entries_are_coherent (self : LocalGeometryFinder) (all_csms : bool)
    (g g' : rng) (result_dict : gmap string ResultEntry) (symbol : string)
    (e : ResultEntry) :
  get_coordination_symmetry_measures self all_csms g = Ok (result_dict, g') →
  result_dict !! symbol = Some e →
  entry_coherent self
    (get_implemented_geometries self (length (coords (local_geometry self)))) symbol e.
Proof.
  unfold get_coordination_symmetry_measures. intros Hfe He.
  eapply for_each_match_geometry_coherent in Hfe; [by apply Hfe|done|].
  apply map_Forall_empty.
Qed.

(** X19: which measure is recorded for a polyhedron.  When the reference
    geometry can be built and the dispatcher returns a non-empty list of
    measures, the entry recorded (without the additional measures) holds one
    of them: [nan] as soon as one of the measures is [nan], and otherwise a
    measure that is less than or equal to all of them. *)
Theorem X19_recorded_measure_is_argmin (self : LocalGeometryFinder)
    (geometry : CoordinationGeometry) (perfect_geometry : AbstractGeometry)
    (result_dict : gmap string ResultEntry) (g g' : rng) (r : cgsm) :
  AbstractGeometry_init (get_central_site geometry) (points geometry)
    (self_centering_type self) (self_include_central_site_in_centroid self)
  = Ok perfect_geometry →
  coordination_geometry_symmetry_measures self geometry None
    (_points_wocs_ctwocc perfect_geometry) g = Ok (FiveLists r, g') →
  cgsm_csms r ≠ [] →
  ∃ e, match_geometry self false (result_dict, g) geometry
       = Ok (<[mp_symbol geometry := e]> result_dict, g') ∧
       csm e ∈ cgsm_csms r ∧
       (NaN ∈ cgsm_csms r → csm e = NaN) ∧
       (NaN ∉ cgsm_csms r → ∀ x, x ∈ cgsm_csms r → fleb (csm e) x = true).
Proof.
  intros Hpg Hcg Hne.
  destruct (dispatcher_well_shaped _ _ _ _ _ _ _ Hcg) as (Hw & _ & [algos Halgos]).
  unfold match_geometry. rewrite Hpg. simpl.
  unfold points_wocs_ctwocc, permuted_view. simpl. rewrite Hcg. simpl.
  destruct r as [[[[c p] a] l] q].
  unfold well_shaped, cgsm_permutations, cgsm_csms, cgsm_algos, cgsm_local2perfect_maps,
    cgsm_perfect2local_maps in *. simpl in *. destruct Hw as (Hp & Ha & Hl & Hq).
  rewrite decide_True by (destruct c; simpl; [done|lia]).
  destruct (min_csm_selects c Hne) as (imin & m & -> & Hm & Hnan & Hleast).
  simpl. rewrite Halgos.
  assert (Hlt : imin < length c) by (by eapply lookup_lt_Some).
  assert (Hidx : ∀ A (L : list A), length L = length c → ∃ x, py_index L imin = Ok x).
  { intros A L HL. unfold py_index.
    destruct (lookup_lt_is_Some_2 L imin) as [x ->]; [lia|]. by eexists. }
  destruct (Hidx _ a Ha) as [x1 ->]. destruct (Hidx _ p Hp) as [x3 ->].
  destruct (Hidx _ l Hl) as [x4 ->]. destruct (Hidx _ q Hq) as [x5 ->].
  unfold py_index. rewrite Hm. simpl.
  eexists. split; [done|]. simpl. split; [by eapply list_elem_of_lookup_2|done].
Qed.

(** X20: a polyhedron whose [algorithms] attribute is [None] cannot be
    matched: the dispatcher iterates over the attribute (or, with the
    exhaustive override, fails earlier), so recording its best match always
    raises, and the branch that stores the whole list of tags for such a
    polyhedron is never taken. *)
Theorem X20_no_algorithms_always_raises (self : LocalGeometryFinder) (all_csms : bool)
    (st : gmap string ResultEntry * rng) (geometry : CoordinationGeometry) :
  algorithms geometry = None →
  ∃ e, match_geometry self all_csms st geometry = Raise e.
Proof.
  intros Hnone. destruct st as [d g]. unfold match_geometry.
  destruct (AbstractGeometry_init _ _ _ _) as [pg|]; simpl; [|by eexists].
  unfold coordination_geometry_symmetry_measures.
  destruct (permutations_safe_override self).
  - destruct (safe_override_raises self geometry) as [e ->]. by eexists.
  - rewrite Hnone. by eexists.
Qed.

(** *** [only_minimum=False] *)

Lemma for_each_match_geometry_all_dom (self : LocalGeometryFinder)
    (todo : list CoordinationGeometry) (d d' : gmap string cgsm) (g g' : rng) :
  for_each (match_geometry_all self) todo (d, g) = Ok (d', g') →
  dom d' = dom d ∪ list_to_set (mp_symbol <$> todo) ∧
  (map_Forall (λ _ r, well_shaped r ∧ maps_consistent r) d →
   map_Forall (λ _ r, well_shaped r ∧ maps_consistent r) d').
Proof.
  revert d g. induction todo as [|geometry todo IH]; intros d g; simpl.
  - intros [= <- _]. split; [by rewrite (right_id_L ∅ (∪))|done].
  - unfold match_geometry_all at 1.
    destruct (AbstractGeometry_init _ _ _ _) as [pg|]; simpl; [|done].
    unfold points_wocs_ctwocc, permuted_view. simpl.
    destruct (coordination_geometry_symmetry_measures _ _ _ _ _) as [[[r|] g1]|] eqn:Hcg;
      simpl; [|done..].
    intros Hfe. apply IH in Hfe as [Hdom Hall]. split.
    + rewrite Hdom, dom_insert_L. rewrite (comm_L (∪) {[_]} (dom d)). by rewrite (assoc_L (∪)).
    + intros Hd. apply Hall. apply map_Forall_insert_2; [|done]. split.
      * by apply dispatcher_well_shaped in Hcg as [? _].
      * by apply dispatcher_coherent in Hcg as [? _].
Qed.

(** X21: with [only_minimum=False] nothing is selected: when the call
    returns, every polyhedron tested has an entry, also one for which no
    permutation was tried, and each entry holds five lists of equal length
    whose maps are the index maps of the listed permutations. *)
Theorem X21_all_measures_of_every_polyhedron (self : LocalGeometryFinder) (g g' : rng)
    (result_dict : gmap string cgsm) :
  get_coordination_symmetry_measures_all self g = Ok (result_dict, g') →
  dom result_dict
  = list_to_set (mp_symbol <$> get_implemented_geometries self
                                 (length (coords (local_geometry self)))) ∧
  ∀ symbol r, result_dict !! symbol = Some r → well_shaped r ∧ maps_consistent r.
Proof.
  unfold get_coordination_symmetry_measures_all. intros Hfe.
  apply for_each_match_geometry_all_dom in Hfe as [Hdom Hall]. split.
  - rewrite Hdom, dom_empty_L. by rewrite (left_id_L ∅ (∪)).
  - intros symbol r Hr. apply (Hall (map_Forall_empty _) symbol r Hr).
Qed.

End FinderResults.

(** * Selection of the sites *)

Lemma any_atom_at_ok (species_symbols : list (list string)) (atoms : list string)
    (isite : nat) :
  isite < length species_symbols →
  ∃ b, any_atom_at species_symbols atoms isite = Ok b ∧
       (b = true ↔ has_one_of species_symbols atoms isite).
Proof.
  intros Hlt. destruct (lookup_lt_is_Some_2 _ _ Hlt) as [symbols Hs].
  unfold any_atom_at, has_one_of, py_index. rewrite Hs.
  destruct atoms as [|a atoms].
  - exists false. split; [done|]. split; [done|].
    by intros (? & ? & _ & ?%elem_of_nil & _).
  - eexists. split; [done|]. rewrite existsb_exists. split.
    + intros (x & Hx%list_elem_of_In & Hin%bool_decide_eq_true). by exists symbols, x.
    + intros (symbols' & x & [= <-] & Hx & Hin). exists x.
      split; [by apply list_elem_of_In|by apply bool_decide_eq_true].
Qed.

Lemma filter_comprehension_spec {A} (cond : A → result bool) (P : A → Prop) (l : list A) :
  (∀ x, x ∈ l → ∃ b, cond x = Ok b ∧ (b = true ↔ P x)) →
  ∃ l', filter_comprehension cond l = Ok l' ∧ l' `sublist_of` l ∧
        ∀ x, x ∈ l' ↔ x ∈ l ∧ P x.
Proof.
  induction l as [|x l IH]; intros Hc; simpl.
  - exists []. split; [done|]. split; [done|]. intros x. split; [by intros ?%elem_of_nil|].
    by intros [?%elem_of_nil _].
  - destruct (Hc x) as (b & -> & Hb); [by left|]. simpl.
    destruct IH as (l' & -> & Hsub & Hl'); [intros y Hy; apply Hc; by right|]. simpl.
    destruct b.
    + exists (x :: l'). split; [done|]. split; [by apply sublist_skip|].
      intros y. rewrite !elem_of_cons, Hl'. split.
      * intros [->|[? ?]]; [split; [by left|by apply Hb]|split; [by right|done]].
      * intros [[->|?] ?]; [by left|by right].
    + exists l'. split; [done|]. split; [by apply sublist_cons|].
      intros y. rewrite elem_of_cons, Hl'. split.
      * intros [? ?]. split; [by right|done].
      * intros [[->|?] HP]; [|done]. apply Hb in HP. done.
Qed.

(** X23: [only_indices] overrides every other filter.  When it is given
    (and the site indices are valid), the sites selected are the unequivalent
    sites listed in it, whatever [only_cations], [only_atoms] and
    [excluded_atoms] say: a site of negative valence or of an excluded
    element is selected as well. *)
Theorem X23_only_indices_overrides_the_filters (indices : list nat) (valences : Valences)
    (species_symbols : list (list string)) (only_cations : bool)
    (only_atoms excluded_atoms : option (list string)) (only : list nat) :
  Forall (λ isite, isite < length species_symbols) indices →
  (∀ vals, valences = valences_of vals → Forall (λ isite, isite < length vals) indices) →
  select_sites indices valences species_symbols only_cations only_atoms excluded_atoms
    (Some only)
  = Ok (filter (λ isite, isite ∈ only) indices).
Proof.
  intros Hsp Hval. unfold select_sites.
  assert (H1 : ∃ l1, match only_cations, valences with
                     | true, valences_of vals =>
                         filter_comprehension
                           (λ isite, v ← py_index vals isite; Ok (bool_decide (0 ≤ v)%Qc))
                           indices
                     | _, _ => Ok indices
                     end = Ok l1 ∧ l1 `sublist_of` indices).
  { destruct only_cations; [|by exists indices].
    destruct valences as [|vals]; [by exists indices|].
    destruct (filter_comprehension_spec
                (λ isite, v ← py_index vals isite; Ok (bool_decide (0 ≤ v)%Qc))
                (is_cation (valences_of vals)) indices) as (l1 & Hl1 & Hsub & _).
    - intros i Hi. specialize (Hval vals eq_refl).
      rewrite list.Forall_forall in Hval.
      destruct (lookup_lt_is_Some_2 vals i (Hval i Hi)) as [v Hv].
      unfold py_index. rewrite Hv. simpl. eexists. split; [done|].
      rewrite bool_decide_eq_true. unfold is_cation. split.
      + intros Hle vals' [= <-]. by exists v.
      + intros Hc. destruct (Hc vals eq_refl) as (v' & Hv' & Hle). congruence.
    - by exists l1. }
  destruct H1 as (l1 & -> & Hsub1). simpl.
  assert (Hin : ∀ l, l `sublist_of` indices →
                ∀ i, i ∈ l → i < length species_symbols).
  { intros l Hl i Hi. rewrite list.Forall_forall in Hsp. apply Hsp.
    by eapply elem_of_sublist. }
  assert (H2 : ∃ l2, match only_atoms with
                     | Some atoms =>
                         filter_comprehension (any_atom_at species_symbols atoms) l1
                     | None => Ok l1
                     end = Ok l2 ∧ l2 `sublist_of` indices).
  { destruct only_atoms as [atoms|]; [|by exists l1].
    destruct (filter_comprehension_spec (any_atom_at species_symbols atoms)
                (has_one_of species_symbols atoms) l1) as (l2 & Hl2 & Hsub & _).
    - intros i Hi. apply any_atom_at_ok. by eapply Hin.
    - exists l2. split; [done|]. by etrans. }
  destruct H2 as (l2 & -> & Hsub2). simpl.
  assert (H3 : ∃ l3, match excluded_atoms with
                     | Some ((_ :: _) as atoms) =>
                         filter_comprehension
                           (λ isite, negb <$> any_atom_at species_symbols atoms isite) l2
                     | _ => Ok l2
                     end = Ok l3).
  { destruct excluded_atoms as [[|a atoms]|]; [by exists l2| |by exists l2].
    destruct (filter_comprehension_spec
                (λ isite, negb <$> any_atom_at species_symbols (a :: atoms) isite)
                (λ isite, ¬ has_one_of species_symbols (a :: atoms) isite) l2)
      as (l3 & Hl3 & _).
    - intros i Hi.
      destruct (any_atom_at_ok species_symbols (a :: atoms) i) as (b & -> & Hb);
        [by eapply Hin|].
      exists (negb b). split; [done|]. rewrite <- Hb. by destruct b.
    - by exists l3. }
  destruct H3 as (l3 & ->). done.
Qed.

(** X24: without [only_indices] (and with valid site indices) the sites
    selected are, in the order of [indices], exactly those that pass every
    filter that is switched on: non-negative valence when [only_cations] is
    set and the valences are known, one of the elements of [only_atoms] when
    that list is given, and none of the elements of [excluded_atoms]. *)
Theorem X24_sites_selected_pass_every_filter (indices : list nat) (valences : Valences)
    (species_symbols : list (list string)) (only_cations : bool)
    (only_atoms excluded_atoms : option (list string)) :
  Forall (λ isite, isite < length species_symbols) indices →
  (∀ vals, valences = valences_of vals → Forall (λ isite, isite < length vals) indices) →
  ∃ sites_indices,
    select_sites indices valences species_symbols only_cations only_atoms excluded_atoms
      None = Ok sites_indices ∧
    sites_indices `sublist_of` indices ∧
    ∀ isite, isite ∈ sites_indices ↔
      isite ∈ indices ∧
      (only_cations = true → is_cation valences isite) ∧
      (∀ atoms, only_atoms = Some atoms → has_one_of species_symbols atoms isite) ∧
      (∀ atoms, excluded_atoms = Some atoms → ¬ has_one_of species_symbols atoms isite).
Proof.
  intros Hsp Hval. unfold select_sites.
  assert (H1 : ∃ l1, match only_cations, valences with
                     | true, valences_of vals =>
                         filter_comprehension
                           (λ isite, v ← py_index vals isite; Ok (bool_decide (0 ≤ v)%Qc))
                           indices
                     | _, _ => Ok indices
                     end = Ok l1 ∧ l1 `sublist_of` indices ∧
                     ∀ i, i ∈ l1 ↔ i ∈ indices ∧
                                   (only_cations = true → is_cation valences i)).
  { destruct only_cations.
    2:{ exists indices. split; [done|]. split; [done|]. intros i. split; [done|by intros [? _]]. }
    destruct valences as [|vals].
    { exists indices. split; [done|]. split; [done|]. intros i.
      split; [|by intros [? _]]. intros Hi. split; [done|]. by intros _ vals [=]. }
    destruct (filter_comprehension_spec
                (λ isite, v ← py_index vals isite; Ok (bool_decide (0 ≤ v)%Qc))
                (is_cation (valences_of vals)) indices) as (l1 & Hl1 & Hsub & Hmem).
    - intros i Hi. specialize (Hval vals eq_refl).
      rewrite list.Forall_forall in Hval.
      destruct (lookup_lt_is_Some_2 vals i (Hval i Hi)) as [v Hv].
      unfold py_index. rewrite Hv. simpl. eexists. split; [done|].
      rewrite bool_decide_eq_true. unfold is_cation. split.
      + intros Hle vals' [= <-]. by exists v.
      + intros Hc. destruct (Hc vals eq_refl) as (v' & Hv' & Hle). congruence.
    - exists l1. split; [done|]. split; [done|]. intros i. rewrite Hmem.
      split; intros [? Hc]; (split; [done|]); [by intros _|by apply Hc]. }
  destruct H1 as (l1 & -> & Hsub1 & Hmem1). simpl.
  assert (Hin : ∀ l, l `sublist_of` indices →
                ∀ i, i ∈ l → i < length species_symbols).
  { intros l Hl i Hi. rewrite list.Forall_forall in Hsp. apply Hsp.
    by eapply elem_of_sublist. }
  assert (H2 : ∃ l2, match only_atoms with
                     | Some atoms =>
                         filter_comprehension (any_atom_at species_symbols atoms) l1
                     | None => Ok l1
                     end = Ok l2 ∧ l2 `sublist_of` indices ∧
                     ∀ i, i ∈ l2 ↔ i ∈ l1 ∧
                       ∀ atoms, only_atoms = Some atoms →
                                has_one_of species_symbols atoms i).
  { destruct only_atoms as [atoms|].
    2:{ exists l1. split; [done|]. split; [done|]. intros i. split; [|by intros [? _]].
        intros Hi. split; [done|]. by intros atoms [=]. }
    destruct (filter_comprehension_spec (any_atom_at species_symbols atoms)
                (has_one_of species_symbols atoms) l1) as (l2 & Hl2 & Hsub & Hmem).
    - intros i Hi. apply any_atom_at_ok. by eapply Hin.
    - exists l2. split; [done|]. split; [by etrans|]. intros i. rewrite Hmem.
      split; intros [? Hc]; (split; [done|]); [by intros atoms' [= <-]|by apply Hc]. }
  destruct H2 as (l2 & -> & Hsub2 & Hmem2). simpl.
  assert (H3 : ∃ l3, match excluded_atoms with
                     | Some ((_ :: _) as atoms) =>
                         filter_comprehension
                           (λ isite, negb <$> any_atom_at species_symbols atoms isite) l2
                     | _ => Ok l2
                     end = Ok l3 ∧ l3 `sublist_of` indices ∧
                     ∀ i, i ∈ l3 ↔ i ∈ l2 ∧
                       ∀ atoms, excluded_atoms = Some atoms →
                                ¬ has_one_of species_symbols atoms i).
  { destruct excluded_atoms as [[|a atoms]|].
    - exists l2. split; [done|]. split; [done|]. intros i. split; [|by intros [? _]].
      intros Hi. split; [done|]. intros atoms [= <-].
      by intros (? & ? & _ & ?%elem_of_nil & _).
    - destruct (filter_comprehension_spec
                  (λ isite, negb <$> any_atom_at species_symbols (a :: atoms) isite)
                  (λ isite, ¬ has_one_of species_symbols (a :: atoms) isite) l2)
        as (l3 & Hl3 & Hsub & Hmem).
      + intros i Hi.
        destruct (any_atom_at_ok species_symbols (a :: atoms) i) as (b & -> & Hb);
          [by eapply Hin|].
        exists (negb b). split; [done|]. rewrite <- Hb. by destruct b.
      + exists l3. split; [done|]. split; [by etrans|]. intros i. rewrite Hmem.
        split; intros [? Hc]; (split; [done|]); [by intros atoms' [= <-]|by apply Hc].
    - exists l2. split; [done|]. split; [done|]. intros i. split; [|by intros [? _]].
      intros Hi. split; [done|]. by intros atoms [=]. }
  destruct H3 as (l3 & -> & Hsub3 & Hmem3). simpl.
  exists l3. split; [done|]. split; [done|].
  intros i. rewrite Hmem3, Hmem2, Hmem1. clear. tauto.
Qed.

(** * The unequivalent sites *)

Lemma for_enumerate_identity {A St} (body : St → nat → A → result St)
    (k0 : nat) (l : list A) (st : St) :
  (∀ i x, l !! (i - k0) = Some x → k0 ≤ i → body st i x = Ok st) →
  for_enumerate body k0 l st = Ok st.
Proof.
  revert k0. induction l as [|y l IH]; intros k0 Hid; simpl; [done|].
  rewrite Hid; [|by rewrite Nat.sub_diag|done]. simpl. apply IH.
  intros i x Hx Hi. apply Hid; [|lia].
  replace (i - k0) with (S (i - S k0)) by lia. done.
Qed.

Lemma for_enumerate_only_at {A St} (body : St → nat → A → result St)
    (c k0 : nat) (l : list A) (x : A) (st : St) :
  k0 ≤ c → l !! (c - k0) = Some x →
  (∀ st i y, l !! (i - k0) = Some y → k0 ≤ i → i ≠ c → body st i y = Ok st) →
  for_enumerate body k0 l st = body st c x.
Proof.
  revert k0. induction l as [|y l IH]; intros k0 Hc Hx Hid; simpl; [done|].
  destruct (decide (k0 = c)) as [->|Hne].
  - rewrite Nat.sub_diag in Hx. injection Hx as ->.
    destruct (body st c x) as [st'|]; simpl; [|done].
    apply for_enumerate_identity. intros i z Hz Hi.
    apply Hid; [|lia|lia]. replace (i - c) with (S (i - S c)) by lia. done.
  - rewrite Hid; [|by rewrite Nat.sub_diag|done|done]. simpl.
    apply IH; [lia| |].
    + replace (c - k0) with (S (c - S k0)) in Hx by lia. done.
    + intros st' i z Hz Hi Hic. apply Hid; [|lia|done].
      replace (i - k0) with (S (i - S k0)) by lia. done.
Qed.

Section SitesMapFacts.
Context {Site : Type} `{EqDecision Site}.

Lemma eqsites_loop (equivalent_sites : list (list Site)) (isite : nat) (site : Site)
    (c : nat) (st : SitesMapState) :
  c < length equivalent_sites →
  (∀ k eqsites, equivalent_sites !! k = Some eqsites → (site ∈ eqsites ↔ k = c)) →
  ∃ eqsites, equivalent_sites !! c = Some eqsites ∧ site ∈ eqsites ∧
    for_enumerate (eqsites_body isite site) 0 equivalent_sites st
    = eqsites_body isite site st c eqsites.
Proof.
  intros Hc Hcls. destruct (lookup_lt_is_Some_2 _ _ Hc) as [eqsites Heq].
  exists eqsites. split; [done|]. split; [by apply (Hcls c eqsites Heq)|].
  apply for_enumerate_only_at; [lia|by rewrite Nat.sub_0_r|].
  intros st' i y Hy _ Hic. rewrite Nat.sub_0_r in Hy. unfold eqsites_body.
  rewrite decide_False; [done|]. intros Hin. by apply (Hcls i y Hy) in Hin.
Qed.

Lemma py_setitem_ok {A} (l : list A) (i : nat) (v : A) :
  i < length l → py_setitem l i v = Ok (<[i := v]> l).
Proof. intros Hi. unfold py_setitem. by rewrite decide_True. Qed.

Lemma StronglySorted_snoc (l : list nat) (k : nat) :
  StronglySorted lt l → Forall (λ i, i < k) l → StronglySorted lt (l ++ [k]).
Proof.
  induction 1 as [|x l Hl IH Hx]; intros Hk; simpl.
  - repeat constructor.
  - inversion Hk as [|? ? Hxk Hlk]; subst. constructor; [by apply IH|].
    apply Forall_app. split; [done|]. by constructor.
Qed.

Lemma site_body_step (structure : list Site) (equivalent_sites : list (list Site))
    (class : Site → nat) (k : nat) (site : Site) (st : SitesMapState) :
  partitioned structure equivalent_sites class →
  structure !! k = Some site →
  sites_map_invariant structure equivalent_sites class k st →
  ∃ st', site_body equivalent_sites st k site = Ok st' ∧
         sites_map_invariant structure equivalent_sites class (S k) st'.
Proof.
  intros Hpart Hk (Hlm & Hls & Hle & Hfound & Hrep & Hdone & Hind & Hsorted & Hmy).
  assert (Hklt : k < length structure) by (by eapply lookup_lt_Some).
  destruct (Hpart site) as [Hc Hcls]; [by eapply list_elem_of_lookup_2|].
  destruct (eqsites_loop equivalent_sites k site (class site) st Hc Hcls)
    as (eqsites & Heq & Hin & Hloop).
  unfold site_body. rewrite Hloop. unfold eqsites_body.
  rewrite decide_True by done.
  destruct (decide (class site ∈ ind_eqsites_found st)) as [Hseen|Hnew].
  - (* the class was met before *)
    destruct (Hrep _ Hseen) as (j & Hj & Hjk & Hfirst).
    unfold py_index. rewrite Hj. simpl.
    repeat (rewrite py_setitem_ok by (simpl; lia); simpl).
    eexists. split; [done|]. unfold sites_map_invariant. simpl.
    rewrite !length_insert. split_and!; try done.
    + intros c. rewrite Hfound. split.
      * intros (j' & s' & ? & ? & ?). exists j', s'. split; [lia|done].
      * intros (j' & s' & Hj' & Hs' & Hcs').
        destruct (decide (j' = k)) as [->|].
        -- rewrite Hk in Hs'. injection Hs' as <-. subst c. by apply Hfound.
        -- exists j', s'. split; [lia|done].
    + intros c Hcin. destruct (Hrep c Hcin) as (j' & ? & ? & ?).
      exists j'. split; [done|]. split; [lia|done].
    + intros i s Hi Hs. destruct (decide (i = k)) as [->|Hik].
      * rewrite Hk in Hs. injection Hs as <-.
        rewrite !list_lookup_insert_eq by lia. split; [done|].
        exists j. split; [done|]. split; [lia|done].
      * rewrite !list_lookup_insert_ne by done. apply Hdone; [lia|done].
    + intros i. rewrite Hind. split.
      * intros [? ?]. split; [lia|done].
      * intros [Hi (s & Hs & Hf)]. split; [|by exists s].
        destruct (decide (i = k)) as [->|]; [|lia].
        rewrite Hk in Hs. injection Hs as <-.
        destruct Hfirst as [(sj & Hsj & Hcj) _]. destruct Hf as [_ Hf].
        by destruct (Hf j sj Hjk Hsj).
  - (* first site of its class *)
    repeat (rewrite py_setitem_ok by (simpl; lia); simpl).
    assert (Hfirst : first_of_class structure class (class site) k).
    { split; [by exists site|]. intros j' s' Hj' Hs' Hcs'. apply Hnew, Hfound.
      by exists j', s'. }
    eexists. split; [done|]. unfold sites_map_invariant. simpl.
    rewrite !length_insert. split_and!; try done.
    + intros c. rewrite elem_of_app, list_elem_of_singleton, Hfound. split.
      * intros [(j' & s' & ? & ? & ?)| ->]; [exists j', s'|exists k, site];
          (split; [lia|done]).
      * intros (j' & s' & Hj' & Hs' & Hcs').
        destruct (decide (j' = k)) as [->|].
        -- rewrite Hk in Hs'. injection Hs' as <-. by right.
        -- left. exists j', s'. split; [lia|done].
    + intros c [Hcin| ->%list_elem_of_singleton]%elem_of_app.
      * destruct (Hrep c Hcin) as (j' & Hj' & ? & ?).
        exists j'. split; [|split; [lia|done]].
        rewrite list_lookup_insert_ne; [done|]. by intros <-.
      * exists k. split; [|split; [lia|done]].
        by rewrite list_lookup_insert_eq by lia.
    + intros i s Hi Hs. destruct (decide (i = k)) as [->|Hik].
      * rewrite Hk in Hs. injection Hs as <-.
        rewrite !list_lookup_insert_eq by lia. split; [done|].
        exists k. split; [done|]. split; [lia|done].
      * rewrite !list_lookup_insert_ne by done. apply Hdone; [lia|done].
    + intros i. rewrite elem_of_app, list_elem_of_singleton, Hind. split.
      * intros [[? ?]| ->]; [split; [lia|done]|]. split; [lia|by exists site].
      * intros [Hi Hs]. destruct (decide (i = k)) as [->|]; [by right|].
        left. split; [lia|done].
    + apply StronglySorted_snoc; [done|]. apply list.Forall_forall.
      intros i Hi. by apply Hind in Hi as [? _].
Qed.

Lemma sites_loop (structure : list Site) (equivalent_sites : list (list Site))
    (class : Site → nat) (rest : list Site) (k : nat) (st : SitesMapState) :
  partitioned structure equivalent_sites class →
  drop k structure = rest →
  sites_map_invariant structure equivalent_sites class k st →
  ∃ st', for_enumerate (site_body equivalent_sites) k rest st = Ok st' ∧
         sites_map_invariant structure equivalent_sites class (length structure) st'.
Proof.
  intros Hpart. revert k st. induction rest as [|site rest IH]; intros k st Hd Hinv.
  - exists st. split; [done|].
    assert (Hk : length structure ≤ k).
    { apply (f_equal length) in Hd. rewrite length_drop in Hd. simpl in Hd. lia. }
    destruct Hinv as (Hlm & Hls & Hle & Hfound & Hrep & Hdone & Hind & Hsorted & Hmy).
    unfold sites_map_invariant. split_and!; try done.
    + intros c. rewrite Hfound. split; intros (j & s & Hj & Hs & Hc); exists j, s;
        (split; [|done]); apply lookup_lt_Some in Hs; lia.
    + intros c Hc. destruct (Hrep c Hc) as (j & Hj & _ & Hf). exists j.
      split; [done|]. split; [|done]. destruct Hf as [(s & Hs & _) _].
      by eapply lookup_lt_Some.
    + intros i s _ Hs. apply Hdone; [|done]. apply lookup_lt_Some in Hs. lia.
    + intros i. rewrite Hind. split; intros [Hi (s & Hs & Hf)];
        (split; [|by exists s]); apply lookup_lt_Some in Hs; lia.
    + intros Hn. apply Hmy. lia.
  - assert (Hk : structure !! k = Some site).
    { rewrite <- (Nat.add_0_r k), <- lookup_drop, Hd. done. }
    destruct (site_body_step structure equivalent_sites class k site st Hpart Hk Hinv)
      as (st1 & Hst1 & Hinv1).
    cbn [for_enumerate]. rewrite Hst1. simpl. apply IH; [|done].
    apply drop_S in Hk. rewrite Hd in Hk. by injection Hk.
Qed.

(** X25: the unequivalent sites of a symmetrized structure whose equivalence
    classes partition its sites.  Every site is mapped by
    [struct_sites_to_irreducible_site_list_map] to its class and by
    [sites_map] to the first site of the structure in that class, and
    [indices] lists these first sites, each once, in increasing order. *)
Theorem X25_sites_map_to_first_of_class (structure : list Site)
    (equivalent_sites : list (list Site)) (class : Site → nat) :
  equivalent_sites ≠ [] →
  partitioned structure equivalent_sites class →
  ∃ indices irreducible smap,
    unequivalent_sites true structure equivalent_sites
    = Ok (indices, equivalent_sites, irreducible, smap) ∧
    (∀ i site, structure !! i = Some site →
       irreducible !! i = Some (Z.of_nat (class site)) ∧
       ∃ j, smap !! i = Some (Z.of_nat j) ∧ j ≤ i ∧
            first_of_class structure class (class site) j) ∧
    (∀ i, i ∈ indices ↔ smap !! i = Some (Z.of_nat i)) ∧
    StronglySorted lt indices.
Proof.
  intros Hne Hpart. unfold unequivalent_sites.
  rewrite bool_decide_eq_true_2 by (destruct equivalent_sites; simpl; [done|lia]).
  cbn [andb].
  edestruct (sites_loop structure equivalent_sites class structure 0) as (st & -> & Hinv);
    [done|done| |].
  { unfold sites_map_invariant. simpl. rewrite !length_replicate.
    split_and!; try done.
    - intros c. split; [by intros ?%elem_of_nil|]. intros (j & ? & ? & _). lia.
    - by intros c ?%elem_of_nil.
    - intros i s Hi. lia.
    - intros i. split; [by intros ?%elem_of_nil|]. intros [? _]. lia.
    - constructor.
    - lia. }
  destruct Hinv as (Hlm & Hls & Hle & Hfound & Hrep & Hdone & Hind & Hsorted & Hmy).
  simpl. eexists _, _, _. split; [done|]. split_and!; [| |done].
  - intros i site Hi. apply Hdone; [by eapply lookup_lt_Some|done].
  - intros i. rewrite Hind. split.
    + intros [Hi (s & Hs & Hf)].
      destruct (Hdone i s Hi Hs) as [_ (j & Hj & Hji & Hfj)].
      rewrite Hj. do 2 f_equal.
      destruct Hf as [_ Hf], Hfj as [(sj & Hsj & Hcj) _].
      destruct (decide (j = i)) as [|Hne']; [done|].
      destruct (Hf j sj); [lia|done|done].
    + intros Hi.
      assert (Hlt : i < length structure).
      { apply lookup_lt_Some in Hi. lia. }
      destruct (lookup_lt_is_Some_2 _ _ Hlt) as [s Hs].
      split; [done|]. exists s. split; [done|].
      destruct (Hdone i s Hlt Hs) as [_ (j & Hj & Hji & Hfj)].
      rewrite Hj in Hi. injection Hi as Hi. apply Nat2Z.inj in Hi. by subst.
Qed.

End SitesMapFacts.

Section SitesMapEdge.
Context {Site : Type} `{EqDecision Site}.

Lemma eqsites_loop_no_class (equivalent_sites : list (list Site)) (isite : nat)
    (site : Site) (st : SitesMapState) :
  Forall (λ eqsites, site ∉ eqsites) equivalent_sites →
  for_enumerate (eqsites_body isite site) 0 equivalent_sites st = Ok st.
Proof.
  intros Hno. apply for_enumerate_identity. intros i eqsites Hi _.
  unfold eqsites_body. rewrite decide_False; [done|].
  rewrite list.Forall_forall in Hno. apply Hno. by eapply list_elem_of_lookup_2.
Qed.

(** X26: a site that is in none of the lists of equivalent sites.  If it is
    the first site of the structure, the mapping of the sites raises
    [UnboundLocalError]; otherwise it is silently given the representative
    that was current for the site before it, and nothing else changes. *)
Theorem X26_site_outside_every_class (equivalent_sites : list (list Site))
    (site : Site) :
  Forall (λ eqsites, site ∉ eqsites) equivalent_sites →
  (equivalent_sites ≠ [] →
   ∀ rest, unequivalent_sites true (site :: rest) equivalent_sites
           = Raise UnboundLocalError) ∧
  (∀ st isite my,
     myieqsite st = Some my → isite < length (sites_map st) →
     site_body equivalent_sites st isite site
     = Ok {| indices_found := indices_found st;
             ind_eqsites_found := ind_eqsites_found st;
             struct_sites_to_irreducible_site_list_map :=
               struct_sites_to_irreducible_site_list_map st;
             sites_map := <[isite := my]> (sites_map st);
             eqsite_found := eqsite_found st;
             myieqsite := Some my |}).
Proof.
  intros Hno. split.
  - intros Hne rest. unfold unequivalent_sites.
    rewrite bool_decide_eq_true_2 by (destruct equivalent_sites; simpl; [done|lia]).
    cbn [andb for_enumerate].
    set (st0 := mkSitesMapState _ _ _ _ _ _).
    assert (Hb : site_body equivalent_sites st0 0 site = Raise UnboundLocalError).
    { unfold site_body. by rewrite eqsites_loop_no_class. }
    by rewrite Hb.
  - intros st isite my Hmy Hi. unfold site_body.
    rewrite eqsites_loop_no_class by done. cbn [mbind result_bind]. rewrite Hmy.
    rewrite py_setitem_ok by done. cbn [mbind result_bind]. done.
Qed.

End SitesMapEdge.

(** * The index setups *)

(** X27: the neighbour indices of the test setups.  Explicit indices are
    shifted by one, so the index 0 of the central site is never among them;
    the indices [0 .. n-1] in order give the ordered setup [1 .. n], and any
    rearrangement of them gives a rearrangement of it. *)
Theorem X27_explicit_indices_are_shifted (explicit_indices : list nat) (n : nat) :
  fst (setup_explicit_indices_local_geometry explicit_indices) = 0 ∧
  (0 ∉ snd (setup_explicit_indices_local_geometry explicit_indices)) ∧
  setup_explicit_indices_local_geometry (py_range 0 n)
  = setup_ordered_indices_local_geometry n ∧
  (explicit_indices ≡ₚ py_range 0 n →
   snd (setup_explicit_indices_local_geometry explicit_indices)
   ≡ₚ snd (setup_ordered_indices_local_geometry n)).
Proof.
  assert (Hid : setup_explicit_indices_local_geometry (py_range 0 n)
                = setup_ordered_indices_local_geometry n).
  { unfold setup_explicit_indices_local_geometry, setup_ordered_indices_local_geometry,
      py_range. f_equal. rewrite Nat.sub_0_r.
    replace (n + 1 - 1) with n by lia.
    rewrite <- fmap_S_seq. apply list_fmap_ext. intros _ ii _. lia. }
  split; [done|]. split; [|split; [done|]].
  - simpl. intros Hin. apply list_elem_of_fmap in Hin as (ii & Hii & _). lia.
  - intros Hp. rewrite <- Hid. simpl. by rewrite Hp.
Qed.

Section FallbackBounds.
Context {linalg : NumpyLinalg} {utils : GeometryUtils} {random : NumpyRandom}.

Lemma permutation_has_last (n : nat) (perm : list nat) :
  perm ≡ₚ seq 0 n → 0 < n → n - 1 ∈ perm.
Proof. intros Hp Hn. rewrite Hp. apply elem_of_seq. lia. Qed.

Lemma fallback_single_point (self : LocalGeometryFinder) (cg : CoordinationGeometry)
    (points_perfect : list Point) (n : nat) (g : rng) (acc : cgsm) :
  coordination_number cg = 1 →
  0 < length (_points_wocs_ctwocc (local_geometry self)) →
  ∃ r g', fallback_random_loop self cg points_perfect n g acc = Ok (cgsm_extend acc r, g') ∧
          cgsm_csms r = replicate n f64_zero.
Proof.
  intros Hcn Hlen. revert g acc. induction n as [|n IH]; intros g acc.
  - exists cgsm_empty, g. simpl. destruct acc as [[[[? ?] ?] ?] ?]. simpl.
    by rewrite !app_nil_r.
  - simpl. pose proof (random_permutation_perm (coordination_number cg) g) as Hperm.
    destruct (random_permutation _ g) as [perm g1]. simpl in Hperm.
    rewrite Hcn in Hperm. simpl in Hperm. apply Permutation_singleton_r in Hperm as ->.
    destruct (mapM_py_index_ok (_points_wocs_ctwocc (local_geometry self)) [0])
      as (pd & Hpd & Hpdlen & _); [by constructor|].
    unfold points_wocs_ctwocc, permuted_view. rewrite Hpd. simpl.
    rewrite symmetry_measure_single by done. simpl.
    edestruct IH as (r & g' & -> & Hr).
    exists (cgsm_extend ([f64_zero], [[0]], ["APPROXIMATE_FALLBACK"],
                         [local2perfect_of [0]], [perfect2local_of [0]]) r), g'.
    split; [by rewrite cgsm_extend_assoc|].
    destruct r as [[[[c p] a] l] q]. unfold cgsm_csms in *. simpl in *. by rewrite Hr.
Qed.

(** X28: the random fallback when the coordination number of the polyhedron
    does not fit the points.  With more indices than local points it raises
    [IndexError].  With a reference of another length it never returns,
    unless the coordination number is 1: a shorter reference raises
    [IndexError]; so does a longer one, unless the SVD of the first sample
    raised [LinAlgError] before.  With the coordination number 1 every sample
    is one point, and every measure is 0.0 whatever the reference. *)
Theorem X28_fallback_coordination_number_mismatch (self : LocalGeometryFinder)
    (cg : CoordinationGeometry) (points_perfect : list Point) (n : nat) (g : rng) :
  0 < n →
  (length (_points_wocs_ctwocc (local_geometry self)) < coordination_number cg →
   coordination_geometry_symmetry_measures_fallback_random self cg n points_perfect g
   = Raise IndexError) ∧
  (coordination_number cg ≤ length (_points_wocs_ctwocc (local_geometry self)) →
   coordination_number cg ≠ 1 → length points_perfect < coordination_number cg →
   coordination_geometry_symmetry_measures_fallback_random self cg n points_perfect g
   = Raise IndexError) ∧
  (coordination_number cg ≤ length (_points_wocs_ctwocc (local_geometry self)) →
   coordination_number cg ≠ 1 → coordination_number cg < length points_perfect →
   coordination_geometry_symmetry_measures_fallback_random self cg n points_perfect g
   = Raise IndexError ∨
   coordination_geometry_symmetry_measures_fallback_random self cg n points_perfect g
   = Raise LinAlgError) ∧
  (coordination_number cg = 1 →
   0 < length (_points_wocs_ctwocc (local_geometry self)) →
   ∃ r g', coordination_geometry_symmetry_measures_fallback_random self cg n
             points_perfect g = Ok (r, g') ∧
           cgsm_csms r = replicate n f64_zero).
Proof.
  intros Hn. unfold coordination_geometry_symmetry_measures_fallback_random.
  assert (Hfirst : coordination_number cg ≤ length (_points_wocs_ctwocc (local_geometry self)) →
            ∃ perm g1 pd, random_permutation (coordination_number cg) g = (perm, g1) ∧
              points_wocs_ctwocc (local_geometry self) (Some perm) = Ok pd ∧
              length pd = coordination_number cg).
  { intros Hle.
    pose proof (random_permutation_perm (coordination_number cg) g) as Hperm.
    destruct (random_permutation _ g) as [perm g1]. simpl in Hperm.
    destruct (mapM_py_index_ok (_points_wocs_ctwocc (local_geometry self)) perm)
      as (pd & Hpd & Hpdlen & _).
    { apply list.Forall_forall. intros i Hi. rewrite Hperm in Hi.
      apply elem_of_seq in Hi. lia. }
    exists perm, g1, pd. split; [done|]. split; [done|].
    by rewrite Hpdlen, Hperm, length_seq. }
  split; [|split; [|split]].
  - intros Hlt. destruct n as [|n]; [lia|]. simpl.
    pose proof (random_permutation_perm (coordination_number cg) g) as Hperm.
    destruct (random_permutation _ g) as [perm g1]. simpl in Hperm.
    unfold points_wocs_ctwocc, permuted_view.
    rewrite mapM_py_index_raises; [done|].
    apply Exists_exists. exists (coordination_number cg - 1).
    split; [|lia]. apply list_elem_of_In, permutation_has_last; [done|lia].
  - intros Hle H1 Hlt. destruct n as [|n]; [lia|]. simpl.
    destruct (Hfirst Hle) as (perm & g1 & pd & -> & -> & Hlen). simpl.
    rewrite symmetry_measure_reference_shorter; [done|lia|lia].
  - intros Hle H1 Hlt. destruct n as [|n]; [lia|]. simpl.
    destruct (Hfirst Hle) as (perm & g1 & pd & -> & -> & Hlen). simpl.
    rewrite symmetry_measure_reference_longer by lia.
    destruct (find_rotation_cases pd points_perfect) as [[R ->]| ->]; [lia|by left|by right].
  - intros Hcn Hlen.
    destruct (fallback_single_point self cg points_perfect n g cgsm_empty Hcn Hlen)
      as (r & g' & Hr & Hc).
    exists r, g'. by rewrite cgsm_extend_empty_l in Hr.
Qed.

(** *** One measure per separation permutation *)

Lemma score_sep_perm_count (self : LocalGeometryFinder) (cg : CoordinationGeometry)
    (sepplane : SeparationPlane) (points_perfect : list Point) (separation_perm : list nat)
    (sep_perms : list (list nat)) st st' :
  for_each (score_sep_perm self cg sepplane points_perfect separation_perm) sep_perms st
  = Ok st' →
  length st'.1.1 ≤ length st.1.1 + length sep_perms ∧
  (equivalent_indices cg = None ∨ st.2 = None →
   length st'.1.1 = length st.1.1 + length sep_perms ∧ st'.2 = st.2).
Proof.
  revert st. induction sep_perms as [|sep_perm sep_perms IH]; intros st; cbn [for_each].
  - intros [= <-]. simpl. split; [lia|]. intros _. split; [lia|done].
  - destruct (score_sep_perm _ _ _ _ _ st sep_perm) as [st1|] eqn:Hs;
      cbn [mbind result_bind]; [|done].
    intros Hfe. apply IH in Hfe as [Hle Heq].
    assert (Hstep : length st1.1.1 ≤ length st.1.1 + 1 ∧
                    (equivalent_indices cg = None ∨ st.2 = None →
                     length st1.1.1 = length st.1.1 + 1 ∧ st1.2 = st.2)).
    { destruct st as [[p c] t]. unfold score_sep_perm in Hs.
      destruct (candidate_permutation _ _ _) as [pp|]; simpl in Hs; [|done].
      destruct (check_tested cg t pp) as [t1|] eqn:Ht.
      - destruct (points_wocs_ctwocc _ _) as [pd|]; simpl in Hs; [|done].
        destruct (symmetry_measure _ _) as [x|]; simpl in Hs; [|done].
        injection Hs as <-. simpl. rewrite length_app. simpl. split; [lia|].
        intros Hoff. split; [lia|]. unfold check_tested in Ht.
        destruct Hoff as [Hoff| ->].
        + rewrite Hoff in Ht. destruct t; by injection Ht.
        + by injection Ht.
      - injection Hs as <-. simpl. split; [lia|]. intros Hoff. exfalso.
        unfold check_tested in Ht.
        destruct Hoff as [Hoff| ->]; [rewrite Hoff in Ht; by destruct t|done]. }
    destruct Hstep as [Hle1 Heq1]. simpl. split; [lia|].
    intros Hoff. destruct (Heq1 Hoff) as [Hl1 Ht1].
    destruct Heq as [Hl2 Ht2]; [by rewrite Ht1|]. split; [lia|congruence].
Qed.

(** X29: how many measures an accepted trial plane contributes.  The
    permutations tried for a plane come from the separation permutations of
    the descriptor, at most one each; when no set of tested permutations is
    in use, or the polyhedron declares no equivalent indices, none is
    skipped: the plane contributes exactly one measure per separation
    permutation. *)
Theorem X29_one_measure_per_separation_permutation (self : LocalGeometryFinder)
    (cg : CoordinationGeometry) (sepplane : SeparationPlane) (local_plane : Plane)
    (plane_separations : list (list nat * list nat * list nat))
    (dist_tolerances : list Qc) (tested : option (gset (list nat)))
    (points_perfect : list Point) csms perms algos seps' tested' :
  _cg_csm_separation_plane self cg sepplane local_plane plane_separations
    dist_tolerances tested points_perfect
  = Ok (Some (csms, perms, algos), seps', tested') →
  length csms = length perms ∧
  length perms ≤ length (sep_perms_of self sepplane) ∧
  (equivalent_indices cg = None ∨ tested = None →
   length perms = length (sep_perms_of self sepplane) ∧ tested' = tested).
Proof.
  unfold _cg_csm_separation_plane.
  destruct dist_tolerances as [|tol0 tols0]; [done|].
  generalize (tol0 :: tols0). clear tol0 tols0. intros tols.
  induction tols as [|tol tols IH]; simpl; [done|].
  destruct (accept_separation _ _ _) as [this_separation|]; [|done].
  destruct (separation_permutation _ _ _ _) as [separation_perm|]; simpl; [|done].
  destruct (for_each _ _ _) as [[[perms1 csms1] tested1]|] eqn:Hfe; simpl; [|done].
  pose proof (score_sep_perm_lengths _ _ _ _ _ _ _ _ Hfe eq_refl) as Hlen.
  apply score_sep_perm_count in Hfe as [Hle Heq]. simpl in *.
  destruct (decide (0 < length csms1)); intros [= <- <- _ _ <-];
    (split; [done|]); (split; [done|]); intros Hoff; by destruct (Heq Hoff).
Qed.

End FallbackBounds.

Section AcceptedSeparation.
Context {utils : GeometryUtils}.

(** X30: the separation kept for a trial plane has the group sizes of the
    reference.  When the three groups found have as many indices in total as
    the three groups of the descriptor, an accepted separation, turned over
    or not, has a first group, a plane group and a second group of the sizes
    of the descriptor's; and for a plane without ordering the permutation
    built from it is the three groups one after the other, one entry per
    index found. *)
Theorem X30_accepted_separation_has_reference_sizes (sepplane : SeparationPlane)
    (local_plane : Plane) (coords : list Point)
    (plane_separations : list (list nat * list nat * list nat))
    (s0 s1 s2 t0 t1 t2 : list nat) :
  length s0 + length s1 + length s2
  = length (point_groups sepplane).1 + length (plane_points sepplane)
    + length (point_groups sepplane).2 →
  accept_separation sepplane plane_separations (s0, s1, s2) = Some (t0, t1, t2) →
  length t0 = length (point_groups sepplane).1 ∧
  length t1 = length (plane_points sepplane) ∧
  length t2 = length (point_groups sepplane).2 ∧
  (ordered_plane sepplane = false →
   ∃ separation_perm,
     separation_permutation sepplane local_plane coords (t0, t1, t2) = Ok separation_perm ∧
     separation_perm = t0 ++ t1 ++ t2 ∧
     length separation_perm = length s0 + length s1 + length s2).
Proof.
  intros Htotal. unfold accept_separation.
  destruct (separation_in_list _ _); [done|].
  destruct (decide (length s1 ≠ length (plane_points sepplane))) as [|Hs1]; [done|].
  apply dec_stable in Hs1.
  assert (Hperm : ∀ a b c, ordered_plane sepplane = false →
            ∃ separation_perm,
              separation_permutation sepplane local_plane coords (a, b, c)
              = Ok separation_perm ∧
              separation_perm = a ++ b ++ c ∧
              length separation_perm = length a + length b + length c).
  { intros a b c Hord. exists (a ++ b ++ c). unfold separation_permutation.
    rewrite Hord, !length_app. split; [done|]. split; [done|lia]. }
  destruct (decide (length s0 = length (point_groups sepplane).1)) as [Hs0|Hs0].
  - intros [= <- <- <-]. split; [done|]. split; [done|]. split; [lia|].
    intros Hord. apply Hperm, Hord.
  - destruct (decide (length s0 = length (point_groups sepplane).2)) as [Hs0'|]; [|done].
    intros [= <- <- <-]. split; [lia|]. split; [done|]. split; [done|]. intros Hord.
    destruct (Hperm s2 s1 s0 Hord) as (sp & ? & ? & ?). exists sp. split; [done|].
    split; [done|lia].
Qed.

End AcceptedSeparation.

(** * The central site in its own view, and a polyhedron against itself *)

Lemma fsub_finite_self (x : npfloat) : is_finite x = true → fsub x x = f64_zero.
Proof.
  destruct x as [[]| | |s m e]; try done. intros _. apply fsub_self.
Qed.

(** X5: in the view centred on the central site ([csc]) the central site
    comes first, as the difference of its coordinates with themselves: it is
    at the origin when the coordinates are finite, whatever the neighbours,
    the centring and the rounding. *)
Theorem X5_views_are_centred (c : Point) (X : list Point)
    (ct : centering) (incl : bool) (geo : AbstractGeometry) :
  AbstractGeometry_init (Some c) X ct incl = Ok geo →
  _points_wcs_csc geo = vsub c c :: _points_wocs_csc geo ∧
  (point_is_finite c = true → head (_points_wcs_csc geo) = Some vzero).
Proof.
  unfold AbstractGeometry_init. cbn [array_of_central_site mbind result_bind].
  destruct (choose_centre _ _ ct incl) as [a|e]; [|done]. intros [= <-]. cbn.
  split; [done|].
  unfold point_is_finite. intros [[Hx Hy]%andb_prop Hz]%andb_prop.
  unfold vsub, vzero. by rewrite !fsub_finite_self.
Qed.

Section SelfMatch.
Context {linalg : NumpyLinalg}.

Lemma not_negative_at_most_zero (m : npfloat) :
  not_negative m → m ≠ NaN → fleb m f64_zero = true → m = f64_zero.
Proof. destruct m as [[]|[]| |[] p e]; simpl; try done. Qed.

(** X22: a polyhedron is recognised in itself.  When the centred local
    points are the reference points, finite and with a sum of squared norms
    that is a finite number other than zero, and the identity is among the
    explicit permutations, the measure 0.0 is among those returned, and it is
    the one selected as the smallest unless a NaN is among them. *)
Theorem X22_polyhedron_matches_itself (self : LocalGeometryFinder)
    (cg : CoordinationGeometry) (permutations : list (list nat)) (str_algo : string)
    (points_perfect : list Point) (r : cgsm) :
  _points_wocs_ctwocc (local_geometry self) = points_perfect →
  Forall finite_point points_perfect → nondegenerate points_perfect →
  seq 0 (length points_perfect) ∈ permutations →
  coordination_geometry_symmetry_measures_standard self cg permutations str_algo
    points_perfect = Ok r →
  f64_zero ∈ cgsm_csms r ∧
  (NaN ∉ cgsm_csms r → min_csm (cgsm_csms r) = Ok f64_zero).
Proof.
  intros Hlocal Hfin Hnd Hid Hr.
  pose proof (standard_entries_scored self cg permutations str_algo _ r Hr) as Hsc.
  apply (standard_maps_consistent self cg permutations str_algo) in Hr as [_ Hp].
  unfold entries_scored in Hsc. rewrite Hp in Hsc.
  assert (Hzero : f64_zero ∈ cgsm_csms r).
  { apply list_elem_of_lookup_1 in Hid as [k Hk].
    destruct (Forall2_lookup_l _ _ _ _ _ Hsc Hk) as (x & Hx & pd & Hpd & Hm).
    unfold points_wocs_ctwocc, permuted_view in Hpd.
    rewrite <- Hlocal, mapM_py_index_seq in Hpd. injection Hpd as <-.
    rewrite Hlocal, symmetry_measure_self in Hm by done. injection Hm as <-.
    by eapply list_elem_of_lookup_2. }
  split; [done|]. intros Hnan.
  assert (Hne : cgsm_csms r ≠ []).
  { intros Hnil. rewrite Hnil in Hzero. by apply elem_of_nil in Hzero. }
  destruct (min_csm_selects (cgsm_csms r) Hne) as (imin & m & Himin & Hm & _ & Hleast).
  unfold min_csm. rewrite Himin. simpl. unfold py_index. rewrite Hm. f_equal.
  assert (Hin : m ∈ cgsm_csms r) by (by eapply list_elem_of_lookup_2).
  apply not_negative_at_most_zero.
  - apply list_elem_of_lookup_1 in Hin as [k Hk].
    destruct (Forall2_lookup_r _ _ _ _ _ Hsc Hk) as (perm & _ & pd & _ & Hx).
    by eapply symmetry_measure_not_negative.
  - by intros ->.
  - by apply Hleast.
Qed.

End SelfMatch.

(** * The random fallback of the search *)

Section FallbackOfTheSearch.
Context {linalg : NumpyLinalg} {utils : GeometryUtils} {random : NumpyRandom}.





End FallbackOfTheSearch.

(** * Accepted planes that bring no permutation *)


Section PlanesWithoutPermutations.
Context {linalg : NumpyLinalg} {utils : GeometryUtils} {random : NumpyRandom}.











End PlanesWithoutPermutations.

(** * Examples: the theorems at concrete inputs *)

(** The examples use the stand-in for the SVD only where it is the SVD: on
    the zero matrix and on matrices with a NaN entry; elsewhere the point
    lists agree and no SVD is taken. *)

Lemma finite_e1_me1 : Forall finite_point [e1; me1].
Proof. repeat (apply Forall_cons_2 || apply Forall_nil_2); by vm_compute. Qed.

Lemma nondegenerate_e1_me1 : nondegenerate [e1; me1].
Proof. split; vm_compute; by eexists _, _, _. Qed.

Lemma C1_symmetry_measure_formula_witness :
  ∃ scale rotated,
    find_scaling_factor [e1; me1] [e1; me1] eye = Ok (scale, rotated) ∧
    symmetry_measure (linalg := zero_matrix_svd) [e1; me1] [e1; me1]
    = Ok (continuousSymmetryMeasure_formula [e1; me1] rotated scale).
Proof.
  destruct (C1_symmetry_measure_formula (linalg := zero_matrix_svd)
              [e1; me1] [e1; me1] eq_refl) as (_ & _ & Hvalue & _).
  apply Hvalue.
  - simpl. lia.
  - vm_compute. reflexivity.
Defined.

(** Two empty lists have equal length and not exactly one point, and the
    final quotient raises; a NaN coordinate makes the SVD raise. *)
Lemma C1_counterexample :
  length (@nil Point) = length (@nil Point) ∧
  symmetry_measure (linalg := zero_matrix_svd) [] [] = Raise ZeroDivisionError ∧
  length [mkPoint NaN f64_zero f64_zero; e2] = length [e1; e2] ∧
  symmetry_measure (linalg := zero_matrix_svd)
    [mkPoint NaN f64_zero f64_zero; e2] [e1; e2] = Raise LinAlgError.
Proof. repeat split; vm_compute; reflexivity. Qed.

Lemma C2_self_zero_and_nonneg_witness :
  symmetry_measure (linalg := zero_matrix_svd) [e1; me1] [e1; me1] = Ok f64_zero.
Proof.
  apply (proj1 (C2_self_zero_and_nonneg (linalg := zero_matrix_svd))).
  - repeat (apply Forall_cons_2 || apply Forall_nil_2); by vm_compute.
  - split; vm_compute; by eexists _, _, _.
Defined.

(** The squared norms of the two points below do not all vanish, yet the
    square of the first overflows and the measure of the list against itself
    is NaN.  And with a reference that is not degenerate, two distorted
    points at the origin give NaN, which is not greater than or equal to 0. *)
Lemma C2_counterexample :
  norm2 e2 = f64_one ∧
  symmetry_measure (linalg := zero_matrix_svd)
    [mkPoint f64_two_to_700 f64_zero f64_zero; e2]
    [mkPoint f64_two_to_700 f64_zero f64_zero; e2] = Ok NaN ∧
  running_sum (norm2 <$> [e1; me1]) = fadd f64_one f64_one ∧
  symmetry_measure (linalg := zero_matrix_svd) [vzero; vzero] [e1; me1] = Ok NaN ∧
  fleb f64_zero NaN = false.
Proof. repeat split; vm_compute; reflexivity. Qed.

Lemma C3_degenerate_reference_returns_nan_witness :
  symmetry_measure (linalg := zero_matrix_svd) [e1; e2] [vzero; vzero] = Ok NaN.
Proof.
  apply (C3_degenerate_reference_returns_nan (linalg := zero_matrix_svd)
           [e1; e2] [vzero; vzero]).
  - reflexivity.
  - simpl. lia.
  - repeat (apply Forall_cons_2 || apply Forall_nil_2); repeat split; by eexists.
  - eexists. vm_compute. reflexivity.
Defined.

(** A reference of two points at the origin: a value is returned, nothing is
    raised. *)
Lemma C3_counterexample :
  1 < length [vzero; vzero] ∧
  running_sum (norm2 <$> [vzero; vzero]) = f64_zero ∧
  symmetry_measure (linalg := zero_matrix_svd) [e1; e2] [vzero; vzero] = Ok NaN.
Proof. split; [simpl; lia|]. split; vm_compute; reflexivity. Qed.

Lemma C7_constructor_centre_and_errors_witness :
  (∃ geo, AbstractGeometry_init (Some vzero) [e1; me1] standard false = Ok geo ∧
          centre geo = vzero) ∧
  (∃ geo, AbstractGeometry_init (Some vzero) [e1; me1; e2; e1; e2] standard false = Ok geo ∧
          centre geo = vdiv (fold_left vadd [e1; me1; e2; e1; e2] vzero)
                            (np_float (length [e1; me1; e2; e1; e2]))) ∧
  AbstractGeometry_init (Some vzero) [e1; me1] central_site_centering true
    = Raise ValueError ∧
  AbstractGeometry_init None [e1; me1] central_site_centering false = Raise TypeError.
Proof.
  destruct C7_constructor_centre_and_errors as (Hsmall & Hlarge & Hincl & Hnone).
  split; [apply Hsmall; simpl; lia|].
  split; [apply (Hlarge vzero [e1; me1; e2; e1; e2] false); simpl; lia|].
  split; [apply Hincl; by left|apply Hnone].
Defined.

Lemma C4_unrecognized_algorithms_silently_skipped_witness :
  coordination_geometry_symmetry_measures
    (linalg := zero_matrix_svd) (utils := coincidence_utils) (random := alternating_random)
    (finder_of (site_geometry [e1; me1]) false)
    (two_point_polyhedron [OtherAlgorithm "FANCY"]) None [e1; me1] 0
  = Ok (FiveLists cgsm_empty, 0).
Proof.
  eapply (C4_unrecognized_algorithms_silently_skipped
            (linalg := zero_matrix_svd) (utils := coincidence_utils)
            (random := alternating_random)
            (finder_of (site_geometry [e1; me1]) false)
            (two_point_polyhedron [OtherAlgorithm "FANCY"]) [OtherAlgorithm "FANCY"]).
  - reflexivity.
  - reflexivity.
  - constructor; [|constructor]. split; discriminate.
  - reflexivity.
Defined.











(** ** Examples for the further properties *)

Lemma X1_symmetry_measure_length_mismatch_witness :
  symmetry_measure (linalg := zero_matrix_svd) [e1] [e1; me1] = Ok f64_zero ∧
  symmetry_measure (linalg := zero_matrix_svd) [e1; me1] [e1] = Raise IndexError ∧
  symmetry_measure (linalg := zero_matrix_svd) [e1; me1] [e1; me1; e2]
  = find_rotation (linalg := zero_matrix_svd) [e1; me1] [e1; me1; e2]
      ≫= λ _, Raise IndexError.
Proof.
  split; [|split].
  - apply (X1_symmetry_measure_length_mismatch (linalg := zero_matrix_svd)
             [e1] [e1; me1]); [simpl; lia|reflexivity].
  - destruct (X1_symmetry_measure_length_mismatch (linalg := zero_matrix_svd)
                [e1; me1] [e1]) as (_ & Hshorter & _); [simpl; lia|].
    apply Hshorter; simpl; lia.
  - destruct (X1_symmetry_measure_length_mismatch (linalg := zero_matrix_svd)
                [e1; me1] [e1; me1; e2]) as (_ & _ & Hlonger & _); [simpl; lia|].
    apply Hlonger; simpl; lia.
Defined.

Lemma X2_alignment_reference_bounds_witness :
  find_rotation (linalg := zero_matrix_svd) [e1; me1] [e1] = Raise IndexError ∧
  find_scaling_factor [e1] ([e2] ++ [me1]) eye
    = find_scaling_factor [e1] [e2] eye.
Proof.
  split.
  - destruct (X2_alignment_reference_bounds (linalg := zero_matrix_svd)
                [e1; me1] [e1] eye) as [Hshort _].
    apply Hshort. simpl. lia.
  - destruct (X2_alignment_reference_bounds (linalg := zero_matrix_svd)
                [e1] [e2] eye) as [_ Hlong].
    apply Hlong. simpl. lia.
Defined.

Lemma X6_coords_is_a_view_witness :
  (∃ geo, AbstractGeometry_init (Some vzero) [e1; me1] central_site_centering false
          = Ok geo ∧
          coords geo = _points_wocs_csc geo) ∧
  (∃ geo, AbstractGeometry_init (Some vzero) [e1; me1] centroid false = Ok geo ∧
          coords geo = _points_wocs_ctwocc geo).
Proof.
  destruct X6_coords_is_a_view as (Hsite & Hwithout & _).
  split; [apply Hsite; by left|]. apply Hwithout; by left.
Defined.

Lemma X8_neighbour_views_by_index_witness :
  ∃ l, points_wocs_ctwocc (site_geometry [e1; me1]) (Some [1; 0]) = Ok l ∧
       length l = 2 ∧
       points_wocs_ctwocc (site_geometry [e1; me1]) (Some [0; 2]) = Raise IndexError.
Proof.
  destruct (X8_neighbour_views_by_index points_wocs_ctwocc _points_wocs_ctwocc
              (site_geometry [e1; me1]) [1; 0]) as (_ & _ & Hok & _).
  { unfold neighbour_accessors. do 2 apply list_elem_of_further. apply list_elem_of_here. }
  destruct Hok as (l & Hl & Hlen & _).
  { repeat constructor. }
  exists l. split; [exact Hl|]. split; [exact Hlen|].
  apply (X8_neighbour_views_by_index points_wocs_ctwocc _points_wocs_ctwocc
           (site_geometry [e1; me1]) [0; 2]).
  - unfold neighbour_accessors. do 2 apply list_elem_of_further. apply list_elem_of_here.
  - apply Exists_cons_tl, Exists_cons_hd. simpl. lia.
Defined.

Lemma X9_central_site_stays_first_witness :
  ∃ c0, ∀ permutation,
    points_wcs_csc (site_geometry [e1; me1]) permutation
    = cons c0 <$> points_wocs_csc (site_geometry [e1; me1]) permutation.
Proof.
  apply (X9_central_site_stays_first points_wcs_csc points_wocs_csc
           (Some vzero) [e1; me1] centroid true).
  - unfold central_site_accessors. apply list_elem_of_here.
  - reflexivity.
Defined.

Lemma X10_index_maps_of_any_list_witness :
  perfect2local_of [1; 0; 1] !! 2 = Some 1 ∧
  local2perfect_of [1; 0; 1] !! 1 = Some 2 ∧
  ¬ is_Some (local2perfect_of [1; 0; 1] !! 2).
Proof.
  destruct (X10_index_maps_of_any_list [1; 0; 1]) as (Hp2l & Hdom & Hl2p).
  split; [apply Hp2l|]. split.
  - apply Hl2p. split; [reflexivity|]. intros [|[|[|i']]] Hi'; simpl; (lia || done).
  - rewrite Hdom. rewrite !elem_of_cons, elem_of_nil. intros [|[|[|[]]]]; lia.
Defined.

Lemma X11_explicit_one_measure_per_permutation_witness :
  ∃ r, coordination_geometry_symmetry_measures_standard (linalg := zero_matrix_svd)
         (finder_of (site_geometry [e1; me1]) false) (two_point_polyhedron [])
         [[0; 1]] "explicit" [e1; me1] = Ok r ∧
       cgsm_permutations r = [[0; 1]] ∧
       cgsm_algos r = replicate 1 "explicit".
Proof.
  destruct (X11_explicit_one_measure_per_permutation (linalg := zero_matrix_svd)
              (finder_of (site_geometry [e1; me1]) false) (two_point_polyhedron [])
              [[0; 1]] "explicit" [e1; me1]) as [Hshape Hok].
  destruct Hok as [r Hr].
  - discriminate.
  - repeat constructor.
  - intros perm pd ->%list_elem_of_singleton Hpd. vm_compute in Hpd.
    injection Hpd as <-. eexists. vm_compute. reflexivity.
  - exists r. split; [exact Hr|].
    destruct (Hshape r Hr) as (Hp & _ & Ha & _). split; [exact Hp|exact Ha].
Defined.

Lemma X12_five_lists_of_equal_length_witness :
  ∃ r, well_shaped r ∧
       ∃ result_dict',
         match_geometry (linalg := zero_matrix_svd) (utils := coincidence_utils)
           (random := alternating_random)
           (finder_of (site_geometry [e1; me1]) false) false (∅, 0)
           (two_point_polyhedron [identity_order]) = Ok (result_dict', 0).
Proof.
  eexists.
  apply (X12_five_lists_of_equal_length
           (linalg := zero_matrix_svd) (utils := coincidence_utils)
           (random := alternating_random)
           (finder_of (site_geometry [e1; me1]) false)
           (two_point_polyhedron [identity_order]) (site_geometry [e1; me1]) ∅ 0 0).
  - reflexivity.
  - vm_compute. reflexivity.
Defined.

Lemma X13_explicit_algorithm_ends_the_dispatch_witness :
  algorithms_loop (linalg := zero_matrix_svd) (utils := coincidence_utils)
    (random := alternating_random)
    (finder_of (site_geometry [e1; me1]) false) (two_point_polyhedron [])
    [e1; me1]
    ([SeparationPlaneAlgorithm plane_through_two] ++
     ExplicitPermutationsAlgorithm [[0; 1]] "explicit" :: [OtherAlgorithm "FANCY"])
    cgsm_empty None 0
  = '(_, g') ← algorithms_loop (linalg := zero_matrix_svd) (utils := coincidence_utils)
                 (random := alternating_random)
                 (finder_of (site_geometry [e1; me1]) false) (two_point_polyhedron [])
                 [e1; me1] [SeparationPlaneAlgorithm plane_through_two]
                 cgsm_empty None 0;
    r ← coordination_geometry_symmetry_measures_standard (linalg := zero_matrix_svd)
          (finder_of (site_geometry [e1; me1]) false) (two_point_polyhedron [])
          [[0; 1]] "explicit" [e1; me1];
    Ok (r, g').
Proof.
  apply (X13_explicit_algorithm_ends_the_dispatch
           (linalg := zero_matrix_svd) (utils := coincidence_utils)
           (random := alternating_random)).
  constructor; [discriminate|constructor].
Defined.

Lemma X14_search_skips_tested_permutations_witness :
  ∃ r tested' t1,
    coordination_geometry_symmetry_measures_separation_plane
      (linalg := zero_matrix_svd) (utils := coincidence_utils) (random := alternating_random)
      (finder_of (site_geometry [e1; me1]) false) (two_point_polyhedron [])
      plane_through_two (Some ∅) [e1; me1] 0 = Ok (r, tested', 0) ∧
    tested' = Some t1 ∧ ∅ ⊆ t1.
Proof.
  eexists _, _.
  assert (Hsearch :
    coordination_geometry_symmetry_measures_separation_plane
      (linalg := zero_matrix_svd) (utils := coincidence_utils) (random := alternating_random)
      (finder_of (site_geometry [e1; me1]) false) (two_point_polyhedron [])
      plane_through_two (Some ∅) [e1; me1] 0
    = Ok (_, _, 0)) by (vm_compute; reflexivity).
  destruct (X14_search_skips_tested_permutations
              (linalg := zero_matrix_svd) (utils := coincidence_utils)
              (random := alternating_random)
              (finder_of (site_geometry [e1; me1]) false) (two_point_polyhedron [])
              plane_through_two ∅ [e1; me1] 0 0 _ _
              (ex_intro _ [[0; 1]] eq_refl) Hsearch) as (t1 & Ht1 & Hsub & _).
  exists t1. split; [exact Hsearch|]. split; [exact Ht1|exact Hsub].
Defined.

Lemma X15_fewer_than_two_plane_points_witness :
  coordination_geometry_symmetry_measures_separation_plane
    (linalg := zero_matrix_svd) (utils := coincidence_utils) (random := alternating_random)
    (finder_of (site_geometry [e1; me1]) false) (two_point_polyhedron [])
    plane_through_one None [e1; me1] 0 = Raise ValueError.
Proof.
  apply (X15_fewer_than_two_plane_points
           (linalg := zero_matrix_svd) (utils := coincidence_utils)
           (random := alternating_random)).
  - simpl. lia.
  - simpl. lia.
  - vm_compute. lia.
Defined.

Lemma X16_too_few_neighbours_for_a_plane_witness :
  coordination_geometry_symmetry_measures_separation_plane
    (linalg := zero_matrix_svd) (utils := coincidence_utils) (random := alternating_random)
    (finder_of (site_geometry [e1; me1]) false) (two_point_polyhedron [])
    plane_through_three None [e1; me1] 0
  = '(r, g') ← coordination_geometry_symmetry_measures_fallback_random
                 (linalg := zero_matrix_svd) (random := alternating_random)
                 (finder_of (site_geometry [e1; me1]) false) (two_point_polyhedron [])
                 NRANDOM [e1; me1] 0;
    Ok (r, None, g').
Proof.
  apply (X16_too_few_neighbours_for_a_plane
           (linalg := zero_matrix_svd) (utils := coincidence_utils)
           (random := alternating_random)).
  vm_compute. lia.
Defined.

Lemma X17_planes_found_are_separations_recorded_witness :
  ∃ st,
    npoints_loop (linalg := zero_matrix_svd) (utils := coincidence_utils)
      (finder_of (site_geometry [e1; me1]) false) (two_point_polyhedron [])
      plane_through_two [e1; me1] (npoints_range plane_through_two)
      (initial_search_state None) = Ok st ∧
    nplanes st = length (plane_separations_of st).
Proof.
  eexists. split; [vm_compute; reflexivity|].
  apply (X17_planes_found_are_separations_recorded
           (linalg := zero_matrix_svd) (utils := coincidence_utils)
           (finder_of (site_geometry [e1; me1]) false) (two_point_polyhedron [])
           plane_through_two None [e1; me1]).
  vm_compute. reflexivity.
Defined.

Lemma X18_result_entries_are_coherent_witness :
  ∃ result_dict e,
    get_coordination_symmetry_measures
      (linalg := zero_matrix_svd) (utils := coincidence_utils) (random := alternating_random)
      (finder_with (site_geometry [e1; me1]) [two_point_polyhedron [identity_order]]) true 0
    = Ok (result_dict, 0) ∧
    result_dict !! "L:2" = Some e ∧
    entry_coherent (linalg := zero_matrix_svd)
      (finder_with (site_geometry [e1; me1]) [two_point_polyhedron [identity_order]])
      [two_point_polyhedron [identity_order]] "L:2" e.
Proof.
  eexists _, _.
  assert (Hget :
    get_coordination_symmetry_measures
      (linalg := zero_matrix_svd) (utils := coincidence_utils) (random := alternating_random)
      (finder_with (site_geometry [e1; me1]) [two_point_polyhedron [identity_order]]) true 0
    = Ok (_, 0)) by (vm_compute; reflexivity).
  assert (Hentry : ∀ d : gmap string ResultEntry, ∀ e,
            d = <["L:2" := e]> ∅ → d !! "L:2" = Some e).
  { intros d e ->. apply lookup_insert_eq. }
  split; [exact Hget|]. split; [apply Hentry; reflexivity|].
  apply (X18_result_entries_are_coherent
           (linalg := zero_matrix_svd) (utils := coincidence_utils)
           (random := alternating_random)
           (finder_with (site_geometry [e1; me1]) [two_point_polyhedron [identity_order]])
           true 0 0 _ "L:2" _ Hget).
  apply Hentry. reflexivity.
Defined.

Lemma X19_recorded_measure_is_argmin_witness :
  ∃ e,
    match_geometry (linalg := zero_matrix_svd) (utils := coincidence_utils)
      (random := alternating_random)
      (finder_of (site_geometry [e1; e1]) false) false (∅, 0)
      (two_point_polyhedron [both_orders])
    = Ok (<["L:2" := e]> ∅, 0) ∧
    csm e = NaN.
Proof.
  assert (Hcg :
    coordination_geometry_symmetry_measures
      (linalg := zero_matrix_svd) (utils := coincidence_utils) (random := alternating_random)
      (finder_of (site_geometry [e1; e1]) false) (two_point_polyhedron [both_orders])
      None (_points_wocs_ctwocc (site_geometry [e1; me1])) 0
    = Ok (FiveLists ([NaN; NaN], [[0; 1]; [1; 0]], ["explicit"; "explicit"],
                     local2perfect_of <$> [[0; 1]; [1; 0]],
                     perfect2local_of <$> [[0; 1]; [1; 0]]), 0))
    by (vm_compute; reflexivity).
  destruct (X19_recorded_measure_is_argmin
              (linalg := zero_matrix_svd) (utils := coincidence_utils)
              (random := alternating_random)
              (finder_of (site_geometry [e1; e1]) false)
              (two_point_polyhedron [both_orders]) (site_geometry [e1; me1]) ∅ 0 0 _
              eq_refl Hcg) as (e & He & _ & Hnan & _).
  - discriminate.
  - exists e. split; [exact He|]. apply Hnan. apply list_elem_of_here.
Defined.

Lemma X20_no_algorithms_always_raises_witness :
  ∃ e, match_geometry (linalg := zero_matrix_svd) (utils := coincidence_utils)
         (random := alternating_random)
         (finder_of (site_geometry [e1; me1]) false) true (∅, 0)
         polyhedron_without_algorithms = Raise e.
Proof.
  apply (X20_no_algorithms_always_raises
           (linalg := zero_matrix_svd) (utils := coincidence_utils)
           (random := alternating_random)).
  reflexivity.
Defined.

Lemma X21_all_measures_of_every_polyhedron_witness :
  ∃ result_dict,
    get_coordination_symmetry_measures_all
      (linalg := zero_matrix_svd) (utils := coincidence_utils) (random := alternating_random)
      (finder_with (site_geometry [e1; me1])
         [two_point_polyhedron [identity_order]; two_point_polyhedron []]) 0
    = Ok (result_dict, 0) ∧
    dom result_dict = list_to_set ["L:2"; "L:2"].
Proof.
  eexists.
  assert (Hget :
    get_coordination_symmetry_measures_all
      (linalg := zero_matrix_svd) (utils := coincidence_utils) (random := alternating_random)
      (finder_with (site_geometry [e1; me1])
         [two_point_polyhedron [identity_order]; two_point_polyhedron []]) 0
    = Ok (_, 0)) by (vm_compute; reflexivity).
  split; [exact Hget|].
  apply (X21_all_measures_of_every_polyhedron
           (linalg := zero_matrix_svd) (utils := coincidence_utils)
           (random := alternating_random) _ 0 0 _ Hget).
Defined.

Lemma X23_only_indices_overrides_the_filters_witness :
  select_sites [0; 1; 2] (valences_of [Q2Qc 2; Q2Qc (-2); Q2Qc 1])
    [["Cu"]; ["O"]; ["Si"]] true (Some ["Cu"]) (Some ["O"]) (Some [1; 2])
  = Ok [1; 2].
Proof.
  apply (X23_only_indices_overrides_the_filters [0; 1; 2]
           (valences_of [Q2Qc 2; Q2Qc (-2); Q2Qc 1]) [["Cu"]; ["O"]; ["Si"]] true
           (Some ["Cu"]) (Some ["O"]) [1; 2]).
  - repeat constructor.
  - intros vals Hvals. injection Hvals as <-. repeat constructor.
Defined.

Lemma X24_sites_selected_pass_every_filter_witness :
  ∃ sites_indices,
    select_sites [0; 1; 2] (valences_of [Q2Qc 2; Q2Qc (-2); Q2Qc 1])
      [["Cu"]; ["O"]; ["Si"]] true None (Some ["Si"]) None = Ok sites_indices ∧
    sites_indices `sublist_of` [0; 1; 2].
Proof.
  destruct (X24_sites_selected_pass_every_filter [0; 1; 2]
              (valences_of [Q2Qc 2; Q2Qc (-2); Q2Qc 1]) [["Cu"]; ["O"]; ["Si"]] true
              None (Some ["Si"])) as (sites_indices & Hsel & Hsub & _).
  - repeat constructor.
  - intros vals Hvals. injection Hvals as <-. repeat constructor.
  - exists sites_indices. split; [exact Hsel|exact Hsub].
Defined.

Lemma three_sites_partitioned : partitioned three_sites two_classes class_of_site.
Proof.
  intros site Hsite. unfold three_sites in Hsite.
  rewrite !elem_of_cons, elem_of_nil in Hsite.
  destruct Hsite as [->|[->|[->|[]]]]; (split; [vm_compute; lia|]);
    intros [|[|k]] eqsites Hk; try done; injection Hk as <-;
    rewrite !elem_of_cons, elem_of_nil; vm_compute; split; intros; try lia;
    try discriminate; auto.
Qed.

Lemma X25_sites_map_to_first_of_class_witness :
  ∃ indices irreducible smap,
    unequivalent_sites true three_sites two_classes
    = Ok (indices, two_classes, irreducible, smap) ∧
    StronglySorted lt indices.
Proof.
  destruct (X25_sites_map_to_first_of_class three_sites two_classes class_of_site)
    as (indices & irreducible & smap & Heq & _ & _ & Hsorted).
  - discriminate.
  - exact three_sites_partitioned.
  - exists indices, irreducible, smap. split; [exact Heq|exact Hsorted].
Defined.

Lemma X26_site_outside_every_class_witness :
  unequivalent_sites true (40 :: three_sites) two_classes = Raise UnboundLocalError.
Proof.
  destruct (X26_site_outside_every_class two_classes 40) as [Hfirst _].
  - unfold two_classes. constructor; [|constructor; [|constructor]];
      rewrite !elem_of_cons, elem_of_nil; intros H; repeat destruct H as [H|H];
      (lia || done).
  - apply Hfirst. discriminate.
Defined.

Lemma X27_explicit_indices_are_shifted_witness :
  snd (setup_explicit_indices_local_geometry [1; 0])
  ≡ₚ snd (setup_ordered_indices_local_geometry 2).
Proof.
  apply (X27_explicit_indices_are_shifted [1; 0] 2). apply perm_swap.
Defined.

Lemma X28_fallback_coordination_number_mismatch_witness :
  coordination_geometry_symmetry_measures_fallback_random
    (linalg := zero_matrix_svd) (random := alternating_random)
    (finder_of (site_geometry [e1; me1]) false) three_point_polyhedron NRANDOM
    [e1; me1; e2] 0 = Raise IndexError ∧
  coordination_geometry_symmetry_measures_fallback_random
    (linalg := zero_matrix_svd) (random := alternating_random)
    (finder_of (site_geometry [e1; me1]) false) (two_point_polyhedron []) NRANDOM
    [e1] 0 = Raise IndexError ∧
  ∃ r g', coordination_geometry_symmetry_measures_fallback_random
            (linalg := zero_matrix_svd) (random := alternating_random)
            (finder_of (site_geometry [e1; me1]) false) one_point_polyhedron NRANDOM
            [e1; me1] 0 = Ok (r, g') ∧
          cgsm_csms r = replicate NRANDOM f64_zero.
Proof.
  split; [|split].
  - destruct (X28_fallback_coordination_number_mismatch
                (linalg := zero_matrix_svd) (random := alternating_random)
                (finder_of (site_geometry [e1; me1]) false) three_point_polyhedron
                [e1; me1; e2] NRANDOM 0) as (Hmore & _).
    + unfold NRANDOM. lia.
    + apply Hmore. vm_compute. lia.
  - destruct (X28_fallback_coordination_number_mismatch
                (linalg := zero_matrix_svd) (random := alternating_random)
                (finder_of (site_geometry [e1; me1]) false) (two_point_polyhedron [])
                [e1] NRANDOM 0) as (_ & Hshort & _).
    + unfold NRANDOM. lia.
    + apply Hshort; [vm_compute; lia|discriminate|simpl; lia].
  - destruct (X28_fallback_coordination_number_mismatch
                (linalg := zero_matrix_svd) (random := alternating_random)
                (finder_of (site_geometry [e1; me1]) false) one_point_polyhedron
                [e1; me1] NRANDOM 0) as (_ & _ & _ & Hone).
    + unfold NRANDOM. lia.
    + apply Hone; [reflexivity|]. vm_compute. lia.
Defined.

Lemma X29_one_measure_per_separation_permutation_witness :
  ∃ csms perms algos seps',
    _cg_csm_separation_plane (linalg := zero_matrix_svd) (utils := coincidence_utils)
      (finder_of (site_geometry [e1; me1]) false) (two_point_polyhedron [])
      plane_through_two tt [] DIST_TOLERANCES None [e1; me1]
    = Ok (Some (csms, perms, algos), seps', None) ∧
    length csms = length perms ∧ length perms = 1.
Proof.
  eexists _, _, _, _.
  assert (Hplane :
    _cg_csm_separation_plane (linalg := zero_matrix_svd) (utils := coincidence_utils)
      (finder_of (site_geometry [e1; me1]) false) (two_point_polyhedron [])
      plane_through_two tt [] DIST_TOLERANCES None [e1; me1]
    = Ok (Some (_, _, _), _, None)) by (vm_compute; reflexivity).
  destruct (X29_one_measure_per_separation_permutation
              (linalg := zero_matrix_svd) (utils := coincidence_utils)
              (finder_of (site_geometry [e1; me1]) false) (two_point_polyhedron [])
              plane_through_two tt [] DIST_TOLERANCES None [e1; me1]
              _ _ _ _ _ Hplane) as (Hlen & _ & Hexact).
  split; [exact Hplane|]. split; [exact Hlen|]. apply Hexact. by right.
Defined.

Lemma X30_accepted_separation_has_reference_sizes_witness :
  ∃ separation_perm,
    separation_permutation (utils := coincidence_utils) plane_through_two tt
      [e1; e2] ([], [0; 1], []) = Ok separation_perm ∧
    separation_perm = [] ++ [0; 1] ++ [] ∧
    length separation_perm = length (@nil nat) + length [0; 1] + length (@nil nat).
Proof.
  apply (X30_accepted_separation_has_reference_sizes (utils := coincidence_utils)
           plane_through_two tt [e1; e2] [] [] [0; 1] [] [] [0; 1] []).
  - reflexivity.
  - reflexivity.
  - reflexivity.
Defined.

Lemma X5_views_are_centred_witness :
  _points_wcs_csc (site_geometry [e1; me1])
  = vsub vzero vzero :: _points_wocs_csc (site_geometry [e1; me1]) ∧
  head (_points_wcs_csc (site_geometry [e1; me1])) = Some vzero.
Proof.
  destruct (X5_views_are_centred vzero [e1; me1] centroid true (site_geometry [e1; me1]))
    as [Hfirst Horigin].
  - reflexivity.
  - split; [exact Hfirst|]. apply Horigin. reflexivity.
Defined.

Lemma X22_polyhedron_matches_itself_witness :
  ∃ r, coordination_geometry_symmetry_measures_standard (linalg := zero_matrix_svd)
         (finder_of (site_geometry [e1; me1]) false) (two_point_polyhedron [])
         [[0; 1]] "explicit" [e1; me1] = Ok r ∧
       f64_zero ∈ cgsm_csms r ∧
       min_csm (cgsm_csms r) = Ok f64_zero.
Proof.
  eexists.
  assert (Hr : coordination_geometry_symmetry_measures_standard (linalg := zero_matrix_svd)
                 (finder_of (site_geometry [e1; me1]) false) (two_point_polyhedron [])
                 [[0; 1]] "explicit" [e1; me1] = Ok _) by (vm_compute; reflexivity).
  destruct (X22_polyhedron_matches_itself (linalg := zero_matrix_svd)
              (finder_of (site_geometry [e1; me1]) false) (two_point_polyhedron [])
              [[0; 1]] "explicit" [e1; me1] _ eq_refl finite_e1_me1 nondegenerate_e1_me1
              (list_elem_of_here _ _) Hr) as [Hzero Hmin].
  split; [exact Hr|]. split; [exact Hzero|]. apply Hmin.
  intros Hnan. apply list_elem_of_singleton in Hnan. discriminate.
Defined.
